(** * Agent session orchestrator: a shallow embedding

    The development follows the server's agent manager
    ([agent/agent-manager.ts], class [AgentManager]), the plan service
    ([modules/plan/plan.service.ts]) and the chat service and routes
    ([modules/chat/chat.service.ts], [chat.routes.ts]).

    Conventions of the embedding.
    - The manager's six private maps and sets, the Prisma tables it writes,
      the signals it sends to child processes and the wall clock it reads
      with [new Date()] are the fields of one record, [State]; every handler
      is a function [State -> State] (with a result where the source returns
      one).  The clock is the environment's: no handler sets it.
    - A handler runs without interruption, except where a section below
      splits a function at one of its [await]s.
    - A Prisma call that rejects returns [None]; every [try]/[catch] of the
      source is the [match] that follows the call.
    - An SSE callback registered by the chat service only pushes the message
      on the queue its generator reads, so a callback is modelled as that
      queue.  [sse_trace] records every call of [pushToSSEQueue]; no handler
      reads it.
    - A string is kept as the bytes of its UTF-8 encoding, and texts are
      taken to be well formed (no surrogate stands alone).  Concatenation,
      comparison and the search of an ASCII token are then those of the
      bytes; a length is counted in UTF-16 code units, as [length] counts
      it, by [js_length].
    - The logger and Redis do not touch the state the properties below are
      about and are left out, and so are the socket broadcasts of the
      manager and of the chat service; those of the hook service are the
      list of emits its functions return.  Of the timestamps only
      [finishedAt] is kept.
*)

From Stdlib Require Import ZArith String Ascii List Bool Lia.
From stdpp Require Import base option list gmap strings pretty.
Import ListNotations.

Set Warnings "-register-all".
Local Open Scope string_scope.
Local Open Scope list_scope.
Local Open Scope Z_scope.

(** ** JSON values *)

(** A number is kept as its decimal literal: [JNum m e] is [m * 10^e]. *)
Inductive JSON :=
| JNull
| JBool (b : bool)
| JNum (m e : Z)
| JStr (s : string)
| JArr (items : list JSON)
| JObj (fields : list (string * JSON)).

(** Property read [o.key] on a parsed value: [None] is [undefined].  When a
    key is repeated in a JSON text the last occurrence is the one kept. *)
Fixpoint assoc_last (key : string) (fields : list (string * JSON)) : option JSON :=
  match fields with
  | [] => None
  | (k, v) :: rest =>
      match assoc_last key rest with
      | Some w => Some w
      | None => if String.eqb k key then Some v else None
      end
  end.

Definition jget (key : string) (j : JSON) : option JSON :=
  match j with
  | JObj fields => assoc_last key fields
  | _ => None
  end.

(** [x ?? d] on a property read: [undefined] and [null] give the default. *)
Definition nullish (x : option JSON) (d : JSON) : JSON :=
  match x with
  | None | Some JNull => d
  | Some v => v
  end.

(** Truthiness of a value used as a condition. *)
Definition js_truthy (j : JSON) : bool :=
  match j with
  | JNull => false
  | JBool b => b
  | JNum m _ => negb (m =? 0)
  | JStr s => negb (String.eqb s EmptyString)
  | JArr _ | JObj _ => true
  end.

(** The integer a number denotes, when it denotes one. *)
Definition jnum_to_int (m e : Z) : option Z :=
  if 0 <=? e then Some (m * 10 ^ e)
  else if m mod 10 ^ (- e) =? 0 then Some (m / 10 ^ (- e)) else None.

(** ** Strings *)

Definition str_truthy (s : string) : bool := negb (String.eqb s EmptyString).

(** The double-quote character and a token between double quotes. *)
Definition dquote : string := String (ascii_of_nat 34) EmptyString.
Definition quoted (s : string) : string := dquote +:+ s +:+ dquote.

(** [hay.includes(needle)] *)
Fixpoint includes (needle hay : string) : bool :=
  String.prefix needle hay ||
  match hay with
  | EmptyString => false
  | String _ rest => includes needle rest
  end.

(** [s.length], the number of UTF-16 code units of a text, counted on its
    UTF-8 bytes: one for a byte that starts a sequence of one, two or three
    bytes, two for a byte that starts a sequence of four (the text has a
    surrogate pair there), none for a continuation byte. *)
Fixpoint js_length (s : string) : nat :=
  match s with
  | EmptyString => O
  | String c rest =>
      let b := nat_of_ascii c in
      ((if b <? 128 then 1 else if b <? 192 then 0 else if b <? 240 then 1 else 2)
       + js_length rest)%nat
  end.

(** The strings of a list one after the other. *)
Definition join (l : list string) : string := fold_right String.append EmptyString l.

(** The first part of a split, with one more byte in front. *)
Definition cons_head (c : ascii) (parts : list string) : list string :=
  match parts with
  | part :: rest => String c part :: rest
  | [] => [String c EmptyString]
  end.



Definition str_take (n : nat) (s : string) : string := String.substring 0 n s.
Definition str_drop (n : nat) (s : string) : string :=
  String.substring n (String.length s - n) s.

(** ** The regular expression of the testcase extractor

    [/\{.*"testcases".*\}/s] is a sequence of literals and greedy [.*]
    (with the [s] flag the dot matches every code unit).  [regex_here]
    matches a pattern at the start of the text, trying the longest run
    first for every [.*]; [regex_search] is [String.prototype.match]
    without the [g] flag: the leftmost start that matches. *)
Inductive RegexItem :=
| RLit (lit : string)
| RDotStar.

Fixpoint regex_here (p : list RegexItem) (s : string) : option string :=
  match p with
  | [] => Some EmptyString
  | RLit lit :: p' =>
      if String.prefix lit s
      then option_map (String.append lit) (regex_here p' (str_drop (String.length lit) s))
      else None
  | RDotStar :: p' =>
      (fix longest (n : nat) : option string :=
         match regex_here p' (str_drop n s) with
         | Some m => Some (str_take n s +:+ m)
         | None => match n with
                   | O => None
                   | S n' => longest n'
                   end
         end) (String.length s)
  end.

Fixpoint regex_search (p : list RegexItem) (s : string) : option string :=
  match regex_here p s with
  | Some m => Some m
  | None => match s with
            | EmptyString => None
            | String _ rest => regex_search p rest
            end
  end.

Definition testcases_regex : list RegexItem :=
  [RLit "{"; RDotStar; RLit (quoted "testcases"); RDotStar; RLit "}"].


(** ** Data model *)

(** [child_process.ChildProcess], as far as the manager reads it. *)
Record ChildProcess := mkChild {
  pid : option Z;
  exitCode : option Z;
  killed : bool;
}.

(** A content block of a legacy message. *)
Inductive Block :=
| BText (text : option string)
| BThinking (thinking : option string)
| BOther.

Inductive Content :=
| CString (s : string)
| CBlocks (blocks : list Block)
| CAbsent.

(** [AgentMessageData]: a message kept in a pending reply. *)
Record AgentMessageData := mkMsg {
  msg_id : option string;
  msg_role : option string;
  msg_content : Content;
  _accumulated_content : option string;
}.

(** [PendingReply] *)
Record PendingReply := mkReply {
  reply_conversationId : string;
  reply_replyId : string;
  reply_userId : string;
  reply_messages : list AgentMessageData;
  reply_finished : bool;
  reply_cancelled : bool;
}.

(** [AgentEvent]: the structured events of the agent hook.  [EOther] is an
    event whose [type] is none of the five the loop tests for. *)
Inductive AgentEvent :=
| EText (content : string)
| EThinking (content : string)
| EToolCall (id name : string) (input : JSON)
| EToolResult (id name : string) (output : string) (success : bool)
| ECoordinator (event_type : string) (data : JSON)
| EOther (type : string).

(** What [pushToSSEQueue] is given (the argument [null] is [None]). *)
Inductive SSEMessage :=
| SseChunk (content : string)
| SseThinking (content : string)
| SseToolCall (id name : string) (input : JSON)
| SseToolResult (id name : string) (output : string) (success : bool)
| SseCoordinator (event_type : string) (data : JSON)
| SseTestcases (status count : JSON) (testcases : list JSON)
| SseCancelled (message : string).

Definition is_testcases (m : option SSEMessage) : bool :=
  match m with Some (SseTestcases _ _ _) => true | _ => false end.

Definition is_chunk (m : option SSEMessage) : bool :=
  match m with Some (SseChunk _) => true | _ => false end.

(** [SpawnAgentParams], without the model configuration. *)
Record SpawnAgentParams := mkParams {
  p_replyId : string;
  p_conversationId : string;
  p_userId : string;
  p_query : string;
}.

(** *** Durable store *)

Inductive AgentSessionStatus := STARTING | RUNNING | COMPLETED | CANCELLED | FAILED.

Record AgentSession := mkSession {
  as_conversationId : string;
  as_userId : string;
  as_status : AgentSessionStatus;
  as_pid : option Z;
  as_finishedAt : option Z;
}.

(** A row of [message]; [m_id = None] is a key the store generated. *)
Record MessageRow := mkRow {
  m_id : option string;
  m_conversationId : string;
  m_role : string;
  m_content : string;
}.

(** A row of [coordinatorPlan]; [phaseOutputs = None] is JSON null. *)
Record CoordinatorPlan := mkPlan {
  objective : string;
  plan : JSON;
  activePhase : option Z;
  completedPhases : list Z;
  phaseOutputs : option (gmap string JSON);
  status : string;
}.

Record Db := mkDb {
  messages : list MessageRow;
  agentSessions : gmap string AgentSession;
  coordinatorPlans : gmap string CoordinatorPlan;
}.

(** Signals sent to a child, named by the reply it serves. *)
Inductive OsAction :=
| SendSignal (replyId : string) (signal : string)
| ScheduleSignal (replyId : string) (signal : string) (delay_ms : nat).

(** *** The state *)

Record State := mkState {
  processes : gmap string ChildProcess;
  conversationAgents : gmap string (list string);
  pendingReplies : gmap string PendingReply;
  messageCallbacks : gmap string (list (list (option SSEMessage)));
  extractedTestcaseReplies : gset string;
  hiddenToolCallIds : gset string;
  db : Db;
  os_log : list OsAction;
  sse_trace : list (string * option SSEMessage);
  clock : Z;
}.

Definition set_processes (f : gmap string ChildProcess -> gmap string ChildProcess) (st : State) : State :=
  mkState (f (processes st)) (conversationAgents st) (pendingReplies st) (messageCallbacks st)
          (extractedTestcaseReplies st) (hiddenToolCallIds st) (db st) (os_log st) (sse_trace st) (clock st).

Definition set_conversationAgents (f : gmap string (list string) -> gmap string (list string)) (st : State) : State :=
  mkState (processes st) (f (conversationAgents st)) (pendingReplies st) (messageCallbacks st)
          (extractedTestcaseReplies st) (hiddenToolCallIds st) (db st) (os_log st) (sse_trace st) (clock st).

Definition set_pendingReplies (f : gmap string PendingReply -> gmap string PendingReply) (st : State) : State :=
  mkState (processes st) (conversationAgents st) (f (pendingReplies st)) (messageCallbacks st)
          (extractedTestcaseReplies st) (hiddenToolCallIds st) (db st) (os_log st) (sse_trace st) (clock st).

Definition set_messageCallbacks
    (f : gmap string (list (list (option SSEMessage))) -> gmap string (list (list (option SSEMessage))))
    (st : State) : State :=
  mkState (processes st) (conversationAgents st) (pendingReplies st) (f (messageCallbacks st))
          (extractedTestcaseReplies st) (hiddenToolCallIds st) (db st) (os_log st) (sse_trace st) (clock st).

Definition set_extractedTestcaseReplies (f : gset string -> gset string) (st : State) : State :=
  mkState (processes st) (conversationAgents st) (pendingReplies st) (messageCallbacks st)
          (f (extractedTestcaseReplies st)) (hiddenToolCallIds st) (db st) (os_log st) (sse_trace st) (clock st).

Definition set_hiddenToolCallIds (f : gset string -> gset string) (st : State) : State :=
  mkState (processes st) (conversationAgents st) (pendingReplies st) (messageCallbacks st)
          (extractedTestcaseReplies st) (f (hiddenToolCallIds st)) (db st) (os_log st) (sse_trace st) (clock st).

Definition set_db (f : Db -> Db) (st : State) : State :=
  mkState (processes st) (conversationAgents st) (pendingReplies st) (messageCallbacks st)
          (extractedTestcaseReplies st) (hiddenToolCallIds st) (f (db st)) (os_log st) (sse_trace st) (clock st).

Definition set_os_log (f : list OsAction -> list OsAction) (st : State) : State :=
  mkState (processes st) (conversationAgents st) (pendingReplies st) (messageCallbacks st)
          (extractedTestcaseReplies st) (hiddenToolCallIds st) (db st) (f (os_log st)) (sse_trace st) (clock st).

Definition set_sse_trace
    (f : list (string * option SSEMessage) -> list (string * option SSEMessage)) (st : State) : State :=
  mkState (processes st) (conversationAgents st) (pendingReplies st) (messageCallbacks st)
          (extractedTestcaseReplies st) (hiddenToolCallIds st) (db st) (os_log st) (f (sse_trace st)) (clock st).

(** The wall clock is not the manager's: time passes between its calls. *)
Definition set_clock (now : Z) (st : State) : State :=
  mkState (processes st) (conversationAgents st) (pendingReplies st) (messageCallbacks st)
          (extractedTestcaseReplies st) (hiddenToolCallIds st) (db st) (os_log st) (sse_trace st)
          now.

Definition empty_db : Db := mkDb [] ∅ ∅.

(** A freshly constructed manager over an empty store. *)
Definition initial_state : State := mkState ∅ ∅ ∅ ∅ ∅ ∅ empty_db [] [] 0.

(** *** Prisma calls ([None]: the promise rejects) *)

Definition id_taken (i : string) (rows : list MessageRow) : bool :=
  existsb (fun row => match m_id row with
                      | Some j => String.eqb i j
                      | None => false
                      end) rows.

(** [prisma.message.create]: the primary key is unique. *)
Definition message_create (row : MessageRow) (d : Db) : option Db :=
  match m_id row with
  | Some i => if id_taken i (messages d) then None
              else Some (mkDb (messages d ++ [row]) (agentSessions d) (coordinatorPlans d))
  | None => Some (mkDb (messages d ++ [row]) (agentSessions d) (coordinatorPlans d))
  end.

(** [prisma.agentSession.create]: [replyId] is unique. *)
Definition agentSession_create (replyId : string) (row : AgentSession) (d : Db) : option Db :=
  match agentSessions d !! replyId with
  | Some _ => None
  | None => Some (mkDb (messages d) (<[replyId := row]> (agentSessions d)) (coordinatorPlans d))
  end.

(** [prisma.agentSession.update({ where: { replyId } })]: the row must exist. *)
Definition agentSession_update (replyId : string) (f : AgentSession -> AgentSession) (d : Db)
  : option Db :=
  match agentSessions d !! replyId with
  | Some row => Some (mkDb (messages d) (<[replyId := f row]> (agentSessions d)) (coordinatorPlans d))
  | None => None
  end.

Definition coordinatorPlan_findUnique (conversationId : string) (d : Db) : option CoordinatorPlan :=
  coordinatorPlans d !! conversationId.

Definition coordinatorPlan_upsert (conversationId : string) (row : CoordinatorPlan) (d : Db)
  : option Db :=
  Some (mkDb (messages d) (agentSessions d) (<[conversationId := row]> (coordinatorPlans d))).

Definition coordinatorPlan_update (conversationId : string)
    (f : CoordinatorPlan -> CoordinatorPlan) (d : Db) : option Db :=
  match coordinatorPlans d !! conversationId with
  | Some row => Some (mkDb (messages d) (agentSessions d)
                           (<[conversationId := f row]> (coordinatorPlans d)))
  | None => None
  end.

(** ** Plan service ([plan.service.ts]) *)

Definition upsertPlan (conversationId : string) (objective0 : string) (plan0 : JSON)
    (status0 : string) (d : Db) : option Db :=
  coordinatorPlan_upsert conversationId (mkPlan objective0 plan0 None [] None status0) d.

Definition updatePhaseStarted (conversationId : string) (phaseIndex : Z) (d : Db) : Db :=
  match coordinatorPlan_update conversationId
          (fun row => mkPlan (objective row) (plan row) (Some phaseIndex)
                             (completedPhases row) (phaseOutputs row) "running") d with
  | Some d' => d'
  | None => d
  end.

Definition phase_key (phaseIndex : Z) : string := "phase_" +:+ pretty phaseIndex.

Definition updatePhaseCompleted (conversationId : string) (phaseIndex : Z)
    (phaseOutput : option JSON) (d : Db) : Db :=
  match coordinatorPlan_findUnique conversationId d with
  | None => d
  | Some existingPlan =>
      let completed :=
        if bool_decide (phaseIndex ∈ completedPhases existingPlan)
        then completedPhases existingPlan
        else completedPhases existingPlan ++ [phaseIndex] in
      let existingOutputs := default ∅ (phaseOutputs existingPlan) in
      let outputs :=
        match phaseOutput with
        | Some out => if js_truthy out then <[phase_key phaseIndex := out]> existingOutputs
                      else existingOutputs
        | None => existingOutputs
        end in
      let active :=
        if bool_decide (activePhase existingPlan = Some phaseIndex) then None
        else activePhase existingPlan in
      match coordinatorPlan_update conversationId
              (fun row => mkPlan (objective row) (plan row) active completed
                                 (Some outputs) (status row)) d with
      | Some d' => d'
      | None => d
      end
  end.

Definition updatePlanStatus (conversationId : string) (status0 : string) (d : Db) : Db :=
  match coordinatorPlan_update conversationId
          (fun row => mkPlan (objective row) (plan row) (activePhase row)
                             (completedPhases row) (phaseOutputs row) status0) d with
  | Some d' => d'
  | None => d
  end.

(** ** Platform

    [isToolHidden] and [getToolDisplayName] come from [agent/tool-display.ts]
    and [JSON_parse] is the runtime's [JSON.parse] ([None]: it throws). *)
Class Platform := {
  isToolHidden : string -> bool;
  getToolDisplayName : string -> string;
  JSON_parse : string -> option JSON;
}.

Section Manager.
Context `{Platform}.

(** ** The agent manager ([agent-manager.ts]) *)

(** [pushToSSEQueue]: every callback registered for the reply is called. *)
Definition pushToSSEQueue (replyId : string) (msg : option SSEMessage) (st : State) : State :=
  set_sse_trace (fun t => t ++ [(replyId, msg)])
    (match messageCallbacks st !! replyId with
     | Some callbacks =>
         set_messageCallbacks (<[replyId := map (fun q => q ++ [msg]) callbacks]>) st
     | None => st
     end).

Definition registerSSECallback (replyId : string) (st : State) : State :=
  set_messageCallbacks
    (fun cbs => <[replyId := default [] (cbs !! replyId) ++ [[]]]> cbs) st.

Definition removeSSECallbacks (replyId : string) (st : State) : State :=
  set_messageCallbacks (delete replyId) st.

Definition getPendingReply (replyId : string) (st : State) : option PendingReply :=
  pendingReplies st !! replyId.

Definition isRunning (replyId : string) (st : State) : bool :=
  match processes st !! replyId with
  | None => false
  | Some child => bool_decide (exitCode child = None) && negb (killed child)
  end.

Definition getConversationAgents (conversationId : string) (st : State) : list string :=
  default [] (conversationAgents st !! conversationId).

(** [Set.prototype.add] on a set kept in insertion order. *)
Definition set_add (x : string) (l : list string) : list string :=
  if bool_decide (x ∈ l) then l else l ++ [x].

(** [spawnAgent], up to the child being spawned and placed in the process
    map; [child_pid] is the pid of the child [spawnAgentProcess] returns. *)
Definition spawnAgent_begin (params : SpawnAgentParams) (child_pid : option Z) (st : State) : State :=
  let replyId := p_replyId params in
  let conversationId := p_conversationId params in
  let userId := p_userId params in
  let st := set_pendingReplies
              (<[replyId := mkReply conversationId replyId userId [] false false]>) st in
  let st := set_conversationAgents
              (fun ca => <[conversationId := set_add replyId (default [] (ca !! conversationId))]> ca)
              st in
  let st := match agentSession_create replyId
                    (mkSession conversationId userId STARTING None None) (db st) with
            | Some d => set_db (fun _ => d) st
            | None => st
            end in
  set_processes (<[replyId := mkChild child_pid None false]>) st.

(** The rest of [spawnAgent]: after the awaited status update the exit
    listener is attached and the function returns. *)
Definition spawnAgent_end (params : SpawnAgentParams) (child_pid : option Z) (st : State) : State :=
  match agentSession_update (p_replyId params)
          (fun row => mkSession (as_conversationId row) (as_userId row) RUNNING child_pid
                               (as_finishedAt row))
          (db st) with
  | Some d => set_db (fun _ => d) st
  | None => st
  end.

Definition spawnAgent (params : SpawnAgentParams) (child_pid : option Z) (st : State) : State :=
  spawnAgent_end params child_pid (spawnAgent_begin params child_pid st).

(** What the runtime does when a child ends and its [exit] event finds no
    listener: it writes [exitCode] on the child object ([null] when a signal
    ended the child) and nothing of the manager runs. *)
Definition exit_unheard (replyId : string) (exit_code : option Z) (st : State) : State :=
  set_processes (alter (fun child => mkChild (pid child) exit_code (killed child)) replyId) st.

(** [spawnAgent] when the child ends during the awaits that follow
    [processes.set], before [child.on('exit', ...)] is reached: the listener
    is attached too late and never runs. *)
Definition spawnAgent_exited (params : SpawnAgentParams) (child_pid exit_code : option Z)
    (st : State) : State :=
  spawnAgent_end params child_pid
    (exit_unheard (p_replyId params) exit_code (spawnAgent_begin params child_pid st)).

(** The listener [child.on('exit', ...)] attached by [spawnAgent]; it closes
    over [replyId] and [conversationId]. *)
Definition onChildExit (replyId conversationId : string) (st : State) : State :=
  let st := set_processes (delete replyId) st in
  match conversationAgents st !! conversationId with
  | Some convAgents =>
      let remaining := filter (fun x => x ≠ replyId) convAgents in
      match remaining with
      | [] => set_conversationAgents (delete conversationId) st
      | _ => set_conversationAgents (<[conversationId := remaining]>) st
      end
  | None => st
  end.

Definition testcase_keywords : list string :=
  [quoted "testcases"; quoted "interface_name";
   "generate_positive_cases"; "generate_negative_cases"].

(** [extractAndPushTestcases] *)
Definition extractAndPushTestcases (replyId : string) (textContent : string) (st : State) : State :=
  if bool_decide (replyId ∈ extractedTestcaseReplies st) then st
  else if negb (str_truthy textContent) || (js_length textContent <? 100)%nat then st
  else if negb (existsb (fun kw => includes kw textContent) testcase_keywords) then st
  else
    match regex_search testcases_regex textContent with
    | None => st
    | Some matched =>
        match JSON_parse matched with
        | None => st
        | Some data =>
            match jget "testcases" data with
            | Some (JArr (t :: ts)) =>
                let testcases := t :: ts in
                pushToSSEQueue replyId
                  (Some (SseTestcases
                           (nullish (jget "status" data) (JStr "unknown"))
                           (nullish (jget "count" data) (JNum (Z.of_nat (length testcases)) 0))
                           testcases))
                  (set_extractedTestcaseReplies (fun s => {[replyId]} ∪ s) st)
            | _ => st
            end
        end
    end.

(** The text and thinking content of a legacy message. *)
Definition parse_content (c : Content) : string * string :=
  match c with
  | CBlocks blocks =>
      fold_left (fun acc block =>
                   match block with
                   | BText t => (fst acc +:+ default EmptyString t, snd acc)
                   | BThinking t => (fst acc, snd acc +:+ default EmptyString t)
                   | BOther => acc
                   end) blocks (EmptyString, EmptyString)
  | CString s => (s, EmptyString)
  | CAbsent => (EmptyString, EmptyString)
  end.

(** [Array.prototype.findIndex] *)
Fixpoint findIndex {A} (test : A -> bool) (l : list A) : option nat :=
  match l with
  | [] => None
  | x :: rest => if test x then Some O else option_map S (findIndex test rest)
  end.

Definition update_reply (replyId : string) (f : PendingReply -> PendingReply) (st : State) : State :=
  set_pendingReplies (fun m => match m !! replyId with
                               | Some reply => <[replyId := f reply]> m
                               | None => m
                               end) st.

Definition with_messages (msgs : list AgentMessageData) (reply : PendingReply) : PendingReply :=
  mkReply (reply_conversationId reply) (reply_replyId reply) (reply_userId reply)
          msgs (reply_finished reply) (reply_cancelled reply).

Definition accumulate (existing : AgentMessageData) (text : string) : AgentMessageData :=
  let accumulated := default EmptyString (_accumulated_content existing) +:+ text in
  mkMsg (msg_id existing) (msg_role existing) (CBlocks [BText (Some accumulated)]) (Some accumulated).

(** [handleAgentMessage]: the legacy message format. *)
Definition handleAgentMessage (replyId : string) (msg : AgentMessageData) (st : State) : State :=
  match pendingReplies st !! replyId with
  | None => st
  | Some reply =>
      let '(textContent, thinkingContent) := parse_content (msg_content msg) in
      let messageId := default EmptyString (msg_id msg) in
      let msgs :=
        match findIndex (fun m => bool_decide (msg_id m = Some messageId) && str_truthy messageId)
                        (reply_messages reply) with
        | Some existingIdx =>
            match reply_messages reply !! existingIdx with
            | Some existing => <[existingIdx := accumulate existing textContent]> (reply_messages reply)
            | None => reply_messages reply
            end
        | None =>
            reply_messages reply ++
              [mkMsg (msg_id msg) (msg_role msg) (msg_content msg) (Some textContent)]
        end in
      let st := update_reply replyId (with_messages msgs) st in
      let st := if str_truthy thinkingContent
                then pushToSSEQueue replyId (Some (SseThinking thinkingContent)) st else st in
      let st := if str_truthy textContent
                then pushToSSEQueue replyId (Some (SseChunk textContent)) st else st in
      extractAndPushTestcases replyId textContent st
  end.

(** [data.phase ?? 1], read as the integer the store's column holds.  It is
    [None] when [data] is [null], where reading the property throws, and
    when the value is no integer, which makes the store reject the write:
    either way the [catch] of the handler is reached and nothing is
    written. *)
Definition phase_of (data : JSON) : option Z :=
  match data with
  | JNull => None
  | _ =>
      match nullish (jget "phase" data) (JNum 1 0) with
      | JNum m e => jnum_to_int m e
      | _ => None
      end
  end.

(** [handleCoordinatorEvent].  The event's [data] is [JNull] when it is
    [null] or missing; the branches that read a property of it then throw
    and write nothing, the others do not read it. *)
Definition handleCoordinatorEvent (replyId eventType : string) (data : JSON) (st : State) : State :=
  match pendingReplies st !! replyId with
  | None => st
  | Some reply =>
      let conversationId := reply_conversationId reply in
      if String.eqb eventType "plan_created" then
        match data with
        | JNull => st
        | _ =>
            let planData := nullish (jget "plan" data) (JObj []) in
            match nullish (jget "objective" planData) (JStr EmptyString) with
            | JStr objective0 =>
                match upsertPlan conversationId objective0 planData "running" (db st) with
                | Some d => set_db (fun _ => d) st
                | None => st
                end
            | _ => st
            end
        end
      else if String.eqb eventType "phase_started" then
        match phase_of data with
        | Some phaseNumber => set_db (updatePhaseStarted conversationId phaseNumber) st
        | None => st
        end
      else if String.eqb eventType "phase_completed" then
        match phase_of data with
        | Some phaseNumber =>
            set_db (updatePhaseCompleted conversationId phaseNumber (jget "evaluation" data)) st
        | None => st
        end
      else if String.eqb eventType "task_completed" then
        set_db (updatePlanStatus conversationId "completed") st
      else if String.eqb eventType "execution_failed" || String.eqb eventType "task_failed" then
        set_db (updatePlanStatus conversationId "failed") st
      else st
  end.

(** The text branch of the loop on [reply.messages]: the content is added
    to [messages[0]], which is created when the list is empty. *)
Definition append_text (content : string) (reply : PendingReply) : PendingReply :=
  match reply_messages reply with
  | existing :: rest => with_messages (accumulate existing content :: rest) reply
  | [] => with_messages
            [mkMsg None (Some "assistant") (CBlocks [BText (Some content)]) (Some content)]
            reply
  end.

(** The messages of a reply that held none, after text events. *)
Definition text_messages (contents : list string) : list AgentMessageData :=
  match contents with
  | [] => []
  | _ => [mkMsg None (Some "assistant") (CBlocks [BText (Some (join contents))])
                (Some (join contents))]
  end.

(** [reply.messages[0]?._accumulated_content ?? '']: the text a reply has
    accumulated. *)
Definition accumulated_text (replyId : string) (st : State) : string :=
  match pendingReplies st !! replyId with
  | Some reply =>
      match reply_messages reply with
      | m :: _ => default EmptyString (_accumulated_content m)
      | [] => EmptyString
      end
  | None => EmptyString
  end.

(** The body of the loop of [handleAgentEvents].  [reply] is the object
    held in [pendingReplies], so the body reads and writes it there. *)
Definition handleAgentEvent (replyId : string) (event : AgentEvent) (st : State) : State :=
  match event with
  | EText content =>
      let st := update_reply replyId (append_text content) st in
      let st := pushToSSEQueue replyId (Some (SseChunk content)) st in
      extractAndPushTestcases replyId (accumulated_text replyId st) st
  | EThinking content => pushToSSEQueue replyId (Some (SseThinking content)) st
  | EToolCall id name input =>
      if isToolHidden name then set_hiddenToolCallIds (fun s => {[id]} ∪ s) st
      else pushToSSEQueue replyId (Some (SseToolCall id (getToolDisplayName name) input)) st
  | EToolResult id name output success =>
      if isToolHidden name || bool_decide (id ∈ hiddenToolCallIds st) then st
      else pushToSSEQueue replyId
             (Some (SseToolResult id (getToolDisplayName name) output success)) st
  | ECoordinator event_type data =>
      pushToSSEQueue replyId (Some (SseCoordinator event_type data))
        (handleCoordinatorEvent replyId event_type data st)
  | EOther _ => st
  end.

(** [handleAgentEvents] *)
Definition handleAgentEvents (replyId : string) (events : list AgentEvent) (st : State) : State :=
  match pendingReplies st !! replyId with
  | None => st
  | Some _ => fold_left (fun s event => handleAgentEvent replyId event s) events st
  end.

(** One turn of the loop that saves the accumulated messages, in
    [handleAgentFinished] and in [terminateAgent]. *)
Definition saveMessage (conversationId : string) (msg : AgentMessageData) (d : Db) : Db :=
  let accumulated := default EmptyString (_accumulated_content msg) in
  if str_truthy accumulated then
    let msgId := match msg_id msg with
                 | Some i => if str_truthy i then Some i else None
                 | None => None
                 end in
    match message_create (mkRow msgId conversationId "assistant" accumulated) d with
    | Some d' => d'
    | None => d
    end
  else d.

Definition saveMessages (conversationId : string) (msgs : list AgentMessageData) (d : Db) : Db :=
  fold_left (fun d' msg => saveMessage conversationId msg d') msgs d.

Definition with_flags (finished cancelled : bool) (reply : PendingReply) : PendingReply :=
  mkReply (reply_conversationId reply) (reply_replyId reply) (reply_userId reply)
          (reply_messages reply) finished cancelled.

Definition set_session_status (replyId : string) (s : AgentSessionStatus) (st : State) : State :=
  match agentSession_update replyId
          (fun row => mkSession (as_conversationId row) (as_userId row) s (as_pid row)
                                (Some (clock st)))
          (db st) with
  | Some d => set_db (fun _ => d) st
  | None => st
  end.

(** [handleAgentFinished] *)
Definition handleAgentFinished (replyId : string) (st : State) : State :=
  let st :=
    match pendingReplies st !! replyId with
    | Some reply =>
        let st := update_reply replyId (with_flags true (reply_cancelled reply)) st in
        set_db (saveMessages (reply_conversationId reply) (reply_messages reply)) st
    | None => st
    end in
  let st := pushToSSEQueue replyId None st in
  let st := set_session_status replyId COMPLETED st in
  match processes st !! replyId with
  | Some child =>
      set_processes (delete replyId) (set_os_log (fun l => l ++ [SendSignal replyId "SIGTERM"]) st)
  | None => st
  end.

Definition cancel_message : option SSEMessage := Some (SseCancelled "用户终止了请求").

(** [terminateAgent] *)
Definition terminateAgent (replyId : string) (st : State) : bool * State :=
  match pendingReplies st !! replyId with
  | None => (false, st)
  | Some reply =>
      let child := processes st !! replyId in
      let st := set_db (saveMessages (reply_conversationId reply) (reply_messages reply)) st in
      let st :=
        match child with
        | Some _ =>
            set_processes (delete replyId)
              (set_os_log (fun l => l ++ [SendSignal replyId "SIGTERM";
                                          ScheduleSignal replyId "SIGKILL" 5000]) st)
        | None => st
        end in
      let st := update_reply replyId (with_flags true true) st in
      let st := pushToSSEQueue replyId cancel_message st in
      let st := pushToSSEQueue replyId None st in
      let st := set_session_status replyId CANCELLED st in
      (true, st)
  end.

(** [terminateConversation] *)
Definition terminateConversation (conversationId : string) (st : State) : State :=
  match conversationAgents st !! conversationId with
  | None => st
  | Some replyIds => fold_left (fun s replyId => snd (terminateAgent replyId s)) replyIds st
  end.

(** [cleanup] *)
Definition cleanup (st : State) : State :=
  let kills := flat_map (fun entry => [SendSignal (fst entry) "SIGTERM";
                                       ScheduleSignal (fst entry) "SIGKILL" 3000])
                        (map_to_list (processes st)) in
  mkState ∅ ∅ ∅ ∅ ∅ ∅ (db st) (os_log st ++ kills) (sse_trace st) (clock st).

(** ** Chat service ([chat.service.ts]) *)

(** What [sendMessageStreaming] yields, and the [error] record [streamSSE]
    writes when the generator throws. *)
Inductive SSEFrame :=
| FStart (conversation_id reply_id : string)
| FMessage (m : SSEMessage)
| FHeartbeat
| FDone (conversation_id : string)
| FError (message : string).

(** The [event:] field [streamSSE] writes for a frame. *)
Definition frame_type (f : SSEFrame) : string :=
  match f with
  | FStart _ _ => "start"
  | FMessage (SseChunk _) => "chunk"
  | FMessage (SseThinking _) => "thinking"
  | FMessage (SseToolCall _ _ _) => "tool_call"
  | FMessage (SseToolResult _ _ _ _) => "tool_result"
  | FMessage (SseCoordinator _ _) => "coordinator_event"
  | FMessage (SseTestcases _ _ _) => "testcases"
  | FMessage (SseCancelled _) => "cancelled"
  | FHeartbeat => "heartbeat"
  | FDone _ => "done"
  | FError _ => "error"
  end.

(** The generator of one streaming send: what it has yielded so far and
    whether it has returned. *)
Record Stream := mkStream {
  stream_conversationId : string;
  stream_replyId : string;
  stream_frames : list SSEFrame;
  stream_returned : bool;
}.

(** [sendMessageStreaming] up to its first [yield]. *)
Definition sendMessageStreaming_start (conversationId replyId : string) : Stream :=
  mkStream conversationId replyId [FStart conversationId replyId] false.

(** ... the call [registerSSECallback] that follows [await spawnAgent]: the
    callback's [messageQueue] starts empty. *)
Definition sendMessageStreaming_subscribe (s : Stream) (st : State) : State :=
  registerSSECallback (stream_replyId s) st.

(** The inner [while]: messages are shifted off the queue and yielded up to
    the first [null]; the flag tells whether the end signal was met. *)
Fixpoint drain (conversationId : string) (queue : list (option SSEMessage))
  : list SSEFrame * bool :=
  match queue with
  | [] => ([], false)
  | None :: _ => ([FDone conversationId], true)
  | Some msg :: rest =>
      let '(frames, ended) := drain conversationId rest in
      (FMessage msg :: frames, ended)
  end.

(** The generator's queue: the one of the callback it registered. *)
Definition stream_queue (s : Stream) (st : State) : list (option SSEMessage) :=
  match messageCallbacks st !! stream_replyId s with
  | Some (queue :: _) => queue
  | _ => []
  end.

Definition clear_queue (s : Stream) (st : State) : State :=
  set_messageCallbacks
    (fun cbs => match cbs !! stream_replyId s with
                | Some (_ :: others) => <[stream_replyId s := [] :: others]> cbs
                | _ => cbs
                end) st.

(** One turn of the outer [while (true)], entered when a message or the
    30 s timer wakes the generator. *)
Definition sendMessageStreaming_poll (s : Stream) (st : State) : Stream * State :=
  if stream_returned s then (s, st)
  else
    let '(frames, ended) := drain (stream_conversationId s) (stream_queue s st) in
    let yielded := stream_frames s ++ frames in
    if ended then
      (mkStream (stream_conversationId s) (stream_replyId s) yielded true,
       removeSSECallbacks (stream_replyId s) st)
    else
      let st := clear_queue s st in
      if negb (isRunning (stream_replyId s) st) then
        (mkStream (stream_conversationId s) (stream_replyId s)
                  (yielded ++ [FDone (stream_conversationId s)]) true,
         removeSSECallbacks (stream_replyId s) st)
      else
        (mkStream (stream_conversationId s) (stream_replyId s) (yielded ++ [FHeartbeat]) false,
         st).

(** [interruptAgent] *)
Definition interruptAgent (replyId : string) (st : State) : bool * State :=
  terminateAgent replyId st.

(** ** The [authenticate] pre-handler ([plugins/auth.ts]) *)









(** ** Chat routes ([chat.routes.ts]) *)




(** ** Histories of the manager *)

(** The calls the rest of the server makes on the manager, with the turns
    of the streams that read its callbacks' queues. *)
Inductive Op :=
| OpSpawnAgent (params : SpawnAgentParams) (child_pid : option Z)
| OpChildExit (replyId conversationId : string)
| OpHandleAgentMessage (replyId : string) (msg : AgentMessageData)
| OpHandleAgentEvents (replyId : string) (events : list AgentEvent)
| OpHandleAgentFinished (replyId : string)
| OpTerminateAgent (replyId : string)
| OpTerminateConversation (conversationId : string)
| OpRegisterSSECallback (replyId : string)
| OpRemoveSSECallbacks (replyId : string)
| OpStreamPoll (s : Stream)
| OpCleanup
| OpSpawnAgentExited (params : SpawnAgentParams) (child_pid exit_code : option Z)
| OpTick (now : Z).

Definition run_op (op : Op) (st : State) : State :=
  match op with
  | OpSpawnAgent params child_pid => spawnAgent params child_pid st
  | OpChildExit replyId conversationId => onChildExit replyId conversationId st
  | OpHandleAgentMessage replyId msg => handleAgentMessage replyId msg st
  | OpHandleAgentEvents replyId events => handleAgentEvents replyId events st
  | OpHandleAgentFinished replyId => handleAgentFinished replyId st
  | OpTerminateAgent replyId => snd (terminateAgent replyId st)
  | OpTerminateConversation conversationId => terminateConversation conversationId st
  | OpRegisterSSECallback replyId => registerSSECallback replyId st
  | OpRemoveSSECallbacks replyId => removeSSECallbacks replyId st
  | OpStreamPoll s => snd (sendMessageStreaming_poll s st)
  | OpCleanup => cleanup st
  | OpSpawnAgentExited params child_pid exit_code =>
      spawnAgent_exited params child_pid exit_code st
  | OpTick now => set_clock now st
  end.

Definition run_ops (ops : list Op) (st : State) : State :=
  fold_left (fun s op => run_op op s) ops st.

Definition is_cleanup (op : Op) : bool :=
  match op with OpCleanup => true | _ => false end.

(** The messages pushed for a reply after the first [n] entries of the trace. *)
Definition pushed_since (n : nat) (replyId : string) (st : State) : list (option SSEMessage) :=
  map snd (filter (fun entry => fst entry = replyId) (drop n (sse_trace st))).

(** The reply ids for which a history spawns an agent. *)
Definition spawned_by (op : Op) : list string :=
  match op with
  | OpSpawnAgent params _ | OpSpawnAgentExited params _ _ => [p_replyId params]
  | _ => []
  end.

Definition spawned_ids (ops : list Op) : list string := flat_map spawned_by ops.

(** How many [testcases] events were pushed for a reply. *)
Definition testcases_count (replyId : string) (st : State) : nat :=
  length (List.filter is_testcases (pushed_since 0 replyId st)).

(** A step that spawns nothing and clears nothing: the pending replies stay
    the same ones, no extraction flag is dropped, and a [testcases] event is
    pushed for a reply only if the reply is pending and unflagged before the
    step and flagged after it. *)
Definition extraction_step (st st' : State) : Prop :=
  (forall r, is_Some (pendingReplies st' !! r) <-> is_Some (pendingReplies st !! r)) /\
  extractedTestcaseReplies st ⊆ extractedTestcaseReplies st' /\
  forall r,
    testcases_count r st' = testcases_count r st \/
    (testcases_count r st' = S (testcases_count r st) /\
     is_Some (pendingReplies st !! r) /\
     (r ∉ extractedTestcaseReplies st) /\ (r ∈ extractedTestcaseReplies st')).

(** What the extractor asks of a text, the one-shot flag left aside: at least
    100 UTF-16 code units, one of the keywords, a match of the regular expression
    that parses as JSON, and a non-empty array under [testcases]. *)
Definition extraction_conditions (textContent matched : string) (data : JSON)
    (testcases : list JSON) : Prop :=
  (100 <= js_length textContent)%nat /\
  (exists kw, kw ∈ testcase_keywords /\ includes kw textContent = true) /\
  regex_search testcases_regex textContent = Some matched /\
  JSON_parse matched = Some data /\
  jget "testcases" data = Some (JArr testcases) /\
  testcases <> [].

(** The event pushed for the parsed data. *)
Definition testcases_event (data : JSON) (testcases : list JSON) : SSEMessage :=
  SseTestcases (nullish (jget "status" data) (JStr "unknown"))
               (nullish (jget "count" data) (JNum (Z.of_nat (length testcases)) 0))
               testcases.

(** The payload the extractor would push for a text, the one-shot flag left
    aside. *)
Definition testcases_payload (textContent : string) : option SSEMessage :=
  if negb (str_truthy textContent) || (js_length textContent <? 100)%nat then None
  else if negb (existsb (fun kw => includes kw textContent) testcase_keywords) then None
  else
    match regex_search testcases_regex textContent with
    | None => None
    | Some matched =>
        match JSON_parse matched with
        | None => None
        | Some data =>
            match jget "testcases" data with
            | Some (JArr (t :: ts)) =>
                Some (SseTestcases
                        (nullish (jget "status" data) (JStr "unknown"))
                        (nullish (jget "count" data) (JNum (Z.of_nat (length (t :: ts))) 0))
                        (t :: ts))
            | _ => None
            end
        end
    end.

End Manager.

(** ** A concrete platform, for the closed examples *)

(** Modelled from the spec: [agent/tool-display.ts] is not among the
    sources.  The filter is a static configuration, a set [Hidden] of raw
    tool names and a map [Rename] from raw names to display names, with
    [is_hidden(name) := name ∈ Hidden] and
    [display(name) := Rename[name] or name]. *)
Record ToolDisplay := mkToolDisplay {
  Hidden : list string;
  Rename : list (string * string);
}.

Definition is_hidden (cfg : ToolDisplay) (name : string) : bool :=
  bool_decide (name ∈ Hidden cfg).

Definition display (cfg : ToolDisplay) (name : string) : string :=
  match find (fun entry => String.eqb (fst entry) name) (Rename cfg) with
  | Some entry => snd entry
  | None => name
  end.

(** *** A reader for JSON texts

    It follows the JSON grammar: whitespace, the three literals, numbers,
    strings with their escapes, arrays and objects.  A [\u] escape is
    written as the UTF-8 bytes of its code point; the escape of a surrogate
    is refused. *)

(** The UTF-8 bytes of a code point of the basic plane. *)
Definition utf8 (code : nat) : string :=
  if (code <? 128)%nat then String (ascii_of_nat code) EmptyString
  else if (code <? 2048)%nat then
    String (ascii_of_nat (192 + code / 64))
      (String (ascii_of_nat (128 + code mod 64)) EmptyString)
  else
    String (ascii_of_nat (224 + code / 4096))
      (String (ascii_of_nat (128 + (code / 64) mod 64))
         (String (ascii_of_nat (128 + code mod 64)) EmptyString)).

Definition is_ws (c : ascii) : bool :=
  let n := nat_of_ascii c in
  (n =? 32)%nat || (n =? 9)%nat || (n =? 10)%nat || (n =? 13)%nat.

Fixpoint skip_ws (s : string) : string :=
  match s with
  | String c rest => if is_ws c then skip_ws rest else s
  | EmptyString => s
  end.

Definition digit_of (c : ascii) : option Z :=
  let n := nat_of_ascii c in
  if (48 <=? n)%nat && (n <=? 57)%nat then Some (Z.of_nat (n - 48)) else None.

Definition hex_of (c : ascii) : option nat :=
  let n := nat_of_ascii c in
  if (48 <=? n)%nat && (n <=? 57)%nat then Some (n - 48)%nat
  else if (65 <=? n)%nat && (n <=? 70)%nat then Some (n - 55)%nat
  else if (97 <=? n)%nat && (n <=? 102)%nat then Some (n - 87)%nat
  else None.

(** Digits at the head of [s]: their value appended to [acc], how many there
    are, and the rest. *)
Fixpoint read_digits (s : string) (acc : Z) (count : nat) : Z * nat * string :=
  match s with
  | String c rest =>
      match digit_of c with
      | Some d => read_digits rest (acc * 10 + d) (S count)
      | None => (acc, count, s)
      end
  | EmptyString => (acc, count, s)
  end.

Definition read_number (s : string) : option (JSON * string) :=
  let '(negative, s1) :=
    match s with
    | String "-" rest => (true, rest)
    | _ => (false, s)
    end in
  let '(int_part, int_count, s2) := read_digits s1 0 O in
  let leading_zero := match s1 with String "0" _ => true | _ => false end in
  if (int_count =? 0)%nat || (leading_zero && (1 <? int_count)%nat) then None
  else
    let frac :=
      match s2 with
      | String "." rest =>
          let '(m, count, s3) := read_digits rest int_part O in
          if (count =? 0)%nat then None else Some (m, count, s3)
      | _ => Some (int_part, O, s2)
      end in
    match frac with
    | None => None
    | Some (mantissa, frac_count, s3) =>
        let signed := if negative then - mantissa else mantissa in
        let is_e := match s3 with
                    | String "e" rest | String "E" rest => Some rest
                    | _ => None
                    end in
        match is_e with
        | Some s4 =>
            let '(exp_negative, s5) :=
              match s4 with
              | String "-" rest => (true, rest)
              | String "+" rest => (false, rest)
              | _ => (false, s4)
              end in
            let '(exponent, exp_count, s6) := read_digits s5 0 O in
            if (exp_count =? 0)%nat then None
            else Some (JNum signed ((if exp_negative then - exponent else exponent)
                                    - Z.of_nat frac_count), s6)
        | None => Some (JNum signed (- Z.of_nat frac_count), s3)
        end
    end.

(** The characters of a string after its opening quote, up to the closing
    one. *)
Fixpoint read_string (s : string) : option (string * string) :=
  match s with
  | EmptyString => None
  | String c rest =>
      if (nat_of_ascii c =? 34)%nat then Some (EmptyString, rest)
      else if (nat_of_ascii c <? 32)%nat then None
      else if (nat_of_ascii c =? 92)%nat then
        match rest with
        | String e rest' =>
            let simple (ch : nat) :=
              match read_string rest' with
              | Some (body, tail) => Some (String (ascii_of_nat ch) body, tail)
              | None => None
              end in
            match e with
            | "b"%char => simple 8%nat
            | "f"%char => simple 12%nat
            | "n"%char => simple 10%nat
            | "r"%char => simple 13%nat
            | "t"%char => simple 9%nat
            | "/"%char => simple 47%nat
            | "u"%char =>
                match rest' with
                | String h1 (String h2 (String h3 (String h4 rest''))) =>
                    match hex_of h1, hex_of h2, hex_of h3, hex_of h4 with
                    | Some a, Some b, Some c', Some d =>
                        let code := (((a * 16 + b) * 16 + c') * 16 + d)%nat in
                        if (N.of_nat code <? 55296)%N || (57343 <? N.of_nat code)%N then
                          match read_string rest'' with
                          | Some (body, tail) => Some (utf8 code +:+ body, tail)
                          | None => None
                          end
                        else None
                    | _, _, _, _ => None
                    end
                | _ => None
                end
            | _ =>
                if (nat_of_ascii e =? 34)%nat then simple 34%nat
                else if (nat_of_ascii e =? 92)%nat then simple 92%nat
                else None
            end
        | EmptyString => None
        end
      else
        match read_string rest with
        | Some (body, tail) => Some (String c body, tail)
        | None => None
        end
  end.

Definition starts_with_quote (s : string) : option string :=
  match s with
  | String c rest => if (nat_of_ascii c =? 34)%nat then Some rest else None
  | EmptyString => None
  end.

(** [read_value] reads one value, [read_items] the elements of an array
    after the first and [read_fields] the members of an object after the
    first; [fuel] bounds the number of calls. *)
Fixpoint read_value (fuel : nat) (s : string) : option (JSON * string) :=
  match fuel with
  | O => None
  | S fuel' =>
      let read_items :=
        fix read_items (n : nat) (s : string) : option (list JSON * string) :=
          match n with
          | O => None
          | S n' =>
              match skip_ws s with
              | String "]" rest => Some ([], rest)
              | String "," rest =>
                  match read_value fuel' (skip_ws rest) with
                  | Some (v, rest') =>
                      match read_items n' rest' with
                      | Some (vs, tail) => Some (v :: vs, tail)
                      | None => None
                      end
                  | None => None
                  end
              | _ => None
              end
          end in
      let read_field (s : string) : option (string * JSON * string) :=
        match starts_with_quote (skip_ws s) with
        | Some body =>
            match read_string body with
            | Some (key, rest) =>
                match skip_ws rest with
                | String ":" rest' =>
                    match read_value fuel' (skip_ws rest') with
                    | Some (v, tail) => Some (key, v, tail)
                    | None => None
                    end
                | _ => None
                end
            | None => None
            end
        | None => None
        end in
      let read_fields :=
        fix read_fields (n : nat) (s : string) : option (list (string * JSON) * string) :=
          match n with
          | O => None
          | S n' =>
              match skip_ws s with
              | String "}" rest => Some ([], rest)
              | String "," rest =>
                  match read_field rest with
                  | Some (key, v, rest') =>
                      match read_fields n' rest' with
                      | Some (fs, tail) => Some ((key, v) :: fs, tail)
                      | None => None
                      end
                  | None => None
                  end
              | _ => None
              end
          end in
      match s with
      | String "[" rest =>
          match skip_ws rest with
          | String "]" tail => Some (JArr [], tail)
          | _ =>
              match read_value fuel' (skip_ws rest) with
              | Some (v, rest') =>
                  match read_items fuel' rest' with
                  | Some (vs, tail) => Some (JArr (v :: vs), tail)
                  | None => None
                  end
              | None => None
              end
          end
      | String "{" rest =>
          match skip_ws rest with
          | String "}" tail => Some (JObj [], tail)
          | _ =>
              match read_field rest with
              | Some (key, v, rest') =>
                  match read_fields fuel' rest' with
                  | Some (fs, tail) => Some (JObj ((key, v) :: fs), tail)
                  | None => None
                  end
              | None => None
              end
          end
      | String c rest =>
          if (nat_of_ascii c =? 34)%nat then
            match read_string rest with
            | Some (body, tail) => Some (JStr body, tail)
            | None => None
            end
          else if String.prefix "true" s then Some (JBool true, str_drop 4 s)
          else if String.prefix "false" s then Some (JBool false, str_drop 5 s)
          else if String.prefix "null" s then Some (JNull, str_drop 4 s)
          else read_number s
      | EmptyString => None
      end
  end.

Definition json_parse (s : string) : option JSON :=
  match read_value (S (String.length s)) (skip_ws s) with
  | Some (v, rest) =>
      match skip_ws rest with
      | EmptyString => Some v
      | _ => None
      end
  | None => None
  end.

(** The platform of the examples: the filter of scenario S2 of the
    specification, with one renamed tool. *)
Definition demo_display : ToolDisplay :=
  mkToolDisplay ["internal_ping"] [("fetch", "抓取")].

Definition demo_platform : Platform :=
  Build_Platform (is_hidden demo_display) (display demo_display) json_parse.

(** *** Callers of the examples

    The tokens [t1], [t2] and [t3] are those of the users [u1], [u2] and
    [u3]; the account of [u3] is disabled, and Redis holds the session of
    [u2]. *)


(** *** States of the examples *)

Definition demo_params : SpawnAgentParams := mkParams "r1" "c1" "u1" "[]".

(** One agent spawned for reply [r1] of user [u1] in conversation [c1]. *)
Definition demo_spawned : State := spawnAgent demo_params (Some 4242) initial_state.

(** ... and the SSE callback of its stream registered. *)
Definition demo_streaming : State := registerSSECallback "r1" demo_spawned.

Definition demo_stream : Stream := sendMessageStreaming_start "c1" "r1".

(** A text of exactly 100 code units that holds a testcases document. *)
Definition text100 : string :=
  "{" +:+ quoted "testcases" +:+ ":[1]," +:+ quoted "pad" +:+ ":" +:+
  quoted "0123456789012345678901234567890123456789012345678901234567890123456789abcd"
  +:+ "}".

(** A testcases document padded with thirty CJK characters: 116 bytes, but
    56 code units. *)
Definition text_cjk : string :=
  "{" +:+ quoted "testcases" +:+ ":[1]," +:+ quoted "pad" +:+ ":" +:+
  quoted "一二三四五六七八九十一二三四五六七八九十一二三四五六七八九十"
  +:+ "}".

(** The coordinator events of scenario S4. *)
Definition s4_events : list AgentEvent :=
  [ECoordinator "plan_created"
     (JObj [("plan", JObj [("objective", JStr "O");
                           ("phases", JArr [JObj [("phase", JNum 1 0); ("name", JStr "A")];
                                            JObj [("phase", JNum 2 0); ("name", JStr "B")]])])]);
   ECoordinator "phase_started" (JObj [("phase", JNum 1 0)]);
   ECoordinator "phase_completed"
     (JObj [("phase", JNum 1 0); ("evaluation", JObj [("ok", JBool true)])]);
   ECoordinator "phase_started" (JObj [("phase", JNum 2 0)]);
   ECoordinator "phase_completed" (JObj [("phase", JNum 2 0)]);
   ECoordinator "task_completed" (JObj [])].

(** A store holding the plan of scenario S5 after both phases started. *)
Definition demo_plan_db : Db :=
  mkDb [] ∅ {["c1" := mkPlan "O" (JObj []) (Some 1) [] None "running"]}.


(** * Further parts of the server

    The rest of the plan service, the hook of the agent ([hook.service.ts],
    [hook.routes.ts]) with what it hands to the socket manager, and the
    stream on the wire: the records [sse.handler.ts] writes and the parser
    of the frontend that reads them ([sse-parser.js]).  What the hook
    broadcasts is returned beside the state of the manager, as the list of
    the emits it made. *)

(** ** Plan service, continued *)

(** [getPlan]: the row of a conversation, [None] for [null] (the row's own id
    and its timestamps are left out). *)
Definition getPlan (conversationId : string) (d : Db) : option CoordinatorPlan :=
  coordinatorPlan_findUnique conversationId d.

(** [prisma.coordinatorPlan.delete]: the row must exist. *)
Definition coordinatorPlan_delete (conversationId : string) (d : Db) : option Db :=
  match coordinatorPlans d !! conversationId with
  | Some _ => Some (mkDb (messages d) (agentSessions d) (delete conversationId (coordinatorPlans d)))
  | None => None
  end.

(** [deletePlan] *)
Definition deletePlan (conversationId : string) (d : Db) : Db :=
  match coordinatorPlan_delete conversationId d with
  | Some d' => d'
  | None => d
  end.

(** ** Notions used to state properties of the manager *)

(** The conversation a pending reply belongs to. *)
Definition reply_conversation (replyId : string) (st : State) : option string :=
  reply_conversationId <$> pendingReplies st !! replyId.

(** Between two states, the messages pushed are the ones every registered
    callback received, each callback those of its reply, in push order. *)
Definition delivered (st st' : State) : Prop :=
  exists pushed,
    sse_trace st' = sse_trace st ++ pushed /\
    forall r, messageCallbacks st' !! r
              = map (fun q => q ++ map snd (filter (fun entry => fst entry = r) pushed))
                  <$> messageCallbacks st !! r.

(** A step that leaves the conversation index and the conversation of every
    pending reply alone, and starts no process. *)
Definition keeps_index (st st' : State) : Prop :=
  conversationAgents st' = conversationAgents st /\
  (forall r, reply_conversation r st' = reply_conversation r st) /\
  (forall r child, processes st' !! r = Some child -> processes st !! r = Some child).

(** What holds of the index and of the process map in every state the
    manager reaches: no entry of the index is empty or lists a reply twice,
    and a reply that has a process is pending, is listed under its
    conversation, and its child has not been killed.  The child may have
    exited: one that ends before its listener is attached keeps its entry. *)
Definition manager_invariant (st : State) : Prop :=
  (forall c l, conversationAgents st !! c = Some l -> l <> [] /\ NoDup l) /\
  (forall r child,
     processes st !! r = Some child ->
     killed child = false /\
     exists c, reply_conversation r st = Some c /\ r ∈ getConversationAgents c st).

(** The steps that register and remove no SSE callback: the calls made on
    behalf of the agent or of the user, and the passing of time. *)
Definition is_agent_op (op : Op) : bool :=
  match op with
  | OpSpawnAgent _ _ | OpChildExit _ _ | OpHandleAgentMessage _ _ | OpHandleAgentEvents _ _
  | OpHandleAgentFinished _ | OpTerminateAgent _ | OpTerminateConversation _
  | OpSpawnAgentExited _ _ _ | OpTick _ => true
  | OpRegisterSSECallback _ | OpRemoveSSECallbacks _ | OpStreamPoll _ | OpCleanup => false
  end.

(** The text of a legacy message. *)
Definition message_text (msg : AgentMessageData) : string := fst (parse_content (msg_content msg)).

(** A message carries no id the manager merges on: none, or an empty one. *)
Definition has_no_id (msg : AgentMessageData) : Prop :=
  msg_id msg = None \/ msg_id msg = Some EmptyString.

(** The messages a queue holds ahead of the end signal. *)
Fixpoint before_end (queue : list (option SSEMessage)) : list SSEMessage :=
  match queue with
  | Some msg :: rest => msg :: before_end rest
  | _ => []
  end.

(** What [handleAgentMessage] stores for a legacy message it does not merge. *)
Definition stored_message (msg : AgentMessageData) : AgentMessageData :=
  mkMsg (msg_id msg) (msg_role msg) (msg_content msg) (Some (message_text msg)).

(** Whether a queue holds the end signal. *)
Definition has_end (queue : list (option SSEMessage)) : bool :=
  existsb (fun msg => match msg with None => true | Some _ => false end) queue.

#[global] Instance has_no_id_dec (msg : AgentMessageData) : Decision (has_no_id msg) :=
  ltac:(unfold has_no_id; apply _).

(** What the messages stored under one id become when a legacy message with
    that id arrives. *)
Definition merge_message (stored : list AgentMessageData) (msg : AgentMessageData)
  : list AgentMessageData :=
  match stored with
  | [] => [stored_message msg]
  | existing :: rest => accumulate existing (message_text msg) :: rest
  end.

(** What [handleAgentMessage] pushes for a legacy message, the extractor
    left aside: the thinking content, then the text, each if not empty. *)
Definition legacy_pushes (replyId : string) (msg : AgentMessageData)
  : list (string * option SSEMessage) :=
  let '(textContent, thinkingContent) := parse_content (msg_content msg) in
  (if str_truthy thinkingContent then [(replyId, Some (SseThinking thinkingContent))] else [])
  ++ (if str_truthy textContent then [(replyId, Some (SseChunk textContent))] else []).

(** ** Histories of a plan *)

(** The updates the plan service makes on the plan of a conversation. *)
Inductive PlanUpdate :=
| PhaseStarted (phaseIndex : Z)
| PhaseCompleted (phaseIndex : Z) (phaseOutput : option JSON)
| PlanStatus (status0 : string).

Definition run_update (conversationId : string) (d : Db) (u : PlanUpdate) : Db :=
  match u with
  | PhaseStarted phaseIndex => updatePhaseStarted conversationId phaseIndex d
  | PhaseCompleted phaseIndex phaseOutput =>
      updatePhaseCompleted conversationId phaseIndex phaseOutput d
  | PlanStatus status0 => updatePlanStatus conversationId status0 d
  end.

(** The phases a list of updates completes. *)
Definition completed_by (updates : list PlanUpdate) : list Z :=
  omap (fun u => match u with PhaseCompleted p _ => Some p | _ => None end) updates.

(** ** Socket manager ([socket-manager.ts]) *)

(** [chatRoom] *)
Definition chatRoom (conversationId : string) : string := "chat-" +:+ conversationId.

(** The [message] of a [pushReplies] emit: what the hook posted, a batch of
    events or a legacy message. *)
Inductive HookMessage :=
| HookEvents (events : list AgentEvent)
| HookMsg (msg : AgentMessageData).

(** What the socket manager emits on the client namespace; [PushReplies]
    goes to a room, the others to every client. *)
Inductive SocketEmit :=
| PushReplies (room replyId : string) (message : HookMessage)
| PushReplyingState (replying : bool) (conversation_id : option string)
| PushFinished (replyId : string)
| PushCancelled (replyId : string).

(** The broadcasts; [io] tells whether Socket.IO is initialised, and [None]
    is the exception [getSocketIO] throws when it is not. *)
Definition broadcastMessage (io : bool) (conversationId replyId : string) (message : HookMessage)
  : option (list SocketEmit) :=
  if io then Some [PushReplies (chatRoom conversationId) replyId message] else None.

Definition broadcastReplyingState (io : bool) (replying : bool) (conversation_id : option string)
  : option (list SocketEmit) :=
  if io then Some [PushReplyingState replying conversation_id] else None.

Definition broadcastFinished (io : bool) (replyId : string) : option (list SocketEmit) :=
  if io then Some [PushFinished replyId] else None.

Section Hook.
Context `{Platform}.

(** ** Hook service ([hook.service.ts])

    Each function returns the state of the manager and what was emitted;
    an exception of the socket manager is caught and logged. *)

(** [handlePushEvents] *)
Definition handlePushEvents (io : bool) (replyId : string) (events : list AgentEvent) (st : State)
  : State * list SocketEmit :=
  let st := handleAgentEvents replyId events st in
  match getPendingReply replyId st with
  | Some reply =>
      match broadcastMessage io (reply_conversationId reply) replyId (HookEvents events) with
      | Some emits => (st, emits)
      | None => (st, [])
      end
  | None => (st, [])
  end.

(** [handlePushMessage] *)
Definition handlePushMessage (io : bool) (replyId : string) (msg : AgentMessageData) (st : State)
  : State * list SocketEmit :=
  let st := handleAgentMessage replyId msg st in
  match getPendingReply replyId st with
  | Some reply =>
      match broadcastMessage io (reply_conversationId reply) replyId (HookMsg msg) with
      | Some emits => (st, emits)
      | None => (st, [])
      end
  | None => (st, [])
  end.

(** [handlePushFinished]: the reply is read before [handleAgentFinished]. *)
Definition handlePushFinished (io : bool) (replyId : string) (st : State)
  : State * list SocketEmit :=
  let reply := getPendingReply replyId st in
  let st := handleAgentFinished replyId st in
  match reply with
  | Some _ =>
      match broadcastReplyingState io false None with
      | Some emits =>
          match broadcastFinished io replyId with
          | Some emits' => (st, emits ++ emits')
          | None => (st, emits)
          end
      | None => (st, [])
      end
  | None => (st, [])
  end.

(** ** Hook routes ([hook.routes.ts]) *)

(** A body of [POST /trpc/pushMessageToChatAgent] on which a property can
    be read: [hook_replyId] is [None] when the body has no [replyId],
    [hook_events] when [events] is missing or no array, [hook_msg] when
    [msg] is missing.  A request without a body ([request.body] is
    [undefined] or [null]) is [None] where a body is expected. *)
Record HookBody := mkHookBody {
  hook_replyId : option string;
  hook_events : option (list AgentEvent);
  hook_msg : option AgentMessageData;
}.

(** The body of [POST /trpc/pushFinishedSignalToChatAgent]. *)
Record FinishedBody := mkFinishedBody {
  finished_replyId : option string;
}.

(** What a hook route answers: [{ success: true }]; a status set with
    [reply.status] and an error; or what the [catch] of the route returns
    when its [try] threw, which is sent with status 200 and carries
    [success: false] and the text of the exception. *)
Inductive HookReply :=
| HookSuccess
| HookError (statusCode : nat) (error : string)
| HookCaught.

(** The handler of [POST /trpc/pushMessageToChatAgent]; an array of events,
    be it empty, is preferred to a legacy message.  Reading [body.replyId]
    throws when there is no body, inside the [try]. *)
Definition pushMessageToChatAgent (io : bool) (request_body : option HookBody) (st : State)
  : HookReply * State * list SocketEmit :=
  match request_body with
  | None => (HookCaught, st, [])
  | Some body =>
      match hook_replyId body with
      | Some replyId =>
          if str_truthy replyId then
            match hook_events body with
            | Some events =>
                let '(st', emits) := handlePushEvents io replyId events st in
                (HookSuccess, st', emits)
            | None =>
                match hook_msg body with
                | Some msg =>
                    let '(st', emits) := handlePushMessage io replyId msg st in
                    (HookSuccess, st', emits)
                | None => (HookError 400 "Missing events or msg", st, [])
                end
            end
          else (HookError 400 "Missing replyId", st, [])
      | None => (HookError 400 "Missing replyId", st, [])
      end
  end.

(** The handler of [POST /trpc/pushFinishedSignalToChatAgent]. *)
Definition pushFinishedSignalToChatAgent (io : bool) (request_body : option FinishedBody)
    (st : State) : HookReply * State * list SocketEmit :=
  match request_body with
  | None => (HookCaught, st, [])
  | Some body =>
      match finished_replyId body with
      | Some replyId =>
          if str_truthy replyId then
            let '(st', emits) := handlePushFinished io replyId st in
            (HookSuccess, st', emits)
          else (HookError 400 "Missing replyId", st, [])
      | None => (HookError 400 "Missing replyId", st, [])
      end
  end.

(** An event about a tool the display rules hide. *)
Definition is_hidden_tool_event (event : AgentEvent) : bool :=
  match event with
  | EToolCall _ name _ | EToolResult _ name _ _ => isToolHidden name
  | _ => false
  end.

End Hook.

(** ** SSE on the wire ([sse.handler.ts]) *)

Definition newline : string := String (ascii_of_nat 10) EmptyString.

(** [writeSSEEvent]: what is written for an event type and for
    [JSON.stringify(data)]. *)
Definition writeSSEEvent (eventType json : string) : string :=
  "event: " +:+ eventType +:+ newline +:+ "data: " +:+ json +:+ newline +:+ newline.

(** [streamSSE]: everything written for the frames a generator yields (an
    exception of the generator being the [error] frame); [stringify] is
    [JSON.stringify] on the frames. *)
Definition streamSSE (stringify : SSEFrame -> string) (frames : list SSEFrame) : string :=
  join (map (fun f => writeSSEEvent (frame_type f) (stringify f)) frames).

(** ** The parser of the frontend ([sse-parser.js])

    The text the decoder hands to the parser is kept as its UTF-8 bytes.
    The separators and the field names are ASCII, so [split], [startsWith]
    and the [slice] that follows a field name are those of the bytes. *)

Definition is_newline (c : ascii) : bool := Ascii.eqb c (ascii_of_nat 10).

Definition newline_free (s : string) : bool :=
  forallb (fun c => negb (is_newline c)) (list_ascii_of_string s).

(** [s.split('\n\n')]: the separators are found from the left and do not
    overlap. *)
Fixpoint split_blank (s : string) : list string :=
  match s with
  | EmptyString => [EmptyString]
  | String c rest =>
      match rest with
      | String d rest' =>
          if is_newline c && is_newline d then EmptyString :: split_blank rest'
          else cons_head c (split_blank rest)
      | EmptyString => [String c EmptyString]
      end
  end.

(** [s.split('\n')] *)
Fixpoint split_newline (s : string) : list string :=
  match s with
  | EmptyString => [EmptyString]
  | String c rest =>
      if is_newline c then EmptyString :: split_newline rest
      else cons_head c (split_newline rest)
  end.

(** [lines.join('\n')] *)
Fixpoint join_lines (lines : list string) : string :=
  match lines with
  | [] => EmptyString
  | [line] => line
  | line :: rest => line +:+ newline +:+ join_lines rest
  end.

(** The white space and line terminators [trim] removes, by their UTF-8
    bytes: U+0009 to U+000D and U+0020; U+00A0; U+1680, U+2000 to U+200A,
    U+2028, U+2029, U+202F, U+205F, U+3000 and U+FEFF. *)
Definition is_space1 (b : nat) : bool := ((9 <=? b) && (b <=? 13) || (b =? 32))%nat.

Definition is_space2 (b1 b2 : nat) : bool := ((b1 =? 194) && (b2 =? 160))%nat.

Definition is_space3 (b1 b2 b3 : nat) : bool :=
  ((b1 =? 225) && (b2 =? 154) && (b3 =? 128)
   || (b1 =? 226) && (b2 =? 128)
      && ((128 <=? b3) && (b3 <=? 138) || (b3 =? 168) || (b3 =? 169) || (b3 =? 175))
   || (b1 =? 226) && (b2 =? 129) && (b3 =? 159)
   || (b1 =? 227) && (b2 =? 128) && (b3 =? 128)
   || (b1 =? 239) && (b2 =? 187) && (b3 =? 191))%nat.

Fixpoint trimStart (s : string) : string :=
  match s with
  | EmptyString => EmptyString
  | String c1 rest1 =>
      let b1 := nat_of_ascii c1 in
      if is_space1 b1 then trimStart rest1
      else if (b1 <? 194)%nat then s
      else
        match rest1 with
        | String c2 rest2 =>
            let b2 := nat_of_ascii c2 in
            if is_space2 b1 b2 then trimStart rest2
            else
              match rest2 with
              | String c3 rest3 =>
                  if is_space3 b1 b2 (nat_of_ascii c3) then trimStart rest3 else s
              | EmptyString => s
              end
        | EmptyString => s
        end
  end.

(** A text of white space only: [!s.trim()]. *)
Definition blank (s : string) : bool := negb (str_truthy (trimStart s)).

Fixpoint trimEnd (s : string) : string :=
  match s with
  | EmptyString => EmptyString
  | String c rest => if blank s then EmptyString else String c (trimEnd rest)
  end.

Definition trim (s : string) : string := trimEnd (trimStart s).

(** [s.slice(n)] for [n >= 0] *)
Fixpoint slice (n : nat) (s : string) : string :=
  match n, s with
  | O, _ => s
  | S n', String _ rest => slice n' rest
  | S _, EmptyString => EmptyString
  end.

(** What the parser hands to [onEvent]: [data] is the parsed JSON, or the
    raw string when [JSON.parse] throws. *)
Inductive SSEData :=
| DataJSON (value : JSON)
| DataRaw (rawData : string).

Record SSEEvent := mkSSEEvent {
  ev_type : string;
  ev_data : SSEData;
}.

(** The parser: its buffer and, for [onEvent], the events it was called with. *)
Record SSEParser := mkParser {
  buffer : string;
  onEvent : list SSEEvent;
}.

Section Parser.
Context `{Platform}.

Definition parse_data (rawData : string) : SSEData :=
  match JSON_parse rawData with
  | Some value => DataJSON value
  | None => DataRaw rawData
  end.

(** The body of the loop on the lines of a block. *)
Definition parse_line (acc : string * list string) (line : string) : string * list string :=
  let '(eventType, dataLines) := acc in
  if String.prefix "event:" line then (trim (slice 6 line), dataLines)
  else if String.prefix "data:" line then
    let value := slice 5 line in
    (eventType, dataLines ++ [if String.prefix " " value then slice 1 value else value])
  else acc.

(** [_parseEventBlock]: the event [onEvent] is called with, if any. *)
Definition _parseEventBlock (block : string) : option SSEEvent :=
  let '(eventType, dataLines) := fold_left parse_line (split_newline block) ("message", []) in
  match dataLines with
  | [] => None
  | _ => Some (mkSSEEvent eventType (parse_data (join_lines dataLines)))
  end.

(** The loop of [feed] on the complete parts. *)
Definition dispatch (parts : list string) : list SSEEvent :=
  omap (fun part => if str_truthy (trim part) then _parseEventBlock part else None) parts.

(** [feed] *)
Definition feed (chunk : string) (p : SSEParser) : SSEParser :=
  let parts := split_blank (buffer p +:+ chunk) in
  mkParser (List.last parts EmptyString) (onEvent p ++ dispatch (List.removelast parts)).

(** [flush] *)
Definition flush (p : SSEParser) : SSEParser :=
  if str_truthy (trim (buffer p))
  then mkParser EmptyString
                (onEvent p ++ match _parseEventBlock (buffer p) with
                              | Some event => [event]
                              | None => []
                              end)
  else p.

End Parser.

(** The contents of the text events of a batch. *)
Definition text_contents (events : list AgentEvent) : list string :=
  omap (fun event => match event with EText content => Some content | _ => None end) events.

(** ** Data of the further examples *)

(** A text event and the finished signal for reply [r1]. *)
Definition demo_ops : list Op :=
  [OpHandleAgentEvents "r1" [EText "Hello"]; OpHandleAgentFinished "r1"].

(** Two legacy messages with the same id, and one without an id. *)
Definition demo_legacy : list AgentMessageData :=
  [mkMsg (Some "m1") (Some "assistant") (CString "Hel") None;
   mkMsg (Some "m1") (Some "assistant") (CString "lo") None;
   mkMsg None (Some "assistant") (CString "!") None].

(** Coordinator events that arrive without a plan. *)
Definition demo_plan_events : list (string * JSON) :=
  [("phase_started", JObj [("phase", JNum 1 0)]); ("task_completed", JNull)].

Definition demo_updates : list PlanUpdate :=
  [PhaseStarted 1; PhaseCompleted 1 None; PhaseCompleted 1 None; PhaseCompleted 2 None].

(** A request of the hook for a reply nobody spawned. *)
Definition demo_hook_body : HookBody := mkHookBody (Some "ghost") (Some [EText "x"]) None.

(** A call of a hidden tool and its result. *)
Definition demo_hidden_batch : list AgentEvent :=
  [EToolCall "t1" "internal_ping" (JObj []); EToolResult "t1" "internal_ping" "ok" true].

(** Two frames, and their records cut in the middle of a line, between the
    two line breaks that end a record, and in the middle of a key word. *)
Definition demo_frames : list SSEFrame := [FStart "c1" "r1"; FHeartbeat].

Definition demo_stringify (f : SSEFrame) : string := "{}".

Definition demo_chunks : list string :=
  ["event: sta"; "rt" +:+ newline +:+ "data: {}" +:+ newline;
   newline +:+ "event: heart"; "beat" +:+ newline +:+ "data: {}" +:+ newline +:+ newline].

(** * Properties *)

Section Properties.
Context `{Platform}.

(** Case analysis on a [match] whose scrutinee holds no other [match]. *)
Ltac case_inner :=
  match goal with
  | |- context [match ?x with _ => _ end] =>
      lazymatch x with
      | context [match _ with _ => _ end] => fail
      | _ => destruct x eqn:?
      end
  end.

(** ** What each step leaves alone *)

Lemma push_trace replyId msg st :
  sse_trace (pushToSSEQueue replyId msg st) = sse_trace st ++ [(replyId, msg)].
Proof. unfold pushToSSEQueue. destruct (messageCallbacks st !! replyId); reflexivity. Qed.

Lemma push_processes replyId msg st :
  processes (pushToSSEQueue replyId msg st) = processes st.
Proof. unfold pushToSSEQueue. destruct (messageCallbacks st !! replyId); reflexivity. Qed.

Lemma push_conversationAgents replyId msg st :
  conversationAgents (pushToSSEQueue replyId msg st) = conversationAgents st.
Proof. unfold pushToSSEQueue. destruct (messageCallbacks st !! replyId); reflexivity. Qed.

Lemma push_pendingReplies replyId msg st :
  pendingReplies (pushToSSEQueue replyId msg st) = pendingReplies st.
Proof. unfold pushToSSEQueue. destruct (messageCallbacks st !! replyId); reflexivity. Qed.

Lemma push_extracted replyId msg st :
  extractedTestcaseReplies (pushToSSEQueue replyId msg st) = extractedTestcaseReplies st.
Proof. unfold pushToSSEQueue. destruct (messageCallbacks st !! replyId); reflexivity. Qed.

Lemma push_hidden replyId msg st :
  hiddenToolCallIds (pushToSSEQueue replyId msg st) = hiddenToolCallIds st.
Proof. unfold pushToSSEQueue. destruct (messageCallbacks st !! replyId); reflexivity. Qed.

Lemma push_db replyId msg st : db (pushToSSEQueue replyId msg st) = db st.
Proof. unfold pushToSSEQueue. destruct (messageCallbacks st !! replyId); reflexivity. Qed.

Lemma push_os_log replyId msg st : os_log (pushToSSEQueue replyId msg st) = os_log st.
Proof. unfold pushToSSEQueue. destruct (messageCallbacks st !! replyId); reflexivity. Qed.

Lemma push_clock replyId msg st : clock (pushToSSEQueue replyId msg st) = clock st.
Proof. unfold pushToSSEQueue. destruct (messageCallbacks st !! replyId); reflexivity. Qed.

Lemma push_callbacks_other replyId other msg st :
  other <> replyId ->
  messageCallbacks (pushToSSEQueue replyId msg st) !! other = messageCallbacks st !! other.
Proof.
  intros Hne. unfold pushToSSEQueue.
  destruct (messageCallbacks st !! replyId); simpl; [| reflexivity].
  rewrite lookup_insert_ne; congruence.
Qed.

Lemma push_callbacks replyId msg st :
  messageCallbacks (pushToSSEQueue replyId msg st) !! replyId
  = map (fun q => q ++ [msg]) <$> messageCallbacks st !! replyId.
Proof.
  unfold pushToSSEQueue.
  destruct (messageCallbacks st !! replyId) eqn:E; simpl.
  - rewrite lookup_insert_eq. reflexivity.
  - rewrite E. reflexivity.
Qed.

(** With no callback registered a push changes the trace only. *)
Lemma push_unsubscribed replyId msg st :
  messageCallbacks st !! replyId = None ->
  messageCallbacks (pushToSSEQueue replyId msg st) = messageCallbacks st.
Proof. intros E. unfold pushToSSEQueue. rewrite E. reflexivity. Qed.

Lemma extractAndPushTestcases_unfold replyId textContent st :
  extractAndPushTestcases replyId textContent st =
  if bool_decide (replyId ∈ extractedTestcaseReplies st) then st
  else match testcases_payload textContent with
       | Some m => pushToSSEQueue replyId (Some m)
                     (set_extractedTestcaseReplies (fun s => {[replyId]} ∪ s) st)
       | None => st
       end.
Proof.
  unfold extractAndPushTestcases, testcases_payload.
  case_bool_decide; [reflexivity |].
  destruct (negb (str_truthy textContent) || (js_length textContent <? 100)%nat);
    [reflexivity |].
  destruct (negb (existsb _ testcase_keywords)); [reflexivity |].
  destruct (regex_search testcases_regex textContent); [| reflexivity].
  destruct (JSON_parse s) as [data |]; [| reflexivity].
  destruct (jget "testcases" data) as [[| | | | [| t ts] |] |]; reflexivity.
Qed.

Lemma testcases_payload_is_testcases textContent m :
  testcases_payload textContent = Some m -> is_testcases (Some m) = true.
Proof.
  unfold testcases_payload. repeat (case_inner; try discriminate).
  intros [= <-]. reflexivity.
Qed.

Ltac extract_cases replyId textContent st :=
  rewrite (extractAndPushTestcases_unfold replyId textContent st);
  case_bool_decide; [| destruct (testcases_payload textContent)].

Lemma extract_processes replyId textContent st :
  processes (extractAndPushTestcases replyId textContent st) = processes st.
Proof. extract_cases replyId textContent st; rewrite ?push_processes; reflexivity. Qed.

Lemma extract_conversationAgents replyId textContent st :
  conversationAgents (extractAndPushTestcases replyId textContent st) = conversationAgents st.
Proof. extract_cases replyId textContent st; rewrite ?push_conversationAgents; reflexivity. Qed.

Lemma extract_pendingReplies replyId textContent st :
  pendingReplies (extractAndPushTestcases replyId textContent st) = pendingReplies st.
Proof. extract_cases replyId textContent st; rewrite ?push_pendingReplies; reflexivity. Qed.

Lemma extract_hidden replyId textContent st :
  hiddenToolCallIds (extractAndPushTestcases replyId textContent st) = hiddenToolCallIds st.
Proof. extract_cases replyId textContent st; rewrite ?push_hidden; reflexivity. Qed.

Lemma extract_db replyId textContent st :
  db (extractAndPushTestcases replyId textContent st) = db st.
Proof. extract_cases replyId textContent st; rewrite ?push_db; reflexivity. Qed.

Lemma extract_os_log replyId textContent st :
  os_log (extractAndPushTestcases replyId textContent st) = os_log st.
Proof. extract_cases replyId textContent st; rewrite ?push_os_log; reflexivity. Qed.

Lemma update_reply_lookup replyId other f st :
  pendingReplies (update_reply replyId f st) !! other
  = if decide (replyId = other) then f <$> pendingReplies st !! replyId
    else pendingReplies st !! other.
Proof.
  unfold update_reply. simpl.
  destruct (pendingReplies st !! replyId) eqn:E.
  - destruct (decide (replyId = other)) as [<- | Hne].
    + rewrite lookup_insert_eq. reflexivity.
    + rewrite lookup_insert_ne; [reflexivity | assumption].
  - destruct (decide (replyId = other)) as [<- | Hne]; [rewrite E |]; reflexivity.
Qed.

Lemma coordinator_pendingReplies replyId eventType data st :
  pendingReplies (handleCoordinatorEvent replyId eventType data st) = pendingReplies st.
Proof. unfold handleCoordinatorEvent. repeat (case_inner; simpl); reflexivity. Qed.

Lemma coordinator_hidden replyId eventType data st :
  hiddenToolCallIds (handleCoordinatorEvent replyId eventType data st) = hiddenToolCallIds st.
Proof. unfold handleCoordinatorEvent. repeat (case_inner; simpl); reflexivity. Qed.

Lemma coordinator_extracted replyId eventType data st :
  extractedTestcaseReplies (handleCoordinatorEvent replyId eventType data st)
  = extractedTestcaseReplies st.
Proof. unfold handleCoordinatorEvent. repeat (case_inner; simpl); reflexivity. Qed.

Lemma coordinator_trace replyId eventType data st :
  sse_trace (handleCoordinatorEvent replyId eventType data st) = sse_trace st.
Proof. unfold handleCoordinatorEvent. repeat (case_inner; simpl); reflexivity. Qed.

Lemma coordinator_callbacks replyId eventType data st :
  messageCallbacks (handleCoordinatorEvent replyId eventType data st) = messageCallbacks st.
Proof. unfold handleCoordinatorEvent. repeat (case_inner; simpl); reflexivity. Qed.

Lemma coordinator_processes replyId eventType data st :
  processes (handleCoordinatorEvent replyId eventType data st) = processes st.
Proof. unfold handleCoordinatorEvent. repeat (case_inner; simpl); reflexivity. Qed.

Lemma coordinator_os_log replyId eventType data st :
  os_log (handleCoordinatorEvent replyId eventType data st) = os_log st.
Proof. unfold handleCoordinatorEvent. repeat (case_inner; simpl); reflexivity. Qed.

Lemma coordinator_messages replyId eventType data st :
  messages (db (handleCoordinatorEvent replyId eventType data st)) = messages (db st).
Proof.
  unfold handleCoordinatorEvent, upsertPlan, coordinatorPlan_upsert, updatePhaseStarted,
    updatePhaseCompleted, updatePlanStatus, coordinatorPlan_update, coordinatorPlan_findUnique.
  repeat (case_inner; simpl); simplify_eq; reflexivity.
Qed.

Lemma coordinator_agentSessions replyId eventType data st :
  agentSessions (db (handleCoordinatorEvent replyId eventType data st)) = agentSessions (db st).
Proof.
  unfold handleCoordinatorEvent, upsertPlan, coordinatorPlan_upsert, updatePhaseStarted,
    updatePhaseCompleted, updatePlanStatus, coordinatorPlan_update, coordinatorPlan_findUnique.
  repeat (case_inner; simpl); simplify_eq; reflexivity.
Qed.

(** ** Pending replies along a batch *)

(** A batch neither adds nor removes a pending reply. *)
Lemma handleAgentEvent_pending replyId event st other :
  is_Some (pendingReplies (handleAgentEvent replyId event st) !! other)
  <-> is_Some (pendingReplies st !! other).
Proof.
  destruct event; cbn [handleAgentEvent].
  - rewrite extract_pendingReplies, push_pendingReplies, update_reply_lookup.
    destruct (decide (replyId = other)) as [<- |]; [| reflexivity].
    rewrite fmap_is_Some. reflexivity.
  - rewrite push_pendingReplies. reflexivity.
  - destruct (isToolHidden name); [reflexivity |].
    rewrite push_pendingReplies. reflexivity.
  - destruct (isToolHidden name || bool_decide (id ∈ hiddenToolCallIds st)); [reflexivity |].
    rewrite push_pendingReplies. reflexivity.
  - rewrite push_pendingReplies, coordinator_pendingReplies. reflexivity.
  - reflexivity.
Qed.

Lemma fold_handleAgentEvent_pending replyId events st other :
  is_Some (pendingReplies
             (fold_left (fun s event => handleAgentEvent replyId event s) events st) !! other)
  <-> is_Some (pendingReplies st !! other).
Proof.
  revert st. induction events as [| e events IH]; intros st; simpl; [reflexivity |].
  rewrite IH. apply handleAgentEvent_pending.
Qed.

Lemma handleAgentEvents_fold replyId events st :
  is_Some (pendingReplies st !! replyId) ->
  handleAgentEvents replyId events st
  = fold_left (fun s event => handleAgentEvent replyId event s) events st.
Proof. intros [reply E]. unfold handleAgentEvents. rewrite E. reflexivity. Qed.

Lemma handleAgentEvents_pending replyId events st other :
  is_Some (pendingReplies (handleAgentEvents replyId events st) !! other)
  <-> is_Some (pendingReplies st !! other).
Proof.
  unfold handleAgentEvents.
  destruct (pendingReplies st !! replyId); [| reflexivity].
  apply fold_handleAgentEvent_pending.
Qed.

(** Handling a batch is handling its parts in turn. *)
Lemma handleAgentEvents_app replyId events1 events2 st :
  handleAgentEvents replyId (events1 ++ events2) st
  = handleAgentEvents replyId events2 (handleAgentEvents replyId events1 st).
Proof.
  destruct (pendingReplies st !! replyId) as [reply |] eqn:E.
  - assert (is_Some (pendingReplies st !! replyId)) as Hs by (rewrite E; eauto).
    rewrite !(handleAgentEvents_fold _ _ st) by assumption.
    rewrite handleAgentEvents_fold by (apply fold_handleAgentEvent_pending; assumption).
    apply fold_left_app.
  - unfold handleAgentEvents. rewrite E, E. reflexivity.
Qed.

Lemma handleAgentEvents_missing replyId events st :
  pendingReplies st !! replyId = None -> handleAgentEvents replyId events st = st.
Proof. intros E. unfold handleAgentEvents. rewrite E. reflexivity. Qed.

Lemma handleAgentEvents_one replyId event st :
  is_Some (pendingReplies st !! replyId) ->
  handleAgentEvents replyId [event] st = handleAgentEvent replyId event st.
Proof. intros Hs. rewrite handleAgentEvents_fold by assumption. reflexivity. Qed.

(** ** The hidden-tool filter *)

Lemma handleAgentEvent_hidden_mono replyId event st :
  hiddenToolCallIds st ⊆ hiddenToolCallIds (handleAgentEvent replyId event st).
Proof.
  destruct event; cbn [handleAgentEvent].
  - rewrite extract_hidden, push_hidden. reflexivity.
  - rewrite push_hidden. reflexivity.
  - destruct (isToolHidden name); [simpl; set_solver |].
    rewrite push_hidden. reflexivity.
  - destruct (isToolHidden name || bool_decide (id ∈ hiddenToolCallIds st)); [reflexivity |].
    rewrite push_hidden. reflexivity.
  - rewrite push_hidden, coordinator_hidden. reflexivity.
  - reflexivity.
Qed.

Lemma handleAgentEvents_hidden_mono replyId events st :
  hiddenToolCallIds st ⊆ hiddenToolCallIds (handleAgentEvents replyId events st).
Proof.
  unfold handleAgentEvents. destruct (pendingReplies st !! replyId); [| reflexivity].
  revert st. induction events as [| e events IH]; intros st; simpl; [reflexivity |].
  etransitivity; [apply (handleAgentEvent_hidden_mono replyId e) | apply IH].
Qed.

(** A result whose name is hidden or whose id is in the set changes nothing. *)
Lemma tool_result_dropped replyId id name output success st :
  isToolHidden name = true \/ id ∈ hiddenToolCallIds st ->
  handleAgentEvent replyId (EToolResult id name output success) st = st.
Proof.
  intros Hd. cbn [handleAgentEvent].
  destruct (isToolHidden name); [reflexivity |].
  destruct Hd as [Hd | Hd]; [discriminate |].
  rewrite bool_decide_eq_true_2 by assumption. reflexivity.
Qed.

(** C1. Within a batch handled for a pending reply: a [tool_call] whose raw
    name is hidden only adds its id to the hidden-id set (nothing is pushed,
    no callback is called), the id is still in the set when the batch ends,
    and a [tool_result] that follows with that id is dropped; a [tool_call]
    that is not hidden is pushed once with its display name, which every
    callback registered for the reply receives at the end of its queue,
    and no other callback receives anything; a [tool_result] is dropped
    exactly when its name is hidden or its id is in the set, and is
    otherwise pushed once with its display name and received likewise. *)
Theorem handleAgentEvents_tool_filter replyId (before : list AgentEvent) st :
  is_Some (pendingReplies st !! replyId) ->
  let s1 := handleAgentEvents replyId before st in
  (forall id name input after, isToolHidden name = true ->
     let s2 := handleAgentEvents replyId (before ++ [EToolCall id name input]) st in
     s2 = set_hiddenToolCallIds (fun s => {[id]} ∪ s) s1 /\
     id ∈ hiddenToolCallIds s2 /\
     sse_trace s2 = sse_trace s1 /\ messageCallbacks s2 = messageCallbacks s1 /\
     id ∈ hiddenToolCallIds
            (handleAgentEvents replyId (before ++ EToolCall id name input :: after) st) /\
     forall name' output success,
       handleAgentEvents replyId
         ((before ++ EToolCall id name input :: after) ++ [EToolResult id name' output success])
         st
       = handleAgentEvents replyId (before ++ EToolCall id name input :: after) st) /\
  (forall id name input, isToolHidden name = false ->
     let s2 := handleAgentEvents replyId (before ++ [EToolCall id name input]) st in
     let shown := Some (SseToolCall id (getToolDisplayName name) input) in
     s2 = pushToSSEQueue replyId shown s1 /\
     sse_trace s2 = sse_trace s1 ++ [(replyId, shown)] /\
     messageCallbacks s2 !! replyId
     = map (fun queue => queue ++ [shown]) <$> messageCallbacks s1 !! replyId /\
     (forall other, other <> replyId ->
                    messageCallbacks s2 !! other = messageCallbacks s1 !! other) /\
     hiddenToolCallIds s2 = hiddenToolCallIds s1) /\
  (forall id name output success,
     let s2 := handleAgentEvents replyId (before ++ [EToolResult id name output success]) st in
     let shown := Some (SseToolResult id (getToolDisplayName name) output success) in
     (sse_trace s2 = sse_trace s1 <-> isToolHidden name = true \/ id ∈ hiddenToolCallIds s1) /\
     (isToolHidden name = true \/ id ∈ hiddenToolCallIds s1 -> s2 = s1) /\
     (isToolHidden name = false -> id ∉ hiddenToolCallIds s1 ->
      s2 = pushToSSEQueue replyId shown s1 /\
      sse_trace s2 = sse_trace s1 ++ [(replyId, shown)] /\
      messageCallbacks s2 !! replyId
      = map (fun queue => queue ++ [shown]) <$> messageCallbacks s1 !! replyId /\
      (forall other, other <> replyId ->
                     messageCallbacks s2 !! other = messageCallbacks s1 !! other))).
Proof.
  intros Hs s1.
  assert (is_Some (pendingReplies s1 !! replyId)) as Hs1
    by (apply handleAgentEvents_pending; assumption).
  assert (forall e, handleAgentEvents replyId (before ++ [e]) st = handleAgentEvent replyId e s1)
    as Hstep.
  { intros e. rewrite handleAgentEvents_app. apply handleAgentEvents_one. assumption. }
  split; [| split].
  - intros id name input after Hh s2. subst s2. rewrite Hstep.
    assert (handleAgentEvent replyId (EToolCall id name input) s1
            = set_hiddenToolCallIds (fun s => {[id]} ∪ s) s1) as Hcall.
    { cbn [handleAgentEvent]. rewrite Hh. reflexivity. }
    rewrite Hcall.
    assert (id ∈ hiddenToolCallIds
                   (handleAgentEvents replyId (before ++ EToolCall id name input :: after) st))
      as Hkept.
    { replace (before ++ EToolCall id name input :: after)
        with ((before ++ [EToolCall id name input]) ++ after)
        by (rewrite <- app_assoc; reflexivity).
      rewrite handleAgentEvents_app, Hstep, Hcall.
      apply handleAgentEvents_hidden_mono. simpl. set_solver. }
    repeat split.
    + simpl. set_solver.
    + assumption.
    + intros name' output success.
      rewrite handleAgentEvents_app, handleAgentEvents_one
        by (apply handleAgentEvents_pending; assumption).
      apply tool_result_dropped. right. assumption.
  - intros id name input Hh s2 shown. subst s2.
    assert (handleAgentEvents replyId (before ++ [EToolCall id name input]) st
            = pushToSSEQueue replyId shown s1) as ->
      by (rewrite Hstep; cbn [handleAgentEvent]; rewrite Hh; reflexivity).
    split; [reflexivity |]. split; [apply push_trace |]. split; [apply push_callbacks |].
    split; [intros other Hne; apply push_callbacks_other; assumption | apply push_hidden].
  - intros id name output success s2 shown. subst s2. rewrite Hstep.
    split; [| split].
    + split.
      * intros Ht. cbn [handleAgentEvent] in Ht.
        destruct (isToolHidden name); [left; reflexivity |].
        case_bool_decide; [right; assumption |].
        cbn [orb] in Ht. rewrite push_trace in Ht.
        apply (f_equal (@length _)) in Ht. rewrite length_app in Ht. simpl in Ht. lia.
      * intros Hd. rewrite tool_result_dropped by assumption. reflexivity.
    + apply tool_result_dropped.
    + intros Hh Hid.
      assert (handleAgentEvent replyId (EToolResult id name output success) s1
              = pushToSSEQueue replyId shown s1) as ->
        by (cbn [handleAgentEvent]; rewrite Hh;
            rewrite bool_decide_eq_false_2 by assumption; reflexivity).
      split; [reflexivity |]. split; [apply push_trace |]. split; [apply push_callbacks |].
      intros other Hne. apply push_callbacks_other. assumption.
Qed.

(** ** Text accumulation *)

Lemma append_cons c (s1 s2 : string) : String c s1 +:+ s2 = String c (s1 +:+ s2).
Proof. reflexivity. Qed.

Lemma append_nil_r (s : string) : s +:+ EmptyString = s.
Proof.
  induction s as [| c s IH]; [reflexivity |]. rewrite append_cons, IH. reflexivity.
Qed.

Lemma append_assoc (s1 s2 s3 : string) : (s1 +:+ s2) +:+ s3 = s1 +:+ (s2 +:+ s3).
Proof.
  induction s1 as [| c s1 IH]; [reflexivity |]. rewrite !append_cons, IH. reflexivity.
Qed.

Lemma join_app (l1 l2 : list string) : join (l1 ++ l2) = join l1 +:+ join l2.
Proof.
  induction l1 as [| s l1 IH]; [reflexivity |].
  simpl. rewrite IH, append_assoc. reflexivity.
Qed.

Lemma handleAgentEvent_messages replyId event st :
  messages (db (handleAgentEvent replyId event st)) = messages (db st).
Proof.
  destruct event; cbn [handleAgentEvent].
  - rewrite extract_db, push_db. reflexivity.
  - rewrite push_db. reflexivity.
  - destruct (isToolHidden name); [reflexivity |]. rewrite push_db. reflexivity.
  - destruct (isToolHidden name || bool_decide (id ∈ hiddenToolCallIds st)); [reflexivity |].
    rewrite push_db. reflexivity.
  - rewrite push_db. apply coordinator_messages.
  - reflexivity.
Qed.

(** No batch writes to the [message] table. *)
Lemma handleAgentEvents_messages replyId events st :
  messages (db (handleAgentEvents replyId events st)) = messages (db st).
Proof.
  unfold handleAgentEvents. destruct (pendingReplies st !! replyId); [| reflexivity].
  revert st. induction events as [| e events IH]; intros st; simpl; [reflexivity |].
  rewrite IH. apply handleAgentEvent_messages.
Qed.

Lemma text_event_reply replyId content st :
  pendingReplies (handleAgentEvent replyId (EText content) st) !! replyId
  = append_text content <$> pendingReplies st !! replyId.
Proof.
  cbn [handleAgentEvent].
  rewrite extract_pendingReplies, push_pendingReplies, update_reply_lookup.
  rewrite decide_True by reflexivity. reflexivity.
Qed.

(** A text event appends its content to the accumulated text, whatever the
    flags of the reply are. *)
Lemma text_event_accumulates replyId content st :
  is_Some (pendingReplies st !! replyId) ->
  accumulated_text replyId (handleAgentEvent replyId (EText content) st)
  = accumulated_text replyId st +:+ content.
Proof.
  intros [reply E]. unfold accumulated_text.
  rewrite text_event_reply, E. simpl. unfold append_text.
  destruct (reply_messages reply) as [| existing rest]; reflexivity.
Qed.

Lemma text_events_accumulate replyId contents st :
  is_Some (pendingReplies st !! replyId) ->
  accumulated_text replyId (handleAgentEvents replyId (map EText contents) st)
  = accumulated_text replyId st +:+ join contents.
Proof.
  revert st. induction contents as [| c contents IH]; intros st Hs.
  - simpl. rewrite append_nil_r. unfold handleAgentEvents.
    destruct (pendingReplies st !! replyId); reflexivity.
  - change (map EText (c :: contents)) with ([EText c] ++ map EText contents).
    rewrite handleAgentEvents_app, handleAgentEvents_one by assumption.
    rewrite IH by (apply handleAgentEvent_pending; assumption).
    rewrite text_event_accumulates by assumption.
    simpl. apply append_assoc.
Qed.

Lemma append_text_messages content (before : list string) reply :
  reply_messages reply = text_messages before ->
  reply_messages (append_text content reply) = text_messages (before ++ [content]).
Proof.
  intros E. unfold append_text. rewrite E.
  destruct before as [| b before]; simpl.
  - rewrite append_nil_r. reflexivity.
  - unfold accumulate. simpl.
    rewrite join_app. simpl. rewrite append_nil_r, !append_assoc. reflexivity.
Qed.

Lemma text_events_messages replyId contents :
  forall (before : list string) st reply,
    pendingReplies st !! replyId = Some reply ->
    reply_messages reply = text_messages before ->
    exists reply',
      pendingReplies (handleAgentEvents replyId (map EText contents) st) !! replyId = Some reply' /\
      reply_messages reply' = text_messages (before ++ contents) /\
      reply_conversationId reply' = reply_conversationId reply.
Proof.
  induction contents as [| c contents IH]; intros before st reply E Hm.
  - exists reply. unfold handleAgentEvents. rewrite E. simpl.
    rewrite app_nil_r. auto.
  - change (map EText (c :: contents)) with ([EText c] ++ map EText contents).
    rewrite handleAgentEvents_app, handleAgentEvents_one by (rewrite E; eauto).
    destruct (IH (before ++ [c]) (handleAgentEvent replyId (EText c) st) (append_text c reply))
      as (reply' & E' & Hm' & Hc').
    + rewrite text_event_reply, E. reflexivity.
    + apply append_text_messages. assumption.
    + exists reply'. rewrite <- app_assoc in Hm'. split; [assumption |]. split; [assumption |].
      rewrite Hc'. unfold append_text.
      destruct (reply_messages reply); reflexivity.
Qed.

Lemma text_event_trace replyId content st :
  exists extra,
    sse_trace (handleAgentEvent replyId (EText content) st)
    = sse_trace st ++ (replyId, Some (SseChunk content)) :: extra /\
    Forall (fun entry => fst entry = replyId /\ is_testcases (snd entry) = true) extra /\
    (length extra <= 1)%nat.
Proof.
  cbn [handleAgentEvent].
  rewrite extractAndPushTestcases_unfold.
  case_bool_decide.
  - exists []. rewrite push_trace. auto.
  - destruct (testcases_payload _) as [m |] eqn:Ep.
    + exists [(replyId, Some m)]. rewrite push_trace.
      cbn [sse_trace set_extractedTestcaseReplies]. rewrite push_trace, <- app_assoc.
      split; [reflexivity |]. split; [| simpl; lia].
      constructor; [| constructor]. split; [reflexivity |].
      eapply testcases_payload_is_testcases. eassumption.
    + exists []. rewrite push_trace. auto.
Qed.

Lemma text_events_trace replyId contents st :
  is_Some (pendingReplies st !! replyId) ->
  exists pushed,
    sse_trace (handleAgentEvents replyId (map EText contents) st) = sse_trace st ++ pushed /\
    Forall (fun entry => fst entry = replyId) pushed /\
    List.filter is_chunk (map snd pushed) = map (fun c => Some (SseChunk c)) contents.
Proof.
  revert st. induction contents as [| c contents IH]; intros st Hs.
  - exists []. rewrite handleAgentEvents_fold by assumption. simpl.
    rewrite app_nil_r. auto.
  - change (map EText (c :: contents)) with ([EText c] ++ map EText contents).
    rewrite handleAgentEvents_app, handleAgentEvents_one by assumption.
    destruct (text_event_trace replyId c st) as (extra & Ht & Hextra & _).
    destruct (IH (handleAgentEvent replyId (EText c) st)) as (pushed & Ht' & Hall & Hf).
    { apply handleAgentEvent_pending. assumption. }
    exists ((replyId, Some (SseChunk c)) :: extra ++ pushed).
    rewrite Ht', Ht, <- app_assoc. simpl. split; [reflexivity |]. split.
    + constructor; [reflexivity |]. apply Forall_app. split; [| assumption].
      eapply Forall_impl; [eassumption |]. intros ? [? _]. assumption.
    + f_equal. rewrite map_app, List.filter_app, Hf.
      replace (List.filter is_chunk (map snd extra)) with (@nil (option SSEMessage));
        [reflexivity |].
      clear -Hextra. induction Hextra as [| [r m] extra [_ Hm] _ IHe]; [reflexivity |].
      simpl in *. destruct m as [[] |]; try discriminate. assumption.
Qed.

Lemma pushed_since_app replyId st st' pushed :
  sse_trace st' = sse_trace st ++ pushed ->
  Forall (fun entry => fst entry = replyId) pushed ->
  pushed_since (length (sse_trace st)) replyId st' = map snd pushed.
Proof.
  intros Ht Hall. unfold pushed_since.
  rewrite Ht, drop_app_length.
  replace (filter (fun entry => fst entry = replyId) pushed) with pushed; [reflexivity |].
  clear Ht. induction Hall as [| entry pushed Hr _ IH]; [reflexivity |].
  rewrite filter_cons_True by assumption. rewrite <- IH. reflexivity.
Qed.

(** ** The finished signal *)

Lemma set_session_status_messages replyId s st :
  messages (db (set_session_status replyId s st)) = messages (db st).
Proof.
  unfold set_session_status, agentSession_update.
  destruct (agentSessions (db st) !! replyId); reflexivity.
Qed.

Lemma set_session_status_trace replyId s st :
  sse_trace (set_session_status replyId s st) = sse_trace st.
Proof.
  unfold set_session_status. destruct (agentSession_update _ _ _); reflexivity.
Qed.

Lemma set_session_status_lookup replyId s st :
  agentSessions (db (set_session_status replyId s st)) !! replyId
  = (fun row => mkSession (as_conversationId row) (as_userId row) s (as_pid row)
                          (Some (clock st)))
      <$> agentSessions (db st) !! replyId.
Proof.
  unfold set_session_status, agentSession_update.
  destruct (agentSessions (db st) !! replyId) eqn:E; simpl.
  - rewrite lookup_insert_eq. reflexivity.
  - rewrite E. reflexivity.
Qed.

Lemma handleAgentFinished_messages replyId reply st :
  pendingReplies st !! replyId = Some reply ->
  messages (db (handleAgentFinished replyId st))
  = messages (saveMessages (reply_conversationId reply) (reply_messages reply) (db st)).
Proof.
  intros E. unfold handleAgentFinished. rewrite E.
  match goal with
  | |- context [match processes ?s !! replyId with _ => _ end] =>
      destruct (processes s !! replyId)
  end; simpl; rewrite set_session_status_messages, push_db; reflexivity.
Qed.

Lemma handleAgentFinished_trace replyId st :
  sse_trace (handleAgentFinished replyId st) = sse_trace st ++ [(replyId, None)].
Proof.
  unfold handleAgentFinished.
  match goal with
  | |- context [match processes ?s !! replyId with _ => _ end] =>
      destruct (processes s !! replyId)
  end; simpl; rewrite set_session_status_trace, push_trace;
    destruct (pendingReplies st !! replyId); reflexivity.
Qed.

Lemma saveMessages_agentSessions conversationId msgs d :
  agentSessions (saveMessages conversationId msgs d) = agentSessions d.
Proof.
  unfold saveMessages. revert d.
  induction msgs as [| m ms IH]; intros d; simpl; [reflexivity |].
  rewrite IH. unfold saveMessage, message_create.
  repeat (case_inner; simpl); simplify_eq; reflexivity.
Qed.

Lemma saveMessages_coordinatorPlans conversationId msgs d :
  coordinatorPlans (saveMessages conversationId msgs d) = coordinatorPlans d.
Proof.
  unfold saveMessages. revert d.
  induction msgs as [| m ms IH]; intros d; simpl; [reflexivity |].
  rewrite IH. unfold saveMessage, message_create.
  repeat (case_inner; simpl); simplify_eq; reflexivity.
Qed.

Lemma handleAgentFinished_session replyId st :
  agentSessions (db (handleAgentFinished replyId st)) !! replyId
  = (fun row => mkSession (as_conversationId row) (as_userId row) COMPLETED (as_pid row)
                          (Some (clock st)))
      <$> agentSessions (db st) !! replyId.
Proof.
  unfold handleAgentFinished.
  match goal with
  | |- context [match processes ?s !! replyId with _ => _ end] =>
      destruct (processes s !! replyId)
  end; simpl; rewrite set_session_status_lookup, push_db, push_clock;
    destruct (pendingReplies st !! replyId); simpl;
    rewrite ?saveMessages_agentSessions; reflexivity.
Qed.

(** A message whose id is already a key of the table is not stored again,
    and saving it raises nothing. *)
Lemma saveMessage_duplicate conversationId msg d i :
  msg_id msg = Some i -> i <> EmptyString -> id_taken i (messages d) = true ->
  saveMessage conversationId msg d = d.
Proof.
  intros Hi Hne Ht. unfold saveMessage, message_create. rewrite Hi.
  destruct (str_truthy (default EmptyString (_accumulated_content msg))); [| reflexivity].
  destruct (str_truthy i) eqn:Ei; simpl.
  - rewrite Ht. reflexivity.
  - unfold str_truthy in Ei. apply negb_false_iff, String.eqb_eq in Ei. contradiction.
Qed.

Lemma text_batches_flatten replyId (batches : list (list string)) st :
  fold_left (fun s batch => handleAgentEvents replyId (map EText batch) s) batches st
  = handleAgentEvents replyId (map EText (concat batches)) st.
Proof.
  revert st. induction batches as [| b batches IH]; intros st; simpl.
  - unfold handleAgentEvents. destruct (pendingReplies st !! replyId); reflexivity.
  - rewrite IH, map_app, handleAgentEvents_app. reflexivity.
Qed.

Lemma saveMessages_text conversationId contents d :
  messages (saveMessages conversationId (text_messages contents) d)
  = messages d ++
    (if str_truthy (join contents)
     then [mkRow None conversationId "assistant" (join contents)] else []).
Proof.
  destruct contents as [| c contents].
  - simpl. rewrite app_nil_r. reflexivity.
  - unfold text_messages, saveMessages, saveMessage. simpl.
    destruct (str_truthy _); simpl; [reflexivity |].
    rewrite app_nil_r. reflexivity.
Qed.

(** C2 (amended). For a pending reply that holds no message yet, text
    events delivered in any number of batches leave as accumulated text the
    concatenation of their contents in arrival order, and each pushes one
    chunk carrying its own content.  The finished signal then pushes the end
    signal and stores that text as one assistant message when it is not
    empty; when it is empty no message is stored.  A message whose id is
    already a key of the table is skipped without an error: the handler
    completes, pushes the end signal and marks the session completed. *)
Theorem text_stream_flush replyId reply (batches : list (list string)) st :
  pendingReplies st !! replyId = Some reply ->
  reply_messages reply = [] ->
  let contents := concat batches in
  let st1 := fold_left (fun s batch => handleAgentEvents replyId (map EText batch) s)
                       batches st in
  let st2 := handleAgentFinished replyId st1 in
  accumulated_text replyId st1 = join contents /\
  List.filter is_chunk (pushed_since (length (sse_trace st)) replyId st1)
  = map (fun c => Some (SseChunk c)) contents /\
  messages (db st2)
  = messages (db st) ++
    (if str_truthy (join contents)
     then [mkRow None (reply_conversationId reply) "assistant" (join contents)] else []) /\
  sse_trace st2 = sse_trace st1 ++ [(replyId, None)] /\
  (forall st' reply',
     pendingReplies st' !! replyId = Some reply' ->
     (forall m, m ∈ reply_messages reply' ->
        exists i, msg_id m = Some i /\ i <> EmptyString /\
                  id_taken i (messages (db st')) = true) ->
     messages (db (handleAgentFinished replyId st')) = messages (db st') /\
     sse_trace (handleAgentFinished replyId st') = sse_trace st' ++ [(replyId, None)] /\
     agentSessions (db (handleAgentFinished replyId st')) !! replyId
     = (fun row => mkSession (as_conversationId row) (as_userId row) COMPLETED (as_pid row)
                             (Some (clock st')))
         <$> agentSessions (db st') !! replyId).
Proof.
  intros E Hm contents st1 st2.
  assert (is_Some (pendingReplies st !! replyId)) as Hs by (rewrite E; eauto).
  assert (st1 = handleAgentEvents replyId (map EText contents) st) as Hst1
    by apply text_batches_flatten.
  split; [| split; [| split; [| split]]].
  - rewrite Hst1, text_events_accumulate by assumption.
    unfold accumulated_text. rewrite E, Hm. reflexivity.
  - destruct (text_events_trace replyId contents st Hs) as (pushed & Ht & Hall & Hf).
    rewrite Hst1, (pushed_since_app replyId st _ pushed Ht Hall). assumption.
  - destruct (text_events_messages replyId contents [] st reply E Hm)
      as (reply' & E' & Hm' & Hc').
    rewrite <- Hst1 in E'. subst st2.
    rewrite (handleAgentFinished_messages _ _ _ E'), Hm', Hc'. simpl.
    rewrite saveMessages_text, Hst1, handleAgentEvents_messages. reflexivity.
  - apply handleAgentFinished_trace.
  - intros st' reply' E' Hdup. split; [| split].
    + rewrite (handleAgentFinished_messages _ _ _ E'). f_equal.
      unfold saveMessages.
      induction (reply_messages reply') as [| m ms IH]; [reflexivity |].
      simpl. destruct (Hdup m) as (i & Hi & Hne & Ht); [left |].
      rewrite (saveMessage_duplicate _ _ _ i Hi Hne Ht).
      apply IH. intros m' Hin. apply Hdup. right. assumption.
    + apply handleAgentFinished_trace.
    + apply handleAgentFinished_session.
Qed.

(** ** Termination *)

Lemma status_processes replyId s st :
  processes (set_session_status replyId s st) = processes st.
Proof. unfold set_session_status. destruct (agentSession_update _ _ _); reflexivity. Qed.

Lemma status_conversationAgents replyId s st :
  conversationAgents (set_session_status replyId s st) = conversationAgents st.
Proof. unfold set_session_status. destruct (agentSession_update _ _ _); reflexivity. Qed.

Lemma status_pendingReplies replyId s st :
  pendingReplies (set_session_status replyId s st) = pendingReplies st.
Proof. unfold set_session_status. destruct (agentSession_update _ _ _); reflexivity. Qed.

Lemma status_callbacks replyId s st :
  messageCallbacks (set_session_status replyId s st) = messageCallbacks st.
Proof. unfold set_session_status. destruct (agentSession_update _ _ _); reflexivity. Qed.

Lemma status_extracted replyId s st :
  extractedTestcaseReplies (set_session_status replyId s st) = extractedTestcaseReplies st.
Proof. unfold set_session_status. destruct (agentSession_update _ _ _); reflexivity. Qed.

Lemma status_hidden replyId s st :
  hiddenToolCallIds (set_session_status replyId s st) = hiddenToolCallIds st.
Proof. unfold set_session_status. destruct (agentSession_update _ _ _); reflexivity. Qed.

Lemma status_os_log replyId s st :
  os_log (set_session_status replyId s st) = os_log st.
Proof. unfold set_session_status. destruct (agentSession_update _ _ _); reflexivity. Qed.

Lemma status_coordinatorPlans replyId s st :
  coordinatorPlans (db (set_session_status replyId s st)) = coordinatorPlans (db st).
Proof.
  unfold set_session_status, agentSession_update.
  destruct (agentSessions (db st) !! replyId); reflexivity.
Qed.

Lemma status_agentSessions replyId s st :
  agentSessions (db (set_session_status replyId s st))
  = match agentSessions (db st) !! replyId with
    | Some row => <[replyId := mkSession (as_conversationId row) (as_userId row) s (as_pid row)
                                         (Some (clock st))]>
                    (agentSessions (db st))
    | None => agentSessions (db st)
    end.
Proof.
  unfold set_session_status, agentSession_update.
  destruct (agentSessions (db st) !! replyId); reflexivity.
Qed.

Lemma terminateAgent_missing replyId st :
  pendingReplies st !! replyId = None -> terminateAgent replyId st = (false, st).
Proof. intros E. unfold terminateAgent. rewrite E. reflexivity. Qed.

Lemma map_push_twice (a b : option SSEMessage) (cbs : option (list (list (option SSEMessage)))) :
  map (fun q => q ++ [b]) <$> (map (fun q => q ++ [a]) <$> cbs)
  = map (fun q => q ++ [a; b]) <$> cbs.
Proof.
  destruct cbs as [l |]; simpl; [| reflexivity].
  f_equal. rewrite map_map. apply map_ext. intros q. rewrite <- app_assoc. reflexivity.
Qed.

(** What a successful [terminateAgent] does to each part of the state. *)
Lemma terminateAgent_spec replyId reply st :
  pendingReplies st !! replyId = Some reply ->
  let st' := snd (terminateAgent replyId st) in
  fst (terminateAgent replyId st) = true /\
  processes st' = delete replyId (processes st) /\
  os_log st' = os_log st ++
               match processes st !! replyId with
               | Some _ => [SendSignal replyId "SIGTERM"; ScheduleSignal replyId "SIGKILL" 5000]
               | None => []
               end /\
  pendingReplies st' = <[replyId := with_flags true true reply]> (pendingReplies st) /\
  conversationAgents st' = conversationAgents st /\
  extractedTestcaseReplies st' = extractedTestcaseReplies st /\
  hiddenToolCallIds st' = hiddenToolCallIds st /\
  sse_trace st' = sse_trace st ++ [(replyId, cancel_message); (replyId, None)] /\
  messageCallbacks st' !! replyId
  = map (fun q => q ++ [cancel_message; None]) <$> messageCallbacks st !! replyId /\
  messages (db st')
  = messages (saveMessages (reply_conversationId reply) (reply_messages reply) (db st)) /\
  agentSessions (db st')
  = match agentSessions (db st) !! replyId with
    | Some row => <[replyId := mkSession (as_conversationId row) (as_userId row)
                                         CANCELLED (as_pid row) (Some (clock st))]>
                    (agentSessions (db st))
    | None => agentSessions (db st)
    end /\
  coordinatorPlans (db st') = coordinatorPlans (db st).
Proof.
  intros E. unfold terminateAgent. rewrite E. cbv zeta. cbn [fst snd].
  rewrite status_processes, status_os_log, status_pendingReplies, status_conversationAgents,
    status_extracted, status_hidden, set_session_status_trace, status_callbacks,
    set_session_status_messages, status_agentSessions, status_coordinatorPlans.
  rewrite !push_db, !push_trace, !push_processes, !push_os_log, !push_pendingReplies,
    !push_conversationAgents, !push_extracted, !push_hidden, !push_callbacks, map_push_twice,
    !push_clock.
  unfold update_reply.
  destruct (processes st !! replyId) as [child |] eqn:Ep;
    cbn [processes os_log pendingReplies conversationAgents extractedTestcaseReplies
         hiddenToolCallIds sse_trace messageCallbacks db clock
         set_processes set_os_log set_db set_pendingReplies];
    rewrite E, ?saveMessages_agentSessions, ?saveMessages_coordinatorPlans, <- ?app_assoc,
      ?app_nil_r;
    repeat split; try reflexivity.
  symmetry. apply delete_id. assumption.
Qed.

(** C6 (amended). [terminateAgent] is not idempotent: the pending reply is
    kept after a termination, so a further call for the same reply, at
    whatever time, again returns [true], again pushes the cancelled event
    and the end signal to every callback still registered, again saves
    every non-empty accumulated message, and writes the session row of the
    reply again: its status stays [CANCELLED] and its [finishedAt] becomes
    the time of the further call.  What the further call leaves as it was:
    the process map and the signals sent, the conversation index, the
    pending replies, the extraction flags, the hidden ids, the session rows
    of the other replies and the plans. *)
Theorem terminateAgent_repeated replyId reply later st :
  pendingReplies st !! replyId = Some reply ->
  let st1 := snd (terminateAgent replyId st) in
  let st2 := snd (terminateAgent replyId (set_clock later st1)) in
  fst (terminateAgent replyId (set_clock later st1)) = true /\
  sse_trace st2 = sse_trace st1 ++ [(replyId, cancel_message); (replyId, None)] /\
  messageCallbacks st2 !! replyId
  = map (fun q => q ++ [cancel_message; None]) <$> messageCallbacks st1 !! replyId /\
  messages (db st2)
  = messages (saveMessages (reply_conversationId reply) (reply_messages reply) (db st1)) /\
  processes st2 = processes st1 /\ os_log st2 = os_log st1 /\
  conversationAgents st2 = conversationAgents st1 /\
  pendingReplies st2 = pendingReplies st1 /\
  extractedTestcaseReplies st2 = extractedTestcaseReplies st1 /\
  hiddenToolCallIds st2 = hiddenToolCallIds st1 /\
  (forall row, agentSessions (db st) !! replyId = Some row ->
     agentSessions (db st1) !! replyId
     = Some (mkSession (as_conversationId row) (as_userId row) CANCELLED (as_pid row)
                       (Some (clock st))) /\
     agentSessions (db st2) !! replyId
     = Some (mkSession (as_conversationId row) (as_userId row) CANCELLED (as_pid row)
                       (Some later))) /\
  (forall other, other <> replyId ->
                 agentSessions (db st2) !! other = agentSessions (db st1) !! other) /\
  coordinatorPlans (db st2) = coordinatorPlans (db st1).
Proof.
  intros E st1 st2.
  destruct (terminateAgent_spec replyId reply st E)
    as (_ & Hp & _ & Hr & _ & _ & _ & _ & _ & _ & Ha & _).
  fold st1 in Hp, Hr, Ha.
  assert (pendingReplies (set_clock later st1) !! replyId = Some (with_flags true true reply))
    as E1 by (cbn [pendingReplies set_clock]; rewrite Hr; apply lookup_insert_eq).
  destruct (terminateAgent_spec replyId _ (set_clock later st1) E1)
    as (Hb & Hp2 & Ho2 & Hr2 & Hc2 & He2 & Hh2 & Ht2 & Hq2 & Hm2 & Ha2 & Hl2).
  fold st2 in Hp2, Ho2, Hr2, Hc2, He2, Hh2, Ht2, Hq2, Hm2, Ha2, Hl2.
  cbn [processes os_log pendingReplies conversationAgents extractedTestcaseReplies
       hiddenToolCallIds sse_trace messageCallbacks db clock set_clock]
    in Hp2, Ho2, Hr2, Hc2, He2, Hh2, Ht2, Hq2, Hm2, Ha2, Hl2, E1.
  assert (processes st1 !! replyId = None) as Ep1 by (rewrite Hp; apply lookup_delete_eq).
  split; [exact Hb |]. split; [exact Ht2 |]. split; [exact Hq2 |]. split; [exact Hm2 |].
  split; [rewrite Hp2; apply delete_id; assumption |].
  split; [rewrite Ho2, Ep1; apply app_nil_r |].
  split; [exact Hc2 |].
  split; [rewrite Hr2; apply insert_id; assumption |].
  split; [exact He2 |]. split; [exact Hh2 |].
  split; [| split; [| exact Hl2]].
  - intros row Ea. rewrite Ea in Ha.
    assert (agentSessions (db st1) !! replyId
            = Some (mkSession (as_conversationId row) (as_userId row) CANCELLED (as_pid row)
                              (Some (clock st)))) as Ea1
      by (rewrite Ha; apply lookup_insert_eq).
    split; [exact Ea1 |]. rewrite Ha2, Ea1. apply lookup_insert_eq.
  - intros other Hne. rewrite Ha2.
    destruct (agentSessions (db st1) !! replyId); [| reflexivity].
    apply lookup_insert_ne. congruence.
Qed.

(** ** Events after a terminal signal *)

Lemma handleAgentFinished_pending replyId st :
  pendingReplies (handleAgentFinished replyId st)
  = match pendingReplies st !! replyId with
    | Some reply => <[replyId := with_flags true (reply_cancelled reply) reply]>
                      (pendingReplies st)
    | None => pendingReplies st
    end.
Proof.
  unfold handleAgentFinished.
  match goal with
  | |- context [match processes ?s !! replyId with _ => _ end] =>
      destruct (processes s !! replyId)
  end; cbn [pendingReplies set_processes set_os_log];
    rewrite status_pendingReplies, push_pendingReplies;
    destruct (pendingReplies st !! replyId) as [reply |] eqn:E; try reflexivity;
    unfold update_reply; simpl; rewrite E; reflexivity.
Qed.

(** C9 (amended). The handlers do not consult the [finished] and
    [cancelled] flags and the pending reply is kept after a terminal signal:
    once the finished handler or the terminate handler has run, the reply is
    still pending with its messages, a text event of a later batch is still
    appended to the accumulated text, and no batch alters the messages
    already stored in the [message] table. *)
Theorem events_after_terminal replyId reply st terminal :
  pendingReplies st !! replyId = Some reply ->
  terminal = handleAgentFinished replyId st \/ terminal = snd (terminateAgent replyId st) ->
  (exists reply',
     pendingReplies terminal !! replyId = Some reply' /\
     reply_finished reply' = true /\ reply_messages reply' = reply_messages reply) /\
  (forall events,
     messages (db (handleAgentEvents replyId events terminal)) = messages (db terminal)) /\
  (forall contents,
     accumulated_text replyId (handleAgentEvents replyId (map EText contents) terminal)
     = accumulated_text replyId terminal +:+ join contents).
Proof.
  intros E Ht.
  assert (exists reply',
            pendingReplies terminal !! replyId = Some reply' /\
            reply_finished reply' = true /\ reply_messages reply' = reply_messages reply)
    as Hkept.
  { destruct Ht as [-> | ->].
    - rewrite handleAgentFinished_pending, E, lookup_insert_eq. eauto.
    - destruct (terminateAgent_spec replyId reply st E) as (_ & _ & _ & -> & _).
      rewrite lookup_insert_eq. eauto. }
  split; [assumption |]. split.
  - intros events. apply handleAgentEvents_messages.
  - intros contents. apply text_events_accumulate.
    destruct Hkept as (reply' & -> & _). eauto.
Qed.

(** ** The interrupt route *)



(** ** The streaming send *)

Lemma extract_callbacks_unsubscribed replyId textContent st :
  messageCallbacks st !! replyId = None ->
  messageCallbacks (extractAndPushTestcases replyId textContent st) = messageCallbacks st.
Proof.
  intros E. extract_cases replyId textContent st; try reflexivity.
  rewrite push_unsubscribed; [reflexivity | assumption].
Qed.

Lemma handleAgentEvent_unsubscribed replyId event st :
  messageCallbacks st !! replyId = None ->
  messageCallbacks (handleAgentEvent replyId event st) = messageCallbacks st.
Proof.
  intros E. destruct event; cbn [handleAgentEvent].
  - rewrite extract_callbacks_unsubscribed; rewrite push_unsubscribed; try reflexivity;
      assumption.
  - apply push_unsubscribed. assumption.
  - destruct (isToolHidden name); [reflexivity |]. apply push_unsubscribed. assumption.
  - destruct (isToolHidden name || bool_decide (id ∈ hiddenToolCallIds st)); [reflexivity |].
    apply push_unsubscribed. assumption.
  - rewrite push_unsubscribed; rewrite coordinator_callbacks; [reflexivity | assumption].
  - reflexivity.
Qed.

(** Without a registered callback a batch reaches no queue. *)
Lemma handleAgentEvents_unsubscribed replyId events st :
  messageCallbacks st !! replyId = None ->
  messageCallbacks (handleAgentEvents replyId events st) = messageCallbacks st.
Proof.
  unfold handleAgentEvents. destruct (pendingReplies st !! replyId); [| reflexivity].
  revert st. induction events as [| e events IH]; intros st E; simpl; [reflexivity |].
  rewrite IH; rewrite handleAgentEvent_unsubscribed; try reflexivity; assumption.
Qed.

Lemma spawnAgent_begin_callbacks params child_pid st :
  messageCallbacks (spawnAgent_begin params child_pid st) = messageCallbacks st.
Proof. unfold spawnAgent_begin. destruct (agentSession_create _ _ _); reflexivity. Qed.

Lemma spawnAgent_end_callbacks params child_pid st :
  messageCallbacks (spawnAgent_end params child_pid st) = messageCallbacks st.
Proof. unfold spawnAgent_end. destruct (agentSession_update _ _ _); reflexivity. Qed.


Lemma drain_no_start conversationId queue :
  Forall (fun f => frame_type f <> "start") (fst (drain conversationId queue)).
Proof.
  induction queue as [| [m |] queue IH]; simpl.
  - constructor.
  - destruct (drain conversationId queue) as [frames ended]. simpl in *.
    constructor; [destruct m; discriminate | assumption].
  - constructor; [discriminate | constructor].
Qed.

(** A turn of the generator keeps what was yielded and yields no [start]. *)
Lemma poll_extends s st :
  exists frames,
    stream_frames (fst (sendMessageStreaming_poll s st)) = stream_frames s ++ frames /\
    Forall (fun f => frame_type f <> "start") frames.
Proof.
  unfold sendMessageStreaming_poll.
  destruct (stream_returned s).
  - exists []. rewrite app_nil_r. split; [reflexivity | constructor].
  - pose proof (drain_no_start (stream_conversationId s) (stream_queue s st)) as Hd.
    destruct (drain (stream_conversationId s) (stream_queue s st)) as [frames ended].
    simpl in Hd. destruct ended.
    + exists frames. split; [reflexivity | assumption].
    + destruct (negb (isRunning (stream_replyId s) (clear_queue s st))); simpl.
      * exists (frames ++ [FDone (stream_conversationId s)]). rewrite app_assoc.
        split; [reflexivity |]. apply Forall_app. split; [assumption |].
        constructor; [discriminate | constructor].
      * exists (frames ++ [FHeartbeat]). rewrite app_assoc.
        split; [reflexivity |]. apply Forall_app. split; [assumption |].
        constructor; [discriminate | constructor].
Qed.

Lemma batches_unsubscribed replyId (batches : list (list AgentEvent)) st :
  messageCallbacks st !! replyId = None ->
  messageCallbacks (fold_left (fun acc batch => handleAgentEvents replyId batch acc) batches st)
  = messageCallbacks st.
Proof.
  revert st. induction batches as [| b batches IH]; intros st E; simpl; [reflexivity |].
  rewrite IH; rewrite handleAgentEvents_unsubscribed; try reflexivity; assumption.
Qed.

(** C3 (amended). In a streaming send the [start] event is yielded before
    the agent is spawned, so it is the first event of the stream and the only
    [start], whatever the generator yields later.  The SSE callback is
    registered only after [spawnAgent] has returned: the batches the agent
    delivers between the spawn of the child and that registration are handled
    while no callback is registered for the reply, they reach no queue, and
    the queue of the newly registered callback is empty; a message pushed
    after the registration is queued for the stream. *)
Theorem subscription_after_spawn params child_pid (batches : list (list AgentEvent)) st :
  messageCallbacks st !! p_replyId params = None ->
  let replyId := p_replyId params in
  let s := sendMessageStreaming_start (p_conversationId params) replyId in
  let st1 := spawnAgent_begin params child_pid st in
  let st2 := fold_left (fun acc batch => handleAgentEvents replyId batch acc) batches st1 in
  let st3 := sendMessageStreaming_subscribe s (spawnAgent_end params child_pid st2) in
  stream_frames s = [FStart (p_conversationId params) replyId] /\
  messageCallbacks st2 = messageCallbacks st /\
  stream_queue s st3 = [] /\
  (forall msg, stream_queue s (pushToSSEQueue replyId msg st3) = [msg]) /\
  (forall later : list State,
     exists rest,
       stream_frames (fold_left (fun acc st' => fst (sendMessageStreaming_poll acc st')) later s)
       = FStart (p_conversationId params) replyId :: rest /\
       Forall (fun f => frame_type f <> "start") rest).
Proof.
  intros E replyId s st1 st2 st3. subst replyId.
  assert (messageCallbacks st2 = messageCallbacks st) as H2.
  { subst st2 st1. rewrite batches_unsubscribed; rewrite spawnAgent_begin_callbacks;
      [reflexivity | assumption]. }
  assert (messageCallbacks st3 !! p_replyId params = Some [[]]) as H3.
  { subst st3. unfold sendMessageStreaming_subscribe, registerSSECallback. simpl.
    rewrite lookup_insert_eq, spawnAgent_end_callbacks, H2, E. reflexivity. }
  clearbody st3 st2.
  split; [reflexivity |]. split; [assumption |]. split; [| split].
  - unfold stream_queue. cbn [s stream_replyId sendMessageStreaming_start].
    rewrite H3. reflexivity.
  - intros msg. unfold stream_queue. cbn [s stream_replyId sendMessageStreaming_start].
    rewrite push_callbacks, H3. reflexivity.
  - intros later.
    assert (forall s0 rest0,
              stream_frames s0 = FStart (p_conversationId params) (p_replyId params) :: rest0 ->
              Forall (fun f => frame_type f <> "start") rest0 ->
              exists rest,
                stream_frames
                  (fold_left (fun acc st' => fst (sendMessageStreaming_poll acc st')) later s0)
                = FStart (p_conversationId params) (p_replyId params) :: rest /\
                Forall (fun f => frame_type f <> "start") rest) as Hgen.
    { induction later as [| st' later IH]; intros s0 rest0 Hf Hn; simpl.
      - eauto.
      - destruct (poll_extends s0 st') as (frames & Hext & Hns).
        apply (IH _ (rest0 ++ frames)).
        + rewrite Hext, Hf. reflexivity.
        + apply Forall_app. split; assumption. }
    apply (Hgen s []); [reflexivity | constructor].
Qed.

(** ** Exit of the child *)

Lemma onChildExit_frame replyId conversationId st :
  let st' := onChildExit replyId conversationId st in
  processes st' = delete replyId (processes st) /\
  pendingReplies st' = pendingReplies st /\ messageCallbacks st' = messageCallbacks st /\
  extractedTestcaseReplies st' = extractedTestcaseReplies st /\
  hiddenToolCallIds st' = hiddenToolCallIds st /\ db st' = db st /\
  os_log st' = os_log st /\ sse_trace st' = sse_trace st.
Proof.
  unfold onChildExit. simpl.
  destruct (conversationAgents st !! conversationId) as [l |]; [| repeat split].
  destruct (filter _ l); repeat split.
Qed.



(** ** The plan projector *)

Lemma phase_key_inj p q : phase_key p = phase_key q -> p = q.
Proof.
  unfold phase_key. intros Hk. apply String.app_inj in Hk.
  apply (inj pretty) in Hk. assumption.
Qed.

Lemma updatePhaseCompleted_lookup conversationId p evaluation d existing :
  coordinatorPlans d !! conversationId = Some existing ->
  coordinatorPlans (updatePhaseCompleted conversationId p evaluation d) !! conversationId
  = Some (mkPlan (objective existing) (plan existing)
            (if bool_decide (activePhase existing = Some p) then None
             else activePhase existing)
            (if bool_decide (p ∈ completedPhases existing) then completedPhases existing
             else completedPhases existing ++ [p])
            (Some match evaluation with
                  | Some out => if js_truthy out
                                then <[phase_key p := out]> (default ∅ (phaseOutputs existing))
                                else default ∅ (phaseOutputs existing)
                  | None => default ∅ (phaseOutputs existing)
                  end)
            (status existing)).
Proof.
  intros E. unfold updatePhaseCompleted, coordinatorPlan_findUnique, coordinatorPlan_update.
  rewrite E. simpl. rewrite lookup_insert_eq. reflexivity.
Qed.

Lemma completed_prefix (p : Z) (l : list Z) :
  l `prefix_of` (if bool_decide (p ∈ l) then l else l ++ [p]).
Proof. case_bool_decide; [reflexivity | apply prefix_app_r; reflexivity]. Qed.

(** Any number of [phase_completed] updates only extends the list. *)
Lemma updatePhaseCompleted_many conversationId (updates : list (Z * option JSON)) :
  forall d existing,
    coordinatorPlans d !! conversationId = Some existing ->
    exists updated,
      coordinatorPlans
        (fold_left (fun acc u => updatePhaseCompleted conversationId (fst u) (snd u) acc)
                   updates d) !! conversationId = Some updated /\
      completedPhases existing `prefix_of` completedPhases updated.
Proof.
  induction updates as [| [p ev] updates IH]; intros d existing E; simpl.
  - exists existing. split; [assumption | reflexivity].
  - destruct (IH _ _ (updatePhaseCompleted_lookup conversationId p ev d existing E))
      as (updated & E' & Hpre).
    exists updated. split; [assumption |].
    etransitivity; [| exact Hpre]. simpl. apply completed_prefix.
Qed.

Lemma plan_update_lookup c f d conversationId :
  coordinatorPlans (match coordinatorPlan_update c f d with
                    | Some d' => d'
                    | None => d
                    end) !! conversationId
  = if decide (c = conversationId) then f <$> coordinatorPlans d !! c
    else coordinatorPlans d !! conversationId.
Proof.
  unfold coordinatorPlan_update.
  destruct (coordinatorPlans d !! c) as [row |] eqn:E; simpl.
  - destruct (decide (c = conversationId)) as [<- | Hne].
    + apply lookup_insert_eq.
    + apply lookup_insert_ne. assumption.
  - destruct (decide (c = conversationId)) as [<- | Hne]; [assumption | reflexivity].
Qed.

(** A coordinator event other than [plan_created] keeps the plan of every
    conversation and only extends its completed phases. *)
Lemma coordinator_event_monotone replyId eventType data st conversationId existing :
  eventType <> "plan_created" ->
  coordinatorPlans (db st) !! conversationId = Some existing ->
  exists updated,
    coordinatorPlans (db (handleCoordinatorEvent replyId eventType data st)) !! conversationId
    = Some updated /\
    completedPhases existing `prefix_of` completedPhases updated.
Proof.
  intros Hty E. unfold handleCoordinatorEvent.
  destruct (pendingReplies st !! replyId) as [reply |]; [| eauto].
  destruct (String.eqb eventType "plan_created") eqn:Ec;
    [apply String.eqb_eq in Ec; contradiction |].
  destruct (String.eqb eventType "phase_started").
  { destruct (phase_of data) as [n |]; [| eauto].
    cbn [db set_db]. unfold updatePhaseStarted. rewrite plan_update_lookup.
    destruct (decide (reply_conversationId reply = conversationId)) as [-> |]; [| eauto].
    rewrite E. simpl. eauto. }
  destruct (String.eqb eventType "phase_completed").
  { destruct (phase_of data) as [n |]; [| eauto].
    cbn [db set_db].
    destruct (decide (reply_conversationId reply = conversationId)) as [-> | Hne].
    - rewrite (updatePhaseCompleted_lookup _ _ _ _ _ E). eexists. split; [reflexivity |].
      apply completed_prefix.
    - unfold updatePhaseCompleted, coordinatorPlan_findUnique.
      destruct (coordinatorPlans (db st) !! reply_conversationId reply); [| eauto].
      rewrite plan_update_lookup, decide_False by assumption. eauto. }
  destruct (String.eqb eventType "task_completed").
  { cbn [db set_db]. unfold updatePlanStatus. rewrite plan_update_lookup.
    destruct (decide (reply_conversationId reply = conversationId)) as [-> |]; [| eauto].
    rewrite E. simpl. eauto. }
  destruct (String.eqb eventType "execution_failed" || String.eqb eventType "task_failed");
    [| eauto].
  cbn [db set_db]. unfold updatePlanStatus. rewrite plan_update_lookup.
  destruct (decide (reply_conversationId reply = conversationId)) as [-> |]; [| eauto].
  rewrite E. simpl. eauto.
Qed.

Lemma coordinator_events_monotone (events : list (string * string * JSON)) :
  forall st conversationId existing,
    Forall (fun ev => snd (fst ev) <> "plan_created") events ->
    coordinatorPlans (db st) !! conversationId = Some existing ->
    exists updated,
      coordinatorPlans
        (db (fold_left (fun s ev => handleCoordinatorEvent (fst (fst ev)) (snd (fst ev)) (snd ev) s)
                       events st)) !! conversationId = Some updated /\
      completedPhases existing `prefix_of` completedPhases updated.
Proof.
  induction events as [| [[r ty] data] events IH]; intros st conversationId existing Hall E;
    cbn [fold_left].
  - eauto.
  - apply Forall_cons in Hall. destruct Hall as [Hty Hall]. simpl in Hty.
    destruct (coordinator_event_monotone r ty data st conversationId existing Hty E)
      as (mid & Emid & Hpre).
    destruct (IH _ _ _ Hall Emid) as (updated & Eu & Hpre').
    exists updated. split; [exact Eu | etransitivity; eassumption].
Qed.

(** C7. For a [phase_completed] event with phase [p] on a conversation that
    has a plan: [p] is appended to [completed_phases] exactly when it is not
    yet there and no element is ever removed, so the list only grows over any
    number of such updates and over any coordinator events handled for the
    plan ([plan_created] apart, which starts a plan anew); the evaluation, when present, is stored under the
    key [phase_p] of [phase_outputs] and every other key keeps its value;
    [active_phase] becomes null when it equals [p] and is otherwise kept.
    The handler of the coordinator event applies exactly this update for an
    event whose data carries the phase [p], with the evaluation read from
    the data; data that is an object without a phase (or with [null] for
    it) completes phase 1; a phase that is a string, and data that is
    [null], write nothing. *)
Theorem updatePhaseCompleted_spec conversationId p evaluation d existing :
  coordinatorPlans d !! conversationId = Some existing ->
  (exists updated,
     coordinatorPlans (updatePhaseCompleted conversationId p evaluation d) !! conversationId
     = Some updated /\
     completedPhases updated
     = (if bool_decide (p ∈ completedPhases existing) then completedPhases existing
        else completedPhases existing ++ [p]) /\
     (p ∈ completedPhases updated) /\
     (forall q, q ∈ completedPhases existing -> q ∈ completedPhases updated) /\
     (exists outputs,
        phaseOutputs updated = Some outputs /\
        (forall out, evaluation = Some out -> js_truthy out = true ->
                     outputs !! phase_key p = Some out) /\
        (evaluation = None -> outputs = default ∅ (phaseOutputs existing)) /\
        (forall out, evaluation = Some out -> js_truthy out = false ->
                     outputs = default ∅ (phaseOutputs existing)) /\
        (forall key, key <> phase_key p ->
                     outputs !! key = default ∅ (phaseOutputs existing) !! key) /\
        (forall q, q <> p ->
                   outputs !! phase_key q = default ∅ (phaseOutputs existing) !! phase_key q)) /\
     activePhase updated
     = (if bool_decide (activePhase existing = Some p) then None else activePhase existing) /\
     (activePhase existing = Some p -> activePhase updated = None) /\
     (activePhase existing <> Some p -> activePhase updated = activePhase existing)) /\
  (forall updates : list (Z * option JSON),
     exists updated,
       coordinatorPlans
         (fold_left (fun acc u => updatePhaseCompleted conversationId (fst u) (snd u) acc)
                    updates d) !! conversationId = Some updated /\
       completedPhases existing `prefix_of` completedPhases updated) /\
  (forall (events : list (string * string * JSON)) st,
     db st = d ->
     Forall (fun ev => snd (fst ev) <> "plan_created") events ->
     exists updated,
       coordinatorPlans
         (db (fold_left (fun s ev => handleCoordinatorEvent (fst (fst ev)) (snd (fst ev))
                                                            (snd ev) s) events st))
         !! conversationId = Some updated /\
       completedPhases existing `prefix_of` completedPhases updated) /\
  (forall replyId reply data st,
     pendingReplies st !! replyId = Some reply ->
     reply_conversationId reply = conversationId -> db st = d ->
     let st' := handleCoordinatorEvent replyId "phase_completed" data st in
     (jget "phase" data = Some (JNum p 0) -> jget "evaluation" data = evaluation ->
      db st' = updatePhaseCompleted conversationId p evaluation d) /\
     (forall fields, data = JObj fields -> nullish (jget "phase" data) JNull = JNull ->
                     db st' = updatePhaseCompleted conversationId 1 (jget "evaluation" data) d) /\
     (forall text, jget "phase" data = Some (JStr text) -> st' = st) /\
     (data = JNull -> st' = st)).
Proof.
  intros E. split; [| split; [| split]].
  - eexists. split; [apply updatePhaseCompleted_lookup; eassumption |].
    cbn [completedPhases phaseOutputs activePhase].
    split; [reflexivity |]. split; [| split; [| split; [| split; [| split]]]].
    + case_bool_decide; [assumption |]. apply elem_of_app. right. apply list_elem_of_singleton.
      reflexivity.
    + intros q Hq. case_bool_decide; [assumption |]. apply elem_of_app. left. assumption.
    + eexists. split; [reflexivity |]. split; [| split; [| split; [| split]]].
      * intros out -> ->. apply lookup_insert_eq.
      * intros ->. reflexivity.
      * intros out -> ->. reflexivity.
      * intros key Hne. destruct evaluation as [out |]; [| reflexivity].
        destruct (js_truthy out); [| reflexivity].
        apply lookup_insert_ne. congruence.
      * intros q Hne. destruct evaluation as [out |]; [| reflexivity].
        destruct (js_truthy out); [| reflexivity].
        apply lookup_insert_ne. intros Hk. apply phase_key_inj in Hk. congruence.
    + reflexivity.
    + intros Ha. rewrite bool_decide_eq_true_2 by assumption. reflexivity.
    + intros Ha. rewrite bool_decide_eq_false_2 by assumption. reflexivity.
  - intros updates. apply updatePhaseCompleted_many. assumption.
  - intros events st Hd Hall. subst d. apply coordinator_events_monotone; assumption.
  - intros replyId reply data st Er Hc Hd st'. subst d conversationId st'.
    unfold handleCoordinatorEvent. rewrite Er.
    cbn -[updatePhaseCompleted jget phase_of nullish].
    split; [| split; [| split]].
    + intros Hp Hev. subst evaluation.
      assert (phase_of data = Some p) as ->; [| reflexivity].
      unfold phase_of. rewrite Hp. destruct data; try discriminate.
      cbn [nullish]. unfold jnum_to_int. simpl. f_equal. lia.
    + intros fields -> Hp.
      assert (phase_of (JObj fields) = Some 1) as ->; [| reflexivity].
      unfold phase_of. revert Hp. unfold nullish.
      destruct (jget "phase" (JObj fields)) as [[] |]; try discriminate; reflexivity.
    + intros text Hp.
      assert (phase_of data = None) as ->; [| reflexivity].
      unfold phase_of. rewrite Hp. destruct data; reflexivity.
    + intros ->. reflexivity.
Qed.

(** ** One-shot testcase extraction *)

Lemma testcases_count_push replyId r msg st st' :
  sse_trace st' = sse_trace st ++ [(replyId, msg)] ->
  testcases_count r st'
  = (testcases_count r st
     + if bool_decide (replyId = r) && is_testcases msg then 1 else 0)%nat.
Proof.
  intros Ht. unfold testcases_count, pushed_since. rewrite Ht, !drop_0.
  rewrite filter_app, map_app, List.filter_app, length_app. f_equal.
  case_bool_decide as Hr.
  - rewrite filter_cons_True by exact Hr. simpl. destruct (is_testcases msg); reflexivity.
  - rewrite filter_cons_False by exact Hr. reflexivity.
Qed.

Lemma testcases_count_same r st st' :
  sse_trace st' = sse_trace st -> testcases_count r st' = testcases_count r st.
Proof. intros Ht. unfold testcases_count, pushed_since. rewrite Ht. reflexivity. Qed.

Lemma extraction_step_same st st' :
  pendingReplies st' = pendingReplies st ->
  extractedTestcaseReplies st' = extractedTestcaseReplies st ->
  sse_trace st' = sse_trace st ->
  extraction_step st st'.
Proof.
  intros Hp He Ht. split; [| split].
  - intros r. rewrite Hp. reflexivity.
  - rewrite He. reflexivity.
  - intros r. left. apply testcases_count_same. assumption.
Qed.

Lemma extraction_step_refl st : extraction_step st st.
Proof. apply extraction_step_same; reflexivity. Qed.

Lemma extraction_step_trans st1 st2 st3 :
  extraction_step st1 st2 -> extraction_step st2 st3 -> extraction_step st1 st3.
Proof.
  intros (Hp12 & He12 & Hc12) (Hp23 & He23 & Hc23). split; [| split].
  - intros r. rewrite Hp23. apply Hp12.
  - etransitivity; eassumption.
  - intros r. destruct (Hc12 r) as [H12 | (H12 & Hs & Hn & Hi)];
      destruct (Hc23 r) as [H23 | (H23 & Hs' & Hn' & Hi')].
    + left. congruence.
    + right. split; [congruence |]. split; [apply Hp12; assumption |].
      split; [| assumption]. intros Hin. apply Hn'. apply He12. assumption.
    + right. split; [congruence |]. split; [assumption |]. split; [assumption |].
      apply He23. assumption.
    + contradiction.
Qed.

Lemma extraction_step_push replyId msg st :
  is_testcases msg = false -> extraction_step st (pushToSSEQueue replyId msg st).
Proof.
  intros Hm. split; [| split].
  - intros r. rewrite push_pendingReplies. reflexivity.
  - rewrite push_extracted. reflexivity.
  - intros r. left.
    rewrite (testcases_count_push replyId r msg st) by apply push_trace.
    rewrite Hm, andb_false_r. lia.
Qed.

Lemma extraction_step_update replyId f st : extraction_step st (update_reply replyId f st).
Proof.
  split; [| split].
  - intros r. rewrite update_reply_lookup.
    destruct (decide (replyId = r)) as [<- |]; [| reflexivity].
    rewrite fmap_is_Some. reflexivity.
  - reflexivity.
  - intros r. left. apply testcases_count_same. reflexivity.
Qed.

Lemma extraction_step_extract replyId textContent st :
  is_Some (pendingReplies st !! replyId) ->
  extraction_step st (extractAndPushTestcases replyId textContent st).
Proof.
  intros Hs. rewrite extractAndPushTestcases_unfold.
  case_bool_decide as Hin; [apply extraction_step_refl |].
  destruct (testcases_payload textContent) as [m |] eqn:Ep; [| apply extraction_step_refl].
  split; [| split].
  - intros r. rewrite push_pendingReplies. reflexivity.
  - rewrite push_extracted. simpl. set_solver.
  - intros r.
    rewrite (testcases_count_push replyId r (Some m)
               (set_extractedTestcaseReplies (fun s => {[replyId]} ∪ s) st))
      by apply push_trace.
    rewrite (testcases_payload_is_testcases _ _ Ep), andb_true_r.
    replace (testcases_count r (set_extractedTestcaseReplies (fun s => {[replyId]} ∪ s) st))
      with (testcases_count r st) by reflexivity.
    case_bool_decide as Hr.
    + subst r. right. split; [lia |]. split; [assumption |]. split; [assumption |].
      rewrite push_extracted. simpl. set_solver.
    + left. lia.
Qed.

Lemma extraction_step_event replyId event st :
  is_Some (pendingReplies st !! replyId) ->
  extraction_step st (handleAgentEvent replyId event st).
Proof.
  intros Hs. destruct event; cbn [handleAgentEvent].
  - eapply extraction_step_trans; [apply (extraction_step_update replyId (append_text content)) |].
    eapply extraction_step_trans;
      [apply (extraction_step_push replyId (Some (SseChunk content))); reflexivity |].
    apply extraction_step_extract.
    rewrite push_pendingReplies, update_reply_lookup, decide_True by reflexivity.
    rewrite fmap_is_Some. assumption.
  - apply extraction_step_push. reflexivity.
  - destruct (isToolHidden name); [apply extraction_step_same; reflexivity |].
    apply extraction_step_push. reflexivity.
  - destruct (isToolHidden name || bool_decide (id ∈ hiddenToolCallIds st));
      [apply extraction_step_refl |].
    apply extraction_step_push. reflexivity.
  - eapply extraction_step_trans; [| apply extraction_step_push; reflexivity].
    apply extraction_step_same;
      [apply coordinator_pendingReplies | apply coordinator_extracted | apply coordinator_trace].
  - apply extraction_step_refl.
Qed.

Lemma extraction_step_events replyId events st :
  extraction_step st (handleAgentEvents replyId events st).
Proof.
  unfold handleAgentEvents.
  destruct (pendingReplies st !! replyId) as [reply |] eqn:E; [| apply extraction_step_refl].
  assert (is_Some (pendingReplies st !! replyId)) as Hs by (rewrite E; eauto).
  clear E. revert st Hs.
  induction events as [| e events IH]; intros st Hs; cbn [fold_left];
    [apply extraction_step_refl |].
  eapply extraction_step_trans; [apply (extraction_step_event replyId e); assumption |].
  apply IH. apply handleAgentEvent_pending. assumption.
Qed.

Lemma extraction_step_message replyId msg st :
  extraction_step st (handleAgentMessage replyId msg st).
Proof.
  unfold handleAgentMessage.
  destruct (pendingReplies st !! replyId) as [reply |] eqn:E; [| apply extraction_step_refl].
  destruct (parse_content (msg_content msg)) as [textContent thinkingContent].
  match goal with
  | |- context [update_reply replyId ?f st] =>
      pose proof (extraction_step_update replyId f st) as H1;
      assert (is_Some (pendingReplies (update_reply replyId f st) !! replyId)) as Hs
        by (rewrite update_reply_lookup, decide_True, E by reflexivity; simpl; eauto);
      generalize dependent (update_reply replyId f st)
  end.
  intros st1 H1 Hs.
  eapply extraction_step_trans; [exact H1 |].
  assert (extraction_step st1
            (if str_truthy thinkingContent
             then pushToSSEQueue replyId (Some (SseThinking thinkingContent)) st1 else st1) /\
          is_Some (pendingReplies
                     (if str_truthy thinkingContent
                      then pushToSSEQueue replyId (Some (SseThinking thinkingContent)) st1
                      else st1) !! replyId)) as [H2 Hs2].
  { destruct (str_truthy thinkingContent);
      [split; [apply extraction_step_push; reflexivity | rewrite push_pendingReplies; assumption]
      | split; [apply extraction_step_refl | assumption]]. }
  eapply extraction_step_trans; [exact H2 |].
  match goal with
  | |- extraction_step ?s2 _ => generalize dependent s2
  end.
  intros st2 _ Hs2.
  destruct (str_truthy textContent).
  - eapply extraction_step_trans;
      [apply (extraction_step_push replyId (Some (SseChunk textContent))); reflexivity |].
    apply extraction_step_extract. rewrite push_pendingReplies. assumption.
  - apply extraction_step_extract. assumption.
Qed.

Lemma handleAgentFinished_extracted replyId st :
  extractedTestcaseReplies (handleAgentFinished replyId st) = extractedTestcaseReplies st.
Proof.
  unfold handleAgentFinished.
  match goal with
  | |- context [match processes ?s !! replyId with _ => _ end] =>
      destruct (processes s !! replyId)
  end; cbn [extractedTestcaseReplies set_processes set_os_log];
    rewrite status_extracted, push_extracted;
    destruct (pendingReplies st !! replyId); reflexivity.
Qed.

Lemma handleAgentFinished_hidden replyId st :
  hiddenToolCallIds (handleAgentFinished replyId st) = hiddenToolCallIds st.
Proof.
  unfold handleAgentFinished.
  match goal with
  | |- context [match processes ?s !! replyId with _ => _ end] =>
      destruct (processes s !! replyId)
  end; cbn [hiddenToolCallIds set_processes set_os_log];
    rewrite status_hidden, push_hidden;
    destruct (pendingReplies st !! replyId); reflexivity.
Qed.

Lemma insert_is_Some_same (m : gmap string PendingReply) replyId reply reply' r :
  m !! replyId = Some reply ->
  is_Some (<[replyId := reply']> m !! r) <-> is_Some (m !! r).
Proof.
  intros E. destruct (decide (replyId = r)) as [<- | Hne].
  - rewrite lookup_insert_eq, E. split; eauto.
  - rewrite lookup_insert_ne by assumption. reflexivity.
Qed.

Lemma extraction_step_finished replyId st :
  extraction_step st (handleAgentFinished replyId st).
Proof.
  split; [| split].
  - intros r. rewrite handleAgentFinished_pending.
    destruct (pendingReplies st !! replyId) as [reply |] eqn:E; [| reflexivity].
    eapply insert_is_Some_same. eassumption.
  - rewrite handleAgentFinished_extracted. reflexivity.
  - intros r. left.
    rewrite (testcases_count_push replyId r None st) by apply handleAgentFinished_trace.
    rewrite andb_false_r. lia.
Qed.

Lemma terminateAgent_hidden replyId st :
  hiddenToolCallIds (snd (terminateAgent replyId st)) = hiddenToolCallIds st.
Proof.
  destruct (pendingReplies st !! replyId) as [reply |] eqn:E.
  - destruct (terminateAgent_spec replyId reply st E) as (_ & _ & _ & _ & _ & _ & Hh & _).
    exact Hh.
  - rewrite terminateAgent_missing by assumption. reflexivity.
Qed.

Lemma extraction_step_terminate replyId st :
  extraction_step st (snd (terminateAgent replyId st)).
Proof.
  destruct (pendingReplies st !! replyId) as [reply |] eqn:E.
  - destruct (terminateAgent_spec replyId reply st E)
      as (_ & _ & _ & Hr & _ & He & _ & Ht & _).
    split; [| split].
    + intros r. rewrite Hr. eapply insert_is_Some_same. eassumption.
    + rewrite He. reflexivity.
    + intros r. left. unfold testcases_count, pushed_since. rewrite Ht, !drop_0.
      rewrite filter_app, map_app, List.filter_app, length_app.
      replace (List.filter is_testcases
                 (map snd (filter (fun entry => fst entry = r)
                                  [(replyId, cancel_message); (replyId, None)])))
        with (@nil (option SSEMessage)); [simpl; lia |].
      destruct (decide (replyId = r)) as [Hr' | Hr'].
      * rewrite !filter_cons_True by exact Hr'. reflexivity.
      * rewrite !filter_cons_False by exact Hr'. reflexivity.
  - rewrite terminateAgent_missing by assumption. apply extraction_step_refl.
Qed.

Lemma extraction_step_terminateConversation conversationId st :
  extraction_step st (terminateConversation conversationId st).
Proof.
  unfold terminateConversation.
  destruct (conversationAgents st !! conversationId) as [replyIds |];
    [| apply extraction_step_refl].
  revert st. induction replyIds as [| r replyIds IH]; intros st; cbn [fold_left].
  - apply extraction_step_refl.
  - eapply extraction_step_trans; [apply (extraction_step_terminate r) | apply IH].
Qed.

Lemma terminateConversation_hidden conversationId st :
  hiddenToolCallIds (terminateConversation conversationId st) = hiddenToolCallIds st.
Proof.
  unfold terminateConversation.
  destruct (conversationAgents st !! conversationId) as [replyIds |]; [| reflexivity].
  revert st. induction replyIds as [| r replyIds IH]; intros st; cbn [fold_left].
  - reflexivity.
  - rewrite IH. apply terminateAgent_hidden.
Qed.

Lemma handleAgentMessage_hidden replyId msg st :
  hiddenToolCallIds (handleAgentMessage replyId msg st) = hiddenToolCallIds st.
Proof.
  unfold handleAgentMessage.
  destruct (pendingReplies st !! replyId); [| reflexivity].
  destruct (parse_content (msg_content msg)) as [textContent thinkingContent].
  rewrite extract_hidden.
  destruct (str_truthy textContent), (str_truthy thinkingContent);
    rewrite ?push_hidden; reflexivity.
Qed.

Lemma spawnAgent_frame params child_pid st :
  let st' := spawnAgent params child_pid st in
  pendingReplies st'
  = <[p_replyId params := mkReply (p_conversationId params) (p_replyId params)
                                  (p_userId params) [] false false]> (pendingReplies st) /\
  extractedTestcaseReplies st' = extractedTestcaseReplies st /\
  hiddenToolCallIds st' = hiddenToolCallIds st /\
  sse_trace st' = sse_trace st /\ messageCallbacks st' = messageCallbacks st.
Proof.
  unfold spawnAgent, spawnAgent_end, spawnAgent_begin.
  repeat (case_inner; simpl); repeat split.
Qed.

(** An early exit of the child only writes on the child object. *)
Lemma spawnAgent_exited_eq params child_pid exit_code st :
  spawnAgent_exited params child_pid exit_code st
  = exit_unheard (p_replyId params) exit_code (spawnAgent params child_pid st).
Proof.
  unfold spawnAgent_exited, spawnAgent, spawnAgent_end, exit_unheard.
  cbn [db set_processes]. destruct (agentSession_update _ _ _); reflexivity.
Qed.

Lemma spawnAgent_exited_frame params child_pid exit_code st :
  let st' := spawnAgent_exited params child_pid exit_code st in
  pendingReplies st'
  = <[p_replyId params := mkReply (p_conversationId params) (p_replyId params)
                                  (p_userId params) [] false false]> (pendingReplies st) /\
  extractedTestcaseReplies st' = extractedTestcaseReplies st /\
  hiddenToolCallIds st' = hiddenToolCallIds st /\
  sse_trace st' = sse_trace st /\ messageCallbacks st' = messageCallbacks st.
Proof.
  cbn zeta. rewrite spawnAgent_exited_eq. exact (spawnAgent_frame params child_pid st).
Qed.

(** A turn of a stream touches the callbacks only. *)
Lemma poll_frame s st :
  let st' := snd (sendMessageStreaming_poll s st) in
  pendingReplies st' = pendingReplies st /\
  extractedTestcaseReplies st' = extractedTestcaseReplies st /\
  hiddenToolCallIds st' = hiddenToolCallIds st /\
  sse_trace st' = sse_trace st /\ db st' = db st /\ processes st' = processes st.
Proof.
  unfold sendMessageStreaming_poll.
  destruct (stream_returned s); [repeat split |].
  destruct (drain (stream_conversationId s) (stream_queue s st)) as [frames ended].
  destruct ended; [repeat split |].
  destruct (negb (isRunning (stream_replyId s) (clear_queue s st))); repeat split.
Qed.

(** Every call but [cleanup] keeps the hidden ids recorded so far. *)
Lemma run_op_hidden_mono op st :
  is_cleanup op = false -> hiddenToolCallIds st ⊆ hiddenToolCallIds (run_op op st).
Proof.
  intros Hc. destruct op; cbn [run_op]; try discriminate.
  - destruct (spawnAgent_frame params child_pid st) as (_ & _ & -> & _). reflexivity.
  - destruct (onChildExit_frame replyId conversationId st) as (_ & _ & _ & _ & -> & _).
    reflexivity.
  - rewrite handleAgentMessage_hidden. reflexivity.
  - apply handleAgentEvents_hidden_mono.
  - rewrite handleAgentFinished_hidden. reflexivity.
  - rewrite terminateAgent_hidden. reflexivity.
  - rewrite terminateConversation_hidden. reflexivity.
  - reflexivity.
  - reflexivity.
  - destruct (poll_frame s st) as (_ & _ & -> & _). reflexivity.
  - destruct (spawnAgent_exited_frame params child_pid exit_code st) as (_ & _ & -> & _).
    reflexivity.
  - reflexivity.
Qed.

Lemma run_ops_hidden_mono ops st :
  forallb (fun op => negb (is_cleanup op)) ops = true ->
  hiddenToolCallIds st ⊆ hiddenToolCallIds (run_ops ops st).
Proof.
  unfold run_ops. revert st.
  induction ops as [| op ops IH]; intros st Hall; cbn [fold_left]; [reflexivity |].
  simpl in Hall. apply andb_true_iff in Hall. destruct Hall as [Hop Hall].
  etransitivity; [apply (run_op_hidden_mono op) | apply IH; assumption].
  apply negb_true_iff. assumption.
Qed.

(** C10. The hidden-id set belongs to the manager, not to a reply: once a
    [tool_call] with a hidden name has recorded an id while a batch of some
    reply was handled, the id stays in the set through every later call on
    the manager other than [cleanup] (spawning, batches and messages of any
    reply, the finished signal, termination, the exit of a child, SSE
    registration), so a later [tool_result] carrying that id is dropped in
    every reply, whatever its name; [cleanup] empties the set. *)
Theorem hidden_ids_are_shared replyId id name input ops st :
  is_Some (pendingReplies st !! replyId) ->
  isToolHidden name = true ->
  forallb (fun op => negb (is_cleanup op)) ops = true ->
  let st1 := run_ops ops (handleAgentEvents replyId [EToolCall id name input] st) in
  id ∈ hiddenToolCallIds st1 /\
  (forall other name' output success,
     handleAgentEvents other [EToolResult id name' output success] st1 = st1) /\
  hiddenToolCallIds (cleanup st1) = ∅.
Proof.
  intros Hs Hh Hops st1.
  assert (id ∈ hiddenToolCallIds st1) as Hin.
  { subst st1. apply (run_ops_hidden_mono ops); [assumption |].
    rewrite handleAgentEvents_one by assumption. cbn [handleAgentEvent]. rewrite Hh.
    simpl. set_solver. }
  split; [assumption |]. split; [| reflexivity].
  intros other name' output success.
  destruct (pendingReplies st1 !! other) as [reply |] eqn:E.
  - rewrite handleAgentEvents_one by (rewrite E; eauto).
    apply tool_result_dropped. right. assumption.
  - apply handleAgentEvents_missing. assumption.
Qed.

Lemma length_guard (textContent : string) :
  negb (str_truthy textContent) || (js_length textContent <? 100)%nat = false
  <-> (100 <= js_length textContent)%nat.
Proof.
  rewrite orb_false_iff, Nat.ltb_ge. split; [intros [_ Hl]; exact Hl |].
  intros Hl. split; [| exact Hl].
  destruct textContent; [simpl in Hl; lia | reflexivity].
Qed.

Lemma keyword_guard (textContent : string) :
  negb (existsb (fun kw => includes kw textContent) testcase_keywords) = false
  <-> exists kw, kw ∈ testcase_keywords /\ includes kw textContent = true.
Proof.
  rewrite negb_false_iff, existsb_exists.
  split; intros (kw & Hin & Hk); exists kw; (split; [| exact Hk]);
    apply list_elem_of_In; exact Hin.
Qed.

Lemma testcases_payload_Some textContent m :
  testcases_payload textContent = Some m
  <-> exists matched data testcases,
        extraction_conditions textContent matched data testcases /\
        m = testcases_event data testcases.
Proof.
  unfold testcases_payload, extraction_conditions. split.
  - destruct (negb (str_truthy textContent) || (js_length textContent <? 100)%nat)
      eqn:Hl; [discriminate |].
    destruct (negb (existsb _ testcase_keywords)) eqn:Hk; [discriminate |].
    destruct (regex_search testcases_regex textContent) as [matched |] eqn:Hm;
      [| discriminate].
    destruct (JSON_parse matched) as [data |] eqn:Hp; [| discriminate].
    destruct (jget "testcases" data) as [[| | | | [| t ts] |] |] eqn:Hj; try discriminate.
    intros [= <-]. exists matched, data, (t :: ts).
    apply length_guard in Hl. apply keyword_guard in Hk.
    repeat split; try assumption. discriminate.
  - intros (matched & data & testcases & (Hl & Hk & Hm & Hp & Hj & Hne) & ->).
    apply length_guard in Hl. apply keyword_guard in Hk.
    rewrite Hl, Hk, Hm, Hp, Hj.
    destruct testcases as [| t ts]; [contradiction | reflexivity].
Qed.

Lemma run_op_extraction op st :
  spawned_by op = [] -> is_cleanup op = false -> extraction_step st (run_op op st).
Proof.
  intros Hsp Hc. destruct op; cbn [run_op]; try discriminate.
  - destruct (onChildExit_frame replyId conversationId st)
      as (_ & Hp & _ & He & _ & _ & _ & Ht).
    apply extraction_step_same; assumption.
  - apply extraction_step_message.
  - apply extraction_step_events.
  - apply extraction_step_finished.
  - apply extraction_step_terminate.
  - apply extraction_step_terminateConversation.
  - apply extraction_step_same; reflexivity.
  - apply extraction_step_same; reflexivity.
  - destruct (poll_frame s st) as (Hp & He & _ & Ht & _).
    apply extraction_step_same; assumption.
  - apply extraction_step_same; reflexivity.
Qed.

(** A spawn, whether or not the child outlives it, opens one pending reply
    and pushes nothing. *)
Lemma spawn_op_frame op st r0 l0 :
  spawned_by op = r0 :: l0 ->
  l0 = [] /\
  (exists reply, pendingReplies (run_op op st) = <[r0 := reply]> (pendingReplies st)) /\
  extractedTestcaseReplies (run_op op st) = extractedTestcaseReplies st /\
  sse_trace (run_op op st) = sse_trace st.
Proof.
  intros Hsp. destruct op; try discriminate; cbn [spawned_by] in Hsp;
    injection Hsp as <- <-; cbn [run_op].
  - destruct (spawnAgent_frame params child_pid st) as (Hp & He & _ & Ht & _). eauto.
  - destruct (spawnAgent_exited_frame params child_pid exit_code st)
      as (Hp & He & _ & Ht & _). eauto.
Qed.

(** Along a history that spawns each reply id once, at most one [testcases]
    event is pushed for a reply. *)
Lemma history_one_testcases ops :
  forall st (spawned : list string),
    NoDup (spawned_ids ops) ->
    (forall r, r ∈ spawned_ids ops -> r ∉ spawned) ->
    (forall r, is_Some (pendingReplies st !! r) -> r ∈ spawned) ->
    (forall r, (testcases_count r st <= 1)%nat /\
               ((1 <= testcases_count r st)%nat ->
                r ∈ spawned /\
                (is_Some (pendingReplies st !! r) -> r ∈ extractedTestcaseReplies st))) ->
    forall r, (testcases_count r (run_ops ops st) <= 1)%nat.
Proof.
  unfold run_ops.
  induction ops as [| op ops IH]; intros st spawned Hnd Hfresh Hpend Hinv r; cbn [fold_left].
  - apply Hinv.
  - change (spawned_ids (op :: ops)) with (spawned_by op ++ spawned_ids ops) in Hnd, Hfresh.
    apply NoDup_app in Hnd. destruct Hnd as (_ & Hdisj & Hnd).
    destruct (is_cleanup op) eqn:Hc.
    { destruct op; try discriminate. cbn [run_op].
      apply (IH (cleanup st) spawned); try assumption.
      - intros r' Hs. simpl in Hs. rewrite lookup_empty in Hs. destruct Hs as [? Hs].
        discriminate.
      - intros r'. destruct (Hinv r') as [Hle Hone].
        replace (testcases_count r' (cleanup st)) with (testcases_count r' st) by reflexivity.
        split; [assumption |]. intros H1. split; [apply Hone; assumption |].
        intros Hs. simpl in Hs. rewrite lookup_empty in Hs. destruct Hs as [? Hs].
        discriminate. }
    destruct (spawned_by op) as [| r0 l0] eqn:Hsp.
    + destruct (run_op_extraction op st Hsp Hc) as (Hp & He & Hcount).
      apply (IH (run_op op st) spawned); try assumption.
      * intros r' Hs. apply Hpend. apply Hp. assumption.
      * intros r'. destruct (Hinv r') as [Hle Hone].
        destruct (Hcount r') as [Heq | (Heq & Hs & Hn & Hi)].
        -- rewrite Heq. split; [assumption |]. intros H1.
           destruct (Hone H1) as [Hin Hex]. split; [assumption |].
           intros Hs. apply He. apply Hex. apply Hp. assumption.
        -- assert (testcases_count r' st = 0)%nat as Hz.
           { destruct (testcases_count r' st) as [| n] eqn:En; [reflexivity |].
             exfalso. apply Hn. apply Hone; [lia | assumption]. }
           rewrite Heq, Hz. split; [lia |]. intros _.
           split; [apply Hpend; assumption | intros _; assumption].
    + destruct (spawn_op_frame op st r0 l0 Hsp) as (-> & (reply0 & Hp) & He & Ht).
      apply (IH (run_op op st) (r0 :: spawned)); try assumption.
      * intros r' Hin Hin'. apply elem_of_cons in Hin'. destruct Hin' as [-> | Hin'].
        -- apply (Hdisj r0); [left | assumption].
        -- apply (Hfresh r'); [apply elem_of_app; right; assumption | assumption].
      * intros r' Hs. rewrite Hp in Hs.
        destruct (decide (r0 = r')) as [<- | Hne]; [left |].
        rewrite lookup_insert_ne in Hs by assumption. right. apply Hpend. assumption.
      * intros r'. destruct (Hinv r') as [Hle Hone].
        rewrite (testcases_count_same r' st _ Ht).
        split; [assumption |]. intros H1. destruct (Hone H1) as [Hin Hex].
        split; [right; assumption |].
        rewrite Hp, He. intros Hs.
        destruct (decide (r0 = r')) as [<- | Hne].
        -- exfalso. apply (Hfresh r0); [left | assumption].
        -- rewrite lookup_insert_ne in Hs by assumption. apply Hex. assumption.
Qed.

(** C8 (amended). The extractor pushes a [testcases] event exactly when the
    reply is not flagged as extracted, the text has at least 100 UTF-16
    code units, which is what its [length] counts (a text of exactly 100
    qualifies; a character outside the basic plane counts for two, whatever
    the number of its bytes), it contains one of the four keywords,
    and the greedy match of the braces around the testcases key parses as
    JSON with a non-empty [testcases] array; it then flags the reply and the
    event carries the status (or unknown), the count (or the length of the
    array) and the array.  Otherwise it changes nothing.  Along every history
    of the manager that spawns each reply id once, at most one [testcases]
    event is pushed for a reply. *)
Theorem testcases_one_shot replyId textContent st :
  let st' := extractAndPushTestcases replyId textContent st in
  (forall matched data testcases,
     replyId ∉ extractedTestcaseReplies st ->
     extraction_conditions textContent matched data testcases ->
     st' = pushToSSEQueue replyId (Some (testcases_event data testcases))
             (set_extractedTestcaseReplies (fun s => {[replyId]} ∪ s) st)) /\
  (sse_trace st' <> sse_trace st
   <-> (replyId ∉ extractedTestcaseReplies st) /\
       exists matched data testcases,
         extraction_conditions textContent matched data testcases) /\
  (sse_trace st' = sse_trace st -> st' = st) /\
  (forall ops r, NoDup (spawned_ids ops) ->
                 (testcases_count r (run_ops ops initial_state) <= 1)%nat).
Proof.
  intros st'. subst st'. rewrite extractAndPushTestcases_unfold.
  assert (forall (t : list (string * option SSEMessage)) x, t ++ [x] <> t) as Hgrow.
  { intros t x Heq. apply (f_equal (@length _)) in Heq. rewrite length_app in Heq.
    simpl in Heq. lia. }
  split; [| split; [| split]].
  - intros matched data testcases Hn Hc.
    rewrite bool_decide_eq_false_2 by assumption.
    assert (testcases_payload textContent = Some (testcases_event data testcases)) as ->
      by (apply testcases_payload_Some; eauto).
    reflexivity.
  - case_bool_decide as Hin.
    + split; [intros Hne; contradiction | intros [Hn _]; contradiction].
    + destruct (testcases_payload textContent) as [m |] eqn:Ep.
      * apply testcases_payload_Some in Ep. destruct Ep as (matched & data & tcs & Hc & _).
        split; [intros _; split; [assumption | eauto] |].
        intros _. rewrite push_trace. apply Hgrow.
      * split; [intros Hne; contradiction |].
        intros (_ & matched & data & tcs & Hc).
        assert (testcases_payload textContent = Some (testcases_event data tcs)) as Hp
          by (apply testcases_payload_Some; eauto).
        congruence.
  - case_bool_decide; [reflexivity |].
    destruct (testcases_payload textContent); [| reflexivity].
    rewrite push_trace. intros Ht. exfalso. exact (Hgrow _ _ Ht).
  - intros ops r Hnd.
    apply (history_one_testcases ops initial_state []); try assumption.
    + intros r' _. apply not_elem_of_nil.
    + intros r' Hs. simpl in Hs. rewrite lookup_empty in Hs. destruct Hs as [? Hs].
      discriminate.
    + intros r'. replace (testcases_count r' initial_state) with 0%nat by reflexivity.
      split; [lia | intros Hl; lia].
Qed.

End Properties.

(** * Scenarios

    The properties at concrete inputs, on the platform of the examples. *)

Example regex_greedy :
  regex_search testcases_regex ("ab {x" +:+ quoted "testcases" +:+ ":[1]} c } d")
  = Some ("{x" +:+ quoted "testcases" +:+ ":[1]} c }").
Proof. vm_compute. reflexivity. Qed.

Example text100_length : js_length text100 = 100%nat.
Proof. reflexivity. Qed.

(** The guard counts code units, not bytes: the padded document has more
    than 100 bytes and is not extracted. *)
Example length_is_counted_in_code_units :
  String.length text_cjk = 116%nat /\ js_length text_cjk = 56%nat /\
  @extractAndPushTestcases demo_platform "r1" text_cjk demo_spawned = demo_spawned.
Proof. split; [reflexivity |]. split; reflexivity. Qed.

Example json_parse_document :
  json_parse ("{" +:+ quoted "a" +:+ ": [1, -2.50e3, true, null], " +:+ quoted "b" +:+ ":{} }")
  = Some (JObj [("a", JArr [JNum 1 0; JNum (-250) 1; JBool true; JNull]); ("b", JObj [])]).
Proof. vm_compute. reflexivity. Qed.

(** Scenario S1: the frames of the stream and the stored message. *)
Example scenario_S1 :
  let st := handleAgentFinished "r1"
              (@handleAgentEvents demo_platform "r1" [EText " world"]
                 (@handleAgentEvents demo_platform "r1" [EText "Hello"] demo_streaming)) in
  stream_frames (fst (sendMessageStreaming_poll demo_stream st))
  = [FStart "c1" "r1"; FMessage (SseChunk "Hello"); FMessage (SseChunk " world"); FDone "c1"] /\
  messages (db st) = [mkRow None "c1" "assistant" "Hello world"].
Proof. split; vm_compute; reflexivity. Qed.

(** Scenario S2: no frame for the hidden tool [t1]. *)
Example scenario_S2 :
  let st := handleAgentFinished "r1"
              (@handleAgentEvents demo_platform "r1"
                 [EToolCall "t1" "internal_ping" (JObj []); EToolCall "t2" "fetch" (JObj []);
                  EToolResult "t1" "internal_ping" "ok" true;
                  EToolResult "t2" "fetch" "body" true] demo_streaming) in
  map frame_type (stream_frames (fst (sendMessageStreaming_poll demo_stream st)))
  = ["start"; "tool_call"; "tool_result"; "done"].
Proof. vm_compute. reflexivity. Qed.

(** Scenario S3: interrupt after a partial text. *)
Example scenario_S3 :
  let st := snd (interruptAgent "r1"
                   (@handleAgentEvents demo_platform "r1" [EText "partial"] demo_streaming)) in
  stream_frames (fst (sendMessageStreaming_poll demo_stream st))
  = [FStart "c1" "r1"; FMessage (SseChunk "partial");
     FMessage (SseCancelled "用户终止了请求"); FDone "c1"] /\
  messages (db st) = [mkRow None "c1" "assistant" "partial"] /\
  as_status <$> agentSessions (db st) !! "r1" = Some CANCELLED.
Proof. repeat split; vm_compute; reflexivity. Qed.

(** Scenario S4: the plan row after the six coordinator events. *)
Example scenario_S4 :
  let row := coordinatorPlans
               (db (@handleAgentEvents demo_platform "r1" s4_events demo_spawned)) !! "c1" in
  objective <$> row = Some "O" /\ activePhase <$> row = Some None /\
  completedPhases <$> row = Some [1; 2] /\ status <$> row = Some "completed" /\
  (row ≫= phaseOutputs) ≫= (fun outputs => outputs !! "phase_1")
  = Some (JObj [("ok", JBool true)]) /\
  size <$> (row ≫= phaseOutputs) = Some 1%nat.
Proof. repeat split; vm_compute; reflexivity. Qed.

(** Scenario S2: the hidden call [t1] is recorded and not pushed. *)
Lemma handleAgentEvents_tool_filter_witness :
  is_Some (pendingReplies demo_streaming !! "r1") /\
  "t1" ∈ hiddenToolCallIds
           (@handleAgentEvents demo_platform "r1"
              ([] ++ EToolCall "t1" "internal_ping" (JObj [])
                  :: [EToolCall "t2" "fetch" (JObj []);
                      EToolResult "t1" "internal_ping" "ok" true;
                      EToolResult "t2" "fetch" "body" true]) demo_streaming) /\
  messageCallbacks
    (@handleAgentEvents demo_platform "r1" ([] ++ [EToolCall "t2" "fetch" (JObj [])])
       demo_streaming) !! "r1"
  = Some [[Some (SseToolCall "t2" "抓取" (JObj []))]].
Proof.
  assert (is_Some (pendingReplies demo_streaming !! "r1")) as Hs
    by (vm_compute; eexists; reflexivity).
  split; [exact Hs |].
  destruct (@handleAgentEvents_tool_filter demo_platform "r1" [] demo_streaming Hs)
    as (Hcall & Hshown & _).
  split.
  - destruct (Hcall "t1" "internal_ping" (JObj [])
                [EToolCall "t2" "fetch" (JObj []);
                 EToolResult "t1" "internal_ping" "ok" true;
                 EToolResult "t2" "fetch" "body" true] eq_refl) as (_ & _ & _ & _ & Hin & _).
    exact Hin.
  - destruct (Hshown "t2" "fetch" (JObj []) eq_refl) as (_ & _ & Hqueue & _).
    rewrite Hqueue. reflexivity.
Defined.

(** Scenario S1: the two deltas are stored as one message. *)
Lemma text_stream_flush_witness :
  pendingReplies demo_spawned !! "r1" = Some (mkReply "c1" "r1" "u1" [] false false) /\
  messages (db (handleAgentFinished "r1"
                  (fold_left (fun s batch => @handleAgentEvents demo_platform "r1"
                                               (map EText batch) s)
                             [["Hello"]; [" world"]] demo_spawned)))
  = [mkRow None "c1" "assistant" "Hello world"].
Proof.
  assert (pendingReplies demo_spawned !! "r1" = Some (mkReply "c1" "r1" "u1" [] false false))
    as E by reflexivity.
  split; [exact E |].
  destruct (@text_stream_flush demo_platform "r1" _ [["Hello"]; [" world"]] demo_spawned
              E eq_refl) as (_ & _ & Hm & _).
  exact Hm.
Defined.

(** C2, as stated, fails: a text event with an empty content is accumulated
    and the finished signal stores no message. *)
Lemma empty_text_is_not_persisted :
  ~ (forall contents : list string,
       messages (db (handleAgentFinished "r1"
                       (@handleAgentEvents demo_platform "r1" (map EText contents)
                          demo_spawned)))
       = [mkRow None "c1" "assistant" (join contents)]).
Proof.
  intros Hclaim. specialize (Hclaim [EmptyString]).
  vm_compute in Hclaim. discriminate Hclaim.
Qed.

Lemma subscription_after_spawn_witness :
  messageCallbacks initial_state !! p_replyId demo_params = None /\
  stream_queue demo_stream
    (sendMessageStreaming_subscribe demo_stream
       (spawnAgent_end demo_params (Some 4242)
          (fold_left (fun acc batch => @handleAgentEvents demo_platform "r1" batch acc)
                     [[EText "Hello"]]
                     (spawnAgent_begin demo_params (Some 4242) initial_state)))) = [].
Proof.
  split; [reflexivity |].
  destruct (@subscription_after_spawn demo_platform demo_params (Some 4242)
              [[EText "Hello"]] initial_state eq_refl) as (_ & _ & Hq & _).
  exact Hq.
Defined.

(** C3, as stated, fails: a batch the agent delivers while [spawnAgent]
    awaits its status update is pushed before the callback is registered,
    and its chunk never reaches the stream. *)
Lemma event_before_subscription_is_lost :
  ~ (forall batch : list AgentEvent,
       let st1 := spawnAgent_begin demo_params (Some 4242) initial_state in
       let st2 := @handleAgentEvents demo_platform "r1" batch st1 in
       let st3 := sendMessageStreaming_subscribe demo_stream
                    (spawnAgent_end demo_params (Some 4242) st2) in
       let st4 := handleAgentFinished "r1" st3 in
       forall msg, ("r1", Some msg) ∈ sse_trace st4 ->
                   FMessage msg ∈ stream_frames (fst (sendMessageStreaming_poll demo_stream st4))).
Proof.
  intros Hclaim. specialize (Hclaim [EText "Hello"] (SseChunk "Hello")).
  vm_compute in Hclaim.
  assert (FMessage (SseChunk "Hello") ∈ [FStart "c1" "r1"; FDone "c1"]) as Hin
    by (apply Hclaim; left).
  apply elem_of_cons in Hin. destruct Hin as [Hin | Hin]; [discriminate Hin |].
  apply elem_of_cons in Hin. destruct Hin as [Hin | Hin]; [discriminate Hin |].
  apply elem_of_nil in Hin. exact Hin.
Qed.





Lemma terminateAgent_repeated_witness :
  let st := @handleAgentEvents demo_platform "r1" [EText "partial"] demo_streaming in
  let st1 := snd (terminateAgent "r1" st) in
  is_Some (pendingReplies st !! "r1") /\
  fst (terminateAgent "r1" (set_clock 5000 st1)) = true /\
  agentSessions (db (snd (terminateAgent "r1" (set_clock 5000 st1)))) !! "r1"
  = Some (mkSession "c1" "u1" CANCELLED (Some 4242) (Some 5000)).
Proof.
  intros st st1.
  assert (pendingReplies st !! "r1"
          = Some (mkReply "c1" "r1" "u1"
                    [mkMsg None (Some "assistant") (CBlocks [BText (Some "partial")])
                           (Some "partial")] false false)) as E by (vm_compute; reflexivity).
  split; [rewrite E; eexists; reflexivity |].
  destruct (terminateAgent_repeated "r1" _ 5000 st E)
    as (Hr & _ & _ & _ & _ & _ & _ & _ & _ & _ & Hrow & _).
  split; [exact Hr |].
  destruct (Hrow (mkSession "c1" "u1" RUNNING (Some 4242) None)) as (_ & Hlater);
    [vm_compute; reflexivity | exact Hlater].
Defined.

(** C6, as stated, fails: scenario S3 with the interrupt sent twice stores
    the partial text twice. *)
Lemma second_terminate_is_not_a_noop :
  let st := @handleAgentEvents demo_platform "r1" [EText "partial"] demo_streaming in
  let st1 := snd (terminateAgent "r1" st) in
  ~ (snd (terminateAgent "r1" st1) = st1).
Proof.
  intros st st1 Hclaim.
  apply (f_equal (fun s => length (messages (db s)))) in Hclaim.
  vm_compute in Hclaim. discriminate Hclaim.
Qed.

(** Scenario S5: phase 2 completes while phase 1 is active. *)
Lemma updatePhaseCompleted_spec_witness :
  coordinatorPlans demo_plan_db !! "c1" = Some (mkPlan "O" (JObj []) (Some 1) [] None "running") /\
  (exists updated,
     coordinatorPlans (updatePhaseCompleted "c1" 2 None demo_plan_db) !! "c1" = Some updated /\
     completedPhases updated = [2] /\ activePhase updated = Some 1) /\
  db (handleCoordinatorEvent "r1" "phase_completed" (JObj [("phase", JNum 2 0)])
        (set_db (fun _ => demo_plan_db) demo_spawned))
  = updatePhaseCompleted "c1" 2 None demo_plan_db.
Proof.
  split; [reflexivity |].
  destruct (updatePhaseCompleted_spec "c1" 2 None demo_plan_db _ eq_refl)
    as ((updated & Hl & Hc & _ & _ & _ & Ha & _) & _ & _ & Hevent).
  split.
  - exists updated. split; [exact Hl |]. split; [exact Hc | exact Ha].
  - destruct (Hevent "r1" (mkReply "c1" "r1" "u1" [] false false)
                (JObj [("phase", JNum 2 0)])
                (set_db (fun _ => demo_plan_db) demo_spawned) eq_refl eq_refl eq_refl)
      as (Hphase & _).
    apply Hphase; reflexivity.
Defined.

Lemma testcases_one_shot_witness :
  sse_trace (@extractAndPushTestcases demo_platform "r1" text100 demo_spawned)
  <> sse_trace demo_spawned.
Proof.
  destruct (@testcases_one_shot demo_platform "r1" text100 demo_spawned) as (_ & Hiff & _).
  apply Hiff. split.
  - vm_compute. discriminate.
  - exists text100, (JObj [("testcases", JArr [JNum 1 0]);
                           ("pad", JStr "0123456789012345678901234567890123456789012345678901234567890123456789abcd")]),
           [JNum 1 0].
    unfold extraction_conditions.
    split; [vm_compute; lia |].
    split; [exists (quoted "testcases"); split; [left | vm_compute; reflexivity] |].
    split; [vm_compute; reflexivity |].
    split; [vm_compute; reflexivity |].
    split; [reflexivity | discriminate].
Defined.

(** C8, as stated, fails: a text of exactly 100 code units does not exceed
    100, and its testcases are extracted. *)
Lemma text_of_100_is_extracted :
  ~ (forall textContent,
       sse_trace (@extractAndPushTestcases demo_platform "r1" textContent demo_spawned)
       <> sse_trace demo_spawned ->
       (100 < js_length textContent)%nat).
Proof.
  intros Hclaim. specialize (Hclaim text100).
  assert (100 < js_length text100)%nat as Hlt.
  { apply Hclaim. vm_compute. discriminate. }
  vm_compute in Hlt. lia.
Qed.

Lemma events_after_terminal_witness :
  let st := @handleAgentEvents demo_platform "r1" [EText "Hello"] demo_spawned in
  is_Some (pendingReplies st !! "r1") /\
  accumulated_text "r1"
    (@handleAgentEvents demo_platform "r1" (map EText ["!"]) (handleAgentFinished "r1" st))
  = accumulated_text "r1" (handleAgentFinished "r1" st) +:+ join ["!"].
Proof.
  intros st.
  assert (pendingReplies st !! "r1"
          = Some (mkReply "c1" "r1" "u1"
                    [mkMsg None (Some "assistant") (CBlocks [BText (Some "Hello")])
                           (Some "Hello")] false false)) as E by (vm_compute; reflexivity).
  split; [rewrite E; eexists; reflexivity |].
  destruct (@events_after_terminal demo_platform "r1" _ st (handleAgentFinished "r1" st) E
              (or_introl eq_refl)) as (_ & _ & Hacc).
  exact (Hacc ["!"]).
Defined.

(** C9, as stated, fails: a text event handled after the finished signal is
    appended to the accumulated text. *)
Lemma text_after_finished_is_appended :
  let terminal := handleAgentFinished "r1"
                    (@handleAgentEvents demo_platform "r1" [EText "Hello"] demo_spawned) in
  (reply_finished <$> pendingReplies terminal !! "r1" = Some true) /\
  ~ (accumulated_text "r1" (@handleAgentEvents demo_platform "r1" [EText "!"] terminal)
     = accumulated_text "r1" terminal).
Proof.
  split; [vm_compute; reflexivity |].
  intros Hclaim. vm_compute in Hclaim. discriminate Hclaim.
Qed.

(** The id hidden in reply [r1] drops a result of reply [r2], after [r1]
    has finished. *)
Lemma hidden_ids_are_shared_witness :
  let ops := [OpHandleAgentFinished "r1";
              OpSpawnAgent (mkParams "r2" "c2" "u2" "[]") (Some 4243)] in
  let st1 := @run_ops demo_platform ops
               (@handleAgentEvents demo_platform "r1"
                  [EToolCall "t1" "internal_ping" (JObj [])] demo_spawned) in
  is_Some (pendingReplies demo_spawned !! "r1") /\
  @handleAgentEvents demo_platform "r2" [EToolResult "t1" "fetch" "body" true] st1 = st1.
Proof.
  intros ops st1.
  assert (is_Some (pendingReplies demo_spawned !! "r1")) as Hs
    by (vm_compute; eexists; reflexivity).
  split; [exact Hs |].
  destruct (@hidden_ids_are_shared demo_platform "r1" "t1" "internal_ping" (JObj []) ops
              demo_spawned Hs eq_refl eq_refl) as (_ & Hdrop & _).
  exact (Hdrop "r2" "fetch" "body" true).
Defined.

(** * Further properties *)

Section Further.
Context `{Platform}.

Ltac case_scrutinee :=
  match goal with
  | |- context [match ?x with _ => _ end] =>
      lazymatch x with
      | context [match _ with _ => _ end] => fail
      | _ => destruct x eqn:?
      end
  end.

(** ** The index and the process map along the handlers *)

Lemma keeps_index_refl st : keeps_index st st.
Proof. repeat split; auto. Qed.

Lemma keeps_index_trans st1 st2 st3 :
  keeps_index st1 st2 -> keeps_index st2 st3 -> keeps_index st1 st3.
Proof.
  intros (Hc12 & Hr12 & Hp12) (Hc23 & Hr23 & Hp23). split; [congruence |]. split.
  - intros r. rewrite Hr23. apply Hr12.
  - intros r child Hp. apply Hp12, Hp23. assumption.
Qed.

Lemma keeps_index_same st st' :
  conversationAgents st' = conversationAgents st ->
  pendingReplies st' = pendingReplies st ->
  processes st' = processes st ->
  keeps_index st st'.
Proof.
  intros Hc Hr Hp. split; [assumption |]. split.
  - intros r. unfold reply_conversation. rewrite Hr. reflexivity.
  - intros r child. rewrite Hp. auto.
Qed.

Lemma keeps_index_push replyId msg st : keeps_index st (pushToSSEQueue replyId msg st).
Proof.
  apply keeps_index_same;
    [apply push_conversationAgents | apply push_pendingReplies | apply push_processes].
Qed.

Lemma keeps_index_extract replyId textContent st :
  keeps_index st (extractAndPushTestcases replyId textContent st).
Proof.
  apply keeps_index_same;
    [apply extract_conversationAgents | apply extract_pendingReplies | apply extract_processes].
Qed.

Lemma coordinator_conversationAgents replyId eventType data st :
  conversationAgents (handleCoordinatorEvent replyId eventType data st) = conversationAgents st.
Proof. unfold handleCoordinatorEvent. repeat (case_scrutinee; simpl); reflexivity. Qed.

Lemma keeps_index_update replyId f st :
  (forall reply, reply_conversationId (f reply) = reply_conversationId reply) ->
  keeps_index st (update_reply replyId f st).
Proof.
  intros Hf. split; [reflexivity |]. split; [| auto].
  intros r. unfold reply_conversation. rewrite update_reply_lookup.
  destruct (decide (replyId = r)) as [<- |]; [| reflexivity].
  destruct (pendingReplies st !! replyId); simpl; [rewrite Hf |]; reflexivity.
Qed.

Lemma append_text_conversation content reply :
  reply_conversationId (append_text content reply) = reply_conversationId reply.
Proof. unfold append_text. destruct (reply_messages reply); reflexivity. Qed.

Lemma keeps_index_event replyId event st : keeps_index st (handleAgentEvent replyId event st).
Proof.
  destruct event; cbn [handleAgentEvent].
  - eapply keeps_index_trans;
      [apply (keeps_index_update replyId (append_text content)), append_text_conversation |].
    eapply keeps_index_trans; [apply (keeps_index_push replyId (Some (SseChunk content))) |].
    apply keeps_index_extract.
  - apply keeps_index_push.
  - destruct (isToolHidden name); [apply keeps_index_same; reflexivity | apply keeps_index_push].
  - destruct (isToolHidden name || bool_decide (id ∈ hiddenToolCallIds st));
      [apply keeps_index_refl | apply keeps_index_push].
  - eapply keeps_index_trans; [| apply keeps_index_push].
    apply keeps_index_same;
      [apply coordinator_conversationAgents | apply coordinator_pendingReplies
       | apply coordinator_processes].
  - apply keeps_index_refl.
Qed.

Lemma keeps_index_events replyId events st : keeps_index st (handleAgentEvents replyId events st).
Proof.
  unfold handleAgentEvents. destruct (pendingReplies st !! replyId); [| apply keeps_index_refl].
  revert st. induction events as [| e events IH]; intros st; cbn [fold_left].
  - apply keeps_index_refl.
  - eapply keeps_index_trans; [apply (keeps_index_event replyId e) | apply IH].
Qed.

Lemma keeps_index_message replyId msg st : keeps_index st (handleAgentMessage replyId msg st).
Proof.
  unfold handleAgentMessage.
  destruct (pendingReplies st !! replyId) as [reply |]; [| apply keeps_index_refl].
  destruct (parse_content (msg_content msg)) as [textContent thinkingContent].
  eapply keeps_index_trans; [| apply keeps_index_extract].
  eapply keeps_index_trans;
    [| destruct (str_truthy textContent); [apply keeps_index_push | apply keeps_index_refl]].
  eapply keeps_index_trans;
    [| destruct (str_truthy thinkingContent); [apply keeps_index_push | apply keeps_index_refl]].
  apply keeps_index_update. reflexivity.
Qed.

Lemma handleAgentFinished_processes replyId st :
  processes (handleAgentFinished replyId st) = delete replyId (processes st).
Proof.
  unfold handleAgentFinished.
  match goal with
  | |- context [match processes ?s !! replyId with _ => _ end] =>
      destruct (processes s !! replyId) eqn:Ep
  end; cbn [processes set_processes set_os_log];
    rewrite status_processes, push_processes in *;
    destruct (pendingReplies st !! replyId); cbn [processes set_db update_reply
      set_pendingReplies] in *; try reflexivity; symmetry; apply delete_id; assumption.
Qed.

Lemma handleAgentFinished_conversationAgents replyId st :
  conversationAgents (handleAgentFinished replyId st) = conversationAgents st.
Proof.
  unfold handleAgentFinished.
  match goal with
  | |- context [match processes ?s !! replyId with _ => _ end] =>
      destruct (processes s !! replyId)
  end; cbn [conversationAgents set_processes set_os_log];
    rewrite status_conversationAgents, push_conversationAgents;
    destruct (pendingReplies st !! replyId); reflexivity.
Qed.

Lemma keeps_index_finished replyId st : keeps_index st (handleAgentFinished replyId st).
Proof.
  split; [apply handleAgentFinished_conversationAgents |]. split.
  - intros r. unfold reply_conversation. rewrite handleAgentFinished_pending.
    destruct (pendingReplies st !! replyId) as [reply |] eqn:E; [| reflexivity].
    destruct (decide (replyId = r)) as [<- | Hne].
    + rewrite lookup_insert_eq, E. reflexivity.
    + rewrite lookup_insert_ne by assumption. reflexivity.
  - intros r child. rewrite handleAgentFinished_processes. intros Hp.
    apply lookup_delete_Some in Hp. apply Hp.
Qed.

Lemma keeps_index_terminate replyId st : keeps_index st (snd (terminateAgent replyId st)).
Proof.
  destruct (pendingReplies st !! replyId) as [reply |] eqn:E.
  - destruct (terminateAgent_spec replyId reply st E) as (_ & Hp & _ & Hr & Hc & _).
    split; [assumption |]. split.
    + intros r. unfold reply_conversation. rewrite Hr.
      destruct (decide (replyId = r)) as [<- | Hne].
      * rewrite lookup_insert_eq, E. reflexivity.
      * rewrite lookup_insert_ne by assumption. reflexivity.
    + intros r child. rewrite Hp. intros Hl. apply lookup_delete_Some in Hl. apply Hl.
  - rewrite terminateAgent_missing by assumption. apply keeps_index_refl.
Qed.

Lemma keeps_index_terminate_all (replyIds : list string) st :
  keeps_index st (fold_left (fun s replyId => snd (terminateAgent replyId s)) replyIds st).
Proof.
  revert st. induction replyIds as [| r replyIds IH]; intros st; cbn [fold_left].
  - apply keeps_index_refl.
  - eapply keeps_index_trans; [apply (keeps_index_terminate r) | apply IH].
Qed.

Lemma keeps_index_terminateConversation conversationId st :
  keeps_index st (terminateConversation conversationId st).
Proof.
  unfold terminateConversation.
  destruct (conversationAgents st !! conversationId); [| apply keeps_index_refl].
  apply keeps_index_terminate_all.
Qed.

Lemma poll_conversationAgents s st :
  conversationAgents (snd (sendMessageStreaming_poll s st)) = conversationAgents st.
Proof.
  unfold sendMessageStreaming_poll.
  destruct (stream_returned s); [reflexivity |].
  destruct (drain (stream_conversationId s) (stream_queue s st)) as [frames ended].
  destruct ended; [reflexivity |].
  destruct (negb (isRunning (stream_replyId s) (clear_queue s st))); reflexivity.
Qed.

(** Every step but [spawnAgent], the exit of a child and [cleanup] keeps the
    index. *)
Lemma run_op_keeps_index op st :
  match op with
  | OpSpawnAgent _ _ | OpSpawnAgentExited _ _ _ | OpChildExit _ _ | OpCleanup => True
  | _ => keeps_index st (run_op op st)
  end.
Proof.
  destruct op; cbn [run_op]; try exact I.
  - apply keeps_index_message.
  - apply keeps_index_events.
  - apply keeps_index_finished.
  - apply keeps_index_terminate.
  - apply keeps_index_terminateConversation.
  - apply keeps_index_same; reflexivity.
  - apply keeps_index_same; reflexivity.
  - destruct (poll_frame s st) as (Hp & _ & _ & _ & _ & Hpr).
    apply keeps_index_same; [apply poll_conversationAgents | assumption | assumption].
  - apply keeps_index_same; reflexivity.
Qed.

Lemma manager_invariant_keeps st st' :
  keeps_index st st' -> manager_invariant st -> manager_invariant st'.
Proof.
  intros (Hc & Hr & Hp) (Hidx & Hproc). split.
  - intros c l. rewrite Hc. apply Hidx.
  - intros r child Hl. destruct (Hproc r child (Hp r child Hl)) as (Hk & c & Hconv & Hin).
    split; [assumption |].
    exists c. rewrite Hr. unfold getConversationAgents in *. rewrite Hc. auto.
Qed.

Lemma spawnAgent_index params child_pid st :
  let st' := spawnAgent params child_pid st in
  processes st' = <[p_replyId params := mkChild child_pid None false]> (processes st) /\
  conversationAgents st'
  = <[p_conversationId params :=
        set_add (p_replyId params) (getConversationAgents (p_conversationId params) st)]>
      (conversationAgents st).
Proof.
  unfold spawnAgent, spawnAgent_end, spawnAgent_begin, getConversationAgents.
  repeat (case_scrutinee; simpl); split; reflexivity.
Qed.

Lemma set_add_spec x (l : list string) :
  set_add x l <> [] /\ (NoDup l -> NoDup (set_add x l)) /\
  (forall y, y ∈ set_add x l <-> y = x \/ y ∈ l).
Proof.
  unfold set_add. case_bool_decide as Hin.
  - split; [intros ->; apply elem_of_nil in Hin; exact Hin |]. split; [auto |].
    intros y. split; [auto |]. intros [-> | Hy]; assumption.
  - split; [destruct l; discriminate |]. split.
    + intros Hnd. apply NoDup_app. split; [assumption |]. split; [| apply NoDup_singleton].
      intros y Hy Hy'. apply list_elem_of_singleton in Hy'. subst y. contradiction.
    + intros y. rewrite elem_of_app, list_elem_of_singleton. tauto.
Qed.

Lemma spawnAgent_exited_index params child_pid exit_code st :
  let st' := spawnAgent_exited params child_pid exit_code st in
  processes st' = <[p_replyId params := mkChild child_pid exit_code false]> (processes st) /\
  conversationAgents st'
  = <[p_conversationId params :=
        set_add (p_replyId params) (getConversationAgents (p_conversationId params) st)]>
      (conversationAgents st).
Proof.
  cbn zeta. rewrite spawnAgent_exited_eq.
  destruct (spawnAgent_index params child_pid st) as (Hp & Hc).
  split; [| exact Hc].
  unfold exit_unheard. cbn [processes set_processes]. rewrite Hp.
  rewrite alter_insert_eq. reflexivity.
Qed.

(** What a spawn does to the invariant, whatever became of the child. *)
Lemma manager_invariant_spawned params child st st' :
  killed child = false ->
  processes st' = <[p_replyId params := child]> (processes st) ->
  conversationAgents st'
  = <[p_conversationId params :=
        set_add (p_replyId params) (getConversationAgents (p_conversationId params) st)]>
      (conversationAgents st) ->
  pendingReplies st'
  = <[p_replyId params := mkReply (p_conversationId params) (p_replyId params)
                                  (p_userId params) [] false false]> (pendingReplies st) ->
  manager_invariant st -> manager_invariant st'.
Proof.
  intros Hkilled Hp Hc Hr (Hidx & Hproc).
  set (r := p_replyId params) in *. set (c := p_conversationId params) in *.
  destruct (set_add_spec r (getConversationAgents c st)) as (Hne & Hnd & Hmem).
  split.
  - intros c' l. rewrite Hc.
    destruct (decide (c = c')) as [<- | Hcc].
    + rewrite lookup_insert_eq. intros [= <-]. split; [assumption |]. apply Hnd.
      unfold getConversationAgents.
      destruct (conversationAgents st !! c) as [l0 |] eqn:E; [apply (Hidx c l0 E) |].
      apply NoDup_nil_2.
    + rewrite lookup_insert_ne by assumption. apply Hidx.
  - intros r' child'. rewrite Hp.
    destruct (decide (r = r')) as [<- | Hrr].
    + rewrite lookup_insert_eq. intros [= <-]. split; [assumption |].
      exists c. split.
      * unfold reply_conversation. rewrite Hr, lookup_insert_eq. reflexivity.
      * unfold getConversationAgents at 1. rewrite Hc, lookup_insert_eq. simpl.
        apply Hmem. left. reflexivity.
    + rewrite lookup_insert_ne by assumption. intros Hl.
      destruct (Hproc r' child' Hl) as (Hk & c0 & Hconv & Hin).
      split; [assumption |]. exists c0. split.
      * unfold reply_conversation in *. rewrite Hr, lookup_insert_ne by assumption. assumption.
      * unfold getConversationAgents at 1. rewrite Hc.
        destruct (decide (c = c0)) as [<- | Hcc].
        -- rewrite lookup_insert_eq. simpl. apply Hmem. right. assumption.
        -- rewrite lookup_insert_ne by assumption. assumption.
Qed.

Lemma manager_invariant_spawn params child_pid st :
  manager_invariant st -> manager_invariant (spawnAgent params child_pid st).
Proof.
  destruct (spawnAgent_index params child_pid st) as (Hp & Hc).
  destruct (spawnAgent_frame params child_pid st) as (Hr & _).
  apply (manager_invariant_spawned params (mkChild child_pid None false)); auto.
Qed.

Lemma manager_invariant_spawn_exited params child_pid exit_code st :
  manager_invariant st ->
  manager_invariant (spawnAgent_exited params child_pid exit_code st).
Proof.
  destruct (spawnAgent_exited_index params child_pid exit_code st) as (Hp & Hc).
  destruct (spawnAgent_exited_frame params child_pid exit_code st) as (Hr & _).
  apply (manager_invariant_spawned params (mkChild child_pid exit_code false)); auto.
Qed.

Lemma onChildExit_conversationAgents replyId conversationId st other :
  conversationAgents (onChildExit replyId conversationId st) !! other
  = if decide (conversationId = other)
    then match filter (fun x => x <> replyId) (getConversationAgents conversationId st) with
         | [] => None
         | remaining => Some remaining
         end
    else conversationAgents st !! other.
Proof.
  unfold onChildExit, getConversationAgents. cbn [conversationAgents set_processes].
  destruct (conversationAgents st !! conversationId) as [l |] eqn:E; simpl.
  - destruct (filter (fun x => x <> replyId) l) as [| x rest] eqn:Ef; simpl.
    + destruct (decide (conversationId = other)) as [<- | Hne].
      * apply lookup_delete_eq.
      * apply lookup_delete_ne. assumption.
    + destruct (decide (conversationId = other)) as [<- | Hne].
      * apply lookup_insert_eq.
      * apply lookup_insert_ne. assumption.
  - destruct (decide (conversationId = other)) as [<- | Hne]; [assumption | reflexivity].
Qed.

Lemma manager_invariant_exit replyId conversationId st :
  manager_invariant st -> manager_invariant (onChildExit replyId conversationId st).
Proof.
  intros (Hidx & Hproc).
  destruct (onChildExit_frame replyId conversationId st) as (Hp & Hr & _).
  split.
  - intros c l. rewrite onChildExit_conversationAgents.
    destruct (decide (conversationId = c)) as [<- | Hne]; [| apply Hidx].
    destruct (filter (fun x => x <> replyId) (getConversationAgents conversationId st))
      as [| x rest] eqn:Ef; [discriminate |].
    intros [= <-]. split; [discriminate |]. rewrite <- Ef. apply NoDup_filter.
    unfold getConversationAgents.
    destruct (conversationAgents st !! conversationId) as [l0 |] eqn:E;
      [apply (Hidx _ _ E) | apply NoDup_nil_2].
  - intros r child. rewrite Hp. intros Hl. apply lookup_delete_Some in Hl.
    destruct Hl as [Hne Hl].
    destruct (Hproc r child Hl) as (Hk & c0 & Hconv & Hin).
    split; [assumption |]. exists c0. split.
    + unfold reply_conversation in *. rewrite Hr. assumption.
    + unfold getConversationAgents at 1. rewrite onChildExit_conversationAgents.
      destruct (decide (conversationId = c0)) as [<- | Hcc]; [| assumption].
      assert (r ∈ filter (fun x => x <> replyId) (getConversationAgents conversationId st))
        as Hf by (apply list_elem_of_filter; split; [congruence | assumption]).
      destruct (filter (fun x => x <> replyId) (getConversationAgents conversationId st));
        [apply elem_of_nil in Hf; contradiction | assumption].
Qed.

Lemma manager_invariant_step op st :
  manager_invariant st -> manager_invariant (run_op op st).
Proof.
  intros Hinv. pose proof (run_op_keeps_index op st) as Hk.
  destruct op; try (eapply manager_invariant_keeps; eassumption).
  - apply manager_invariant_spawn. assumption.
  - apply manager_invariant_exit. assumption.
  - split; intros ? ?; cbn; rewrite lookup_empty; discriminate.
  - apply manager_invariant_spawn_exited. assumption.
Qed.

Lemma manager_invariant_history ops st :
  manager_invariant st -> manager_invariant (run_ops ops st).
Proof.
  unfold run_ops. revert st.
  induction ops as [| op ops IH]; intros st Hinv; cbn [fold_left]; [assumption |].
  apply IH, manager_invariant_step. assumption.
Qed.

Lemma manager_invariant_initial : manager_invariant initial_state.
Proof. split; intros ? ?; cbn; rewrite lookup_empty; discriminate. Qed.

(** A reply is running when it has an entry whose child has no exit code
    and is not flagged killed. *)
Lemma isRunning_spec r st :
  isRunning r st = true
  <-> exists child, processes st !! r = Some child /\
                    exitCode child = None /\ killed child = false.
Proof.
  unfold isRunning. destruct (processes st !! r) as [child |].
  - rewrite andb_true_iff, bool_decide_eq_true, negb_true_iff. split.
    + intros [He Hk]. eauto.
    + intros (child' & [= <-] & He & Hk). auto.
  - split; [discriminate | intros (child & Hc & _); discriminate].
Qed.

(** X1. In every state the manager reaches, also through spawns whose child
    ends before its exit listener is attached, no entry of the conversation
    index is empty and none lists a reply twice; a reply that has an entry
    in the process map, whether its child runs or not, is pending and listed
    under the conversation of its pending record, and its child is not
    flagged killed; a reply is running exactly when it has an entry whose
    child has no exit code.  An entry alone does not make a reply running:
    a child that ended with an exit code during [spawnAgent] keeps its entry
    and is listed, and is not running. *)
Theorem index_is_consistent ops :
  let st := run_ops ops initial_state in
  (forall c l, conversationAgents st !! c = Some l -> l <> [] /\ NoDup l) /\
  (forall r child,
     processes st !! r = Some child ->
     killed child = false /\
     exists c, reply_conversation r st = Some c /\ r ∈ getConversationAgents c st) /\
  (forall r, isRunning r st = true
             <-> exists child, processes st !! r = Some child /\ exitCode child = None) /\
  (forall r, isRunning r st = true ->
             exists c, reply_conversation r st = Some c /\ r ∈ getConversationAgents c st) /\
  (forall params child_pid code,
     let st1 := spawnAgent_exited params child_pid (Some code) st in
     processes st1 !! p_replyId params = Some (mkChild child_pid (Some code) false) /\
     p_replyId params ∈ getConversationAgents (p_conversationId params) st1 /\
     isRunning (p_replyId params) st1 = false).
Proof.
  intros st.
  destruct (manager_invariant_history ops initial_state manager_invariant_initial)
    as (Hidx & Hproc).
  fold st in Hidx, Hproc.
  split; [exact Hidx |]. split; [exact Hproc |]. split; [| split].
  - intros r. rewrite isRunning_spec. split.
    + intros (child & E & He & _). eauto.
    + intros (child & E & He). destruct (Hproc r child E) as (Hk & _). eauto.
  - intros r Hr. apply isRunning_spec in Hr. destruct Hr as (child & E & _).
    destruct (Hproc r child E) as (_ & Hex). exact Hex.
  - intros params child_pid code st1.
    destruct (spawnAgent_exited_index params child_pid (Some code) st) as (Hp & Hc).
    fold st1 in Hp, Hc.
    assert (processes st1 !! p_replyId params = Some (mkChild child_pid (Some code) false))
      as E by (rewrite Hp; apply lookup_insert_eq).
    split; [exact E |]. split.
    + unfold getConversationAgents at 1. rewrite Hc, lookup_insert_eq. simpl.
      apply set_add_spec. left. reflexivity.
    + unfold isRunning. rewrite E. reflexivity.
Qed.

(** ** Terminating a conversation *)

Lemma terminateAgent_cancelled_kept replyId r st :
  reply_cancelled <$> pendingReplies st !! r = Some true ->
  reply_cancelled <$> pendingReplies (snd (terminateAgent replyId st)) !! r = Some true.
Proof.
  intros Hc. destruct (pendingReplies st !! replyId) as [reply |] eqn:E.
  - destruct (terminateAgent_spec replyId reply st E) as (_ & _ & _ & -> & _).
    destruct (decide (replyId = r)) as [<- | Hne].
    + rewrite lookup_insert_eq. reflexivity.
    + rewrite lookup_insert_ne by assumption. assumption.
  - rewrite terminateAgent_missing by assumption. assumption.
Qed.

Lemma terminate_all_spec (replyIds : list string) :
  forall st r,
    r ∈ replyIds -> is_Some (pendingReplies st !! r) ->
    let st' := fold_left (fun s replyId => snd (terminateAgent replyId s)) replyIds st in
    processes st' !! r = None /\
    reply_cancelled <$> pendingReplies st' !! r = Some true.
Proof.
  induction replyIds as [| r0 replyIds IH]; intros st r Hin Hs; cbn [fold_left].
  - apply elem_of_nil in Hin. contradiction.
  - destruct (decide (r ∈ replyIds)) as [Hin' | Hnot].
    + apply IH; [assumption |].
      destruct (extraction_step_terminate r0 st) as (Hp & _). apply Hp. assumption.
    + apply elem_of_cons in Hin. destruct Hin as [-> | Hin]; [| contradiction].
      destruct Hs as [reply E].
      destruct (terminateAgent_spec r0 reply st E) as (_ & Hp & _ & Hr & _).
      set (st1 := snd (terminateAgent r0 st)) in *.
      assert (processes st1 !! r0 = None) as Hp1 by (rewrite Hp; apply lookup_delete_eq).
      assert (reply_cancelled <$> pendingReplies st1 !! r0 = Some true) as Hc1
        by (rewrite Hr, lookup_insert_eq; reflexivity).
      clearbody st1. clear -Hp1 Hc1. revert st1 Hp1 Hc1.
      induction replyIds as [| r1 replyIds IH']; intros st1 Hp1 Hc1; cbn [fold_left];
        [split; assumption |].
      apply IH'.
      * destruct (keeps_index_terminate r1 st1) as (_ & _ & Hsub).
        destruct (processes (snd (terminateAgent r1 st1)) !! r0) as [child |] eqn:Ec;
          [| reflexivity].
        apply Hsub in Ec. congruence.
      * apply terminateAgent_cancelled_kept. assumption.
Qed.

(** X2. In every state the manager reaches, [terminateConversation] leaves
    no reply of the conversation running: a reply whose pending record
    belongs to the conversation is not running afterwards, and if it was
    running it is flagged cancelled.  The conversation index itself is not
    changed, and a conversation without index entry changes nothing. *)
Theorem terminateConversation_stops_all ops conversationId :
  let st := run_ops ops initial_state in
  let st' := terminateConversation conversationId st in
  (forall r, reply_conversation r st = Some conversationId ->
             isRunning r st' = false /\
             (isRunning r st = true ->
              reply_cancelled <$> pendingReplies st' !! r = Some true)) /\
  conversationAgents st' = conversationAgents st /\
  (conversationAgents st !! conversationId = None -> st' = st).
Proof.
  intros st st'.
  destruct (manager_invariant_history ops initial_state manager_invariant_initial)
    as (_ & Hproc).
  fold st in Hproc.
  split; [| split].
  - intros r Hconv.
    assert (forall child, processes st !! r = Some child ->
            processes st' !! r = None /\
            reply_cancelled <$> pendingReplies st' !! r = Some true) as Hwas.
    { intros child0 E0. destruct (Hproc r child0 E0) as (_ & c & Hc & Hin).
      assert (c = conversationId) as -> by congruence.
      subst st'. unfold terminateConversation. unfold getConversationAgents in Hin.
      destruct (conversationAgents st !! conversationId) as [l |];
        [| apply elem_of_nil in Hin; contradiction].
      apply terminate_all_spec; [assumption |].
      unfold reply_conversation in Hconv.
      destruct (pendingReplies st !! r); [eauto | discriminate]. }
    split.
    + unfold isRunning. destruct (processes st' !! r) as [child |] eqn:Ec; [| reflexivity].
      destruct (keeps_index_terminateConversation conversationId st) as (_ & _ & Hsub).
      fold st' in Hsub. pose proof (Hsub _ _ Ec) as E.
      destruct (Hwas child E) as [Hnone _]. congruence.
    + intros Hr. apply isRunning_spec in Hr. destruct Hr as (child & E & _).
      apply (Hwas child E).
  - apply keeps_index_terminateConversation.
  - intros E. subst st'. unfold terminateConversation. rewrite E. reflexivity.
Qed.

(** ** Spawn and exit *)

(** X3. On a state that satisfies the invariant of the index, spawning an
    agent for a reply that is not yet listed and then handling the exit of
    its child restores the conversation index; the reply itself stays
    pending and is no longer running. *)
Theorem spawn_then_exit_restores_index params child_pid st :
  manager_invariant st ->
  p_replyId params ∉ getConversationAgents (p_conversationId params) st ->
  let st' := onChildExit (p_replyId params) (p_conversationId params)
               (spawnAgent params child_pid st) in
  conversationAgents st' = conversationAgents st /\
  isRunning (p_replyId params) st' = false /\
  is_Some (pendingReplies st' !! p_replyId params).
Proof.
  intros (Hidx & _) Hnot st'.
  set (r := p_replyId params) in *. set (c := p_conversationId params) in *.
  destruct (spawnAgent_index params child_pid st) as (_ & Hc).
  destruct (spawnAgent_frame params child_pid st) as (Hr & _).
  destruct (onChildExit_frame r c (spawnAgent params child_pid st)) as (Hp & Hr' & _).
  fold st' in Hp, Hr'. fold r c in Hc, Hr.
  split; [| split].
  - apply map_eq. intros c'. subst st'. rewrite onChildExit_conversationAgents.
    destruct (decide (c = c')) as [<- | Hne].
    + unfold getConversationAgents at 1. rewrite Hc, lookup_insert_eq. simpl.
      unfold set_add. rewrite bool_decide_eq_false_2 by assumption.
      rewrite filter_app, filter_cons_False, filter_nil, app_nil_r by (intros Hx; apply Hx; reflexivity).
      assert (filter (fun x => x <> r) (getConversationAgents c st)
              = getConversationAgents c st) as ->.
      { clear -Hnot. induction (getConversationAgents c st) as [| x l IH]; [reflexivity |].
        apply not_elem_of_cons in Hnot. destruct Hnot as [Hx Hl].
        rewrite filter_cons_True by congruence. rewrite IH by assumption. reflexivity. }
      unfold getConversationAgents.
      destruct (conversationAgents st !! c) as [l |] eqn:E; simpl; [| reflexivity].
      destruct (Hidx c l E) as [Hne _]. destruct l; [contradiction | reflexivity].
    + rewrite Hc, lookup_insert_ne by assumption. reflexivity.
  - unfold isRunning. rewrite Hp, lookup_delete_eq. reflexivity.
  - rewrite Hr', Hr, lookup_insert_eq. eauto.
Qed.

(** ** Cleanup *)

(** X4. [cleanup] sends SIGTERM to exactly the replies that have a process
    and empties the manager: afterwards every batch and every legacy message
    is dropped, [terminateAgent] finds nothing, no reply is running, no
    conversation lists an agent and a push reaches no callback.  It writes
    nothing to the durable store: the sessions and the messages stay as they
    were. *)
Theorem cleanup_empties_manager st :
  let st' := cleanup st in
  (exists kills, os_log st' = os_log st ++ kills /\
                 forall r, SendSignal r "SIGTERM" ∈ kills <-> is_Some (processes st !! r)) /\
  db st' = db st /\
  (forall r events, handleAgentEvents r events st' = st') /\
  (forall r msg, handleAgentMessage r msg st' = st') /\
  (forall r, terminateAgent r st' = (false, st')) /\
  (forall r, isRunning r st' = false) /\
  (forall c, getConversationAgents c st' = []) /\
  (forall r msg, messageCallbacks (pushToSSEQueue r msg st') = ∅).
Proof.
  intros st'.
  split; [| split; [| split; [| split; [| split; [| split; [| split]]]]]].
  - eexists. split; [reflexivity |]. intros r.
    rewrite list_elem_of_In, in_flat_map. split.
    + intros ([r' child] & Hin & Hsig). apply list_elem_of_In, elem_of_map_to_list in Hin.
      simpl in Hsig. destruct Hsig as [Hsig | [Hsig | []]]; [| discriminate].
      injection Hsig as <-. eauto.
    + intros [child E]. exists (r, child). split; [| left; reflexivity].
      apply list_elem_of_In, elem_of_map_to_list. assumption.
  - reflexivity.
  - intros r events. apply handleAgentEvents_missing. cbn. apply lookup_empty.
  - intros r msg. unfold handleAgentMessage. cbn. rewrite lookup_empty. reflexivity.
  - intros r. apply terminateAgent_missing. cbn. apply lookup_empty.
  - intros r. unfold isRunning. cbn. rewrite lookup_empty. reflexivity.
  - intros c. unfold getConversationAgents. cbn. rewrite lookup_empty. reflexivity.
  - intros r msg. rewrite push_unsubscribed; [reflexivity |]. cbn. apply lookup_empty.
Qed.

(** ** The last terminal handler wins *)

(** What [saveMessages] stores depends on the [message] table only. *)
Lemma saveMessages_messages_ext conversationId msgs :
  forall d d', messages d = messages d' ->
               messages (saveMessages conversationId msgs d)
               = messages (saveMessages conversationId msgs d').
Proof.
  unfold saveMessages. induction msgs as [| m ms IH]; intros d d' Hd; [assumption |].
  cbn [fold_left]. apply IH. unfold saveMessage, message_create. rewrite Hd.
  repeat (case_scrutinee; simpl); congruence.
Qed.

(** X5. A terminal status is not absorbing in the agent-session table: for
    a pending reply that has a session row, a finished callback handled
    after a termination leaves the row [COMPLETED], a termination after the
    finished callback leaves it [CANCELLED], and in both orders the second
    handler again saves every non-empty accumulated message. *)
Theorem last_terminal_handler_wins replyId reply row st :
  pendingReplies st !! replyId = Some reply ->
  agentSessions (db st) !! replyId = Some row ->
  let cancelled_then_finished := handleAgentFinished replyId (snd (terminateAgent replyId st)) in
  let finished_then_cancelled := snd (terminateAgent replyId (handleAgentFinished replyId st)) in
  as_status <$> agentSessions (db cancelled_then_finished) !! replyId = Some COMPLETED /\
  as_status <$> agentSessions (db finished_then_cancelled) !! replyId = Some CANCELLED /\
  messages (db cancelled_then_finished)
  = messages (saveMessages (reply_conversationId reply) (reply_messages reply)
                (saveMessages (reply_conversationId reply) (reply_messages reply) (db st))) /\
  messages (db finished_then_cancelled) = messages (db cancelled_then_finished).
Proof.
  intros E Ea ctf ftc.
  destruct (terminateAgent_spec replyId reply st E)
    as (_ & _ & _ & Hr1 & _ & _ & _ & _ & _ & Hm1 & Ha1 & _).
  set (st1 := snd (terminateAgent replyId st)) in *.
  assert (pendingReplies st1 !! replyId = Some (with_flags true true reply)) as E1
    by (rewrite Hr1; apply lookup_insert_eq).
  assert (pendingReplies (handleAgentFinished replyId st) !! replyId
          = Some (with_flags true (reply_cancelled reply) reply)) as E2
    by (rewrite handleAgentFinished_pending, E; apply lookup_insert_eq).
  destruct (terminateAgent_spec replyId _ (handleAgentFinished replyId st) E2)
    as (_ & _ & _ & _ & _ & _ & _ & _ & _ & Hm2 & Ha2 & _).
  fold ftc in Hm2, Ha2.
  pose proof (saveMessages_messages_ext (reply_conversationId reply) (reply_messages reply))
    as Hsave.
  split; [| split; [| split]].
  - subst ctf. rewrite handleAgentFinished_session, Ha1, Ea, lookup_insert_eq. reflexivity.
  - rewrite Ha2, handleAgentFinished_session, Ea. simpl. rewrite lookup_insert_eq. reflexivity.
  - subst ctf. rewrite (handleAgentFinished_messages _ _ _ E1). simpl.
    apply Hsave. assumption.
  - rewrite Hm2. simpl. subst ctf. rewrite (handleAgentFinished_messages _ _ _ E1). simpl.
    apply Hsave. rewrite (handleAgentFinished_messages _ _ _ E), Hm1. reflexivity.
Qed.

(** ** Fan-out to the callbacks *)

Lemma fmap_app_nil (o : option (list (list (option SSEMessage)))) :
  map (fun q => q ++ []) <$> o = o.
Proof.
  destruct o as [l |]; [| reflexivity]. simpl. f_equal.
  induction l as [| q l IH]; [reflexivity |]. simpl. rewrite app_nil_r, IH. reflexivity.
Qed.

Lemma fmap_app_app (a b : list (option SSEMessage)) (o : option (list (list (option SSEMessage)))) :
  map (fun q => q ++ b) <$> (map (fun q => q ++ a) <$> o) = map (fun q => q ++ (a ++ b)) <$> o.
Proof.
  destruct o as [l |]; [| reflexivity]. simpl. f_equal.
  rewrite map_map. apply map_ext. intros q. rewrite app_assoc. reflexivity.
Qed.

Lemma delivered_same st st' :
  messageCallbacks st' = messageCallbacks st -> sse_trace st' = sse_trace st ->
  delivered st st'.
Proof.
  intros Hc Ht. exists []. rewrite app_nil_r. split; [assumption |].
  intros r. rewrite Hc, filter_nil. simpl. symmetry. apply fmap_app_nil.
Qed.

Lemma delivered_trans st1 st2 st3 :
  delivered st1 st2 -> delivered st2 st3 -> delivered st1 st3.
Proof.
  intros (p12 & Ht12 & Hc12) (p23 & Ht23 & Hc23). exists (p12 ++ p23). split.
  - rewrite Ht23, Ht12, app_assoc. reflexivity.
  - intros r. rewrite Hc23, Hc12, fmap_app_app, filter_app, map_app. reflexivity.
Qed.

Lemma delivered_push replyId msg st : delivered st (pushToSSEQueue replyId msg st).
Proof.
  exists [(replyId, msg)]. split; [apply push_trace |].
  intros r. destruct (decide (r = replyId)) as [-> | Hne].
  - rewrite push_callbacks, filter_cons_True by reflexivity. reflexivity.
  - rewrite push_callbacks_other by assumption.
    rewrite filter_cons_False by (simpl; congruence). simpl. symmetry. apply fmap_app_nil.
Qed.

(** Delivery is a matter of the callbacks and of the trace only. *)
Lemma delivered_ext st1 st1' st2 st2' :
  messageCallbacks st1' = messageCallbacks st1 -> sse_trace st1' = sse_trace st1 ->
  messageCallbacks st2' = messageCallbacks st2 -> sse_trace st2' = sse_trace st2 ->
  delivered st1 st2 -> delivered st1' st2'.
Proof.
  intros Hc1 Ht1 Hc2 Ht2 (pushed & Ht & Hc). exists pushed.
  rewrite Ht1, Ht2, Hc1, Hc2. auto.
Qed.

Lemma push_callbacks_ext replyId msg st1 st2 :
  messageCallbacks st1 = messageCallbacks st2 ->
  messageCallbacks (pushToSSEQueue replyId msg st1)
  = messageCallbacks (pushToSSEQueue replyId msg st2).
Proof.
  intros Hc. unfold pushToSSEQueue. rewrite Hc.
  destruct (messageCallbacks st2 !! replyId); simpl; rewrite ?Hc; reflexivity.
Qed.

Lemma extract_callbacks replyId textContent st :
  delivered st (extractAndPushTestcases replyId textContent st).
Proof.
  rewrite extractAndPushTestcases_unfold.
  case_bool_decide; [apply delivered_same; reflexivity |].
  destruct (testcases_payload textContent) as [m |]; [| apply delivered_same; reflexivity].
  eapply delivered_trans;
    [apply (delivered_same st (set_extractedTestcaseReplies (fun s => {[replyId]} ∪ s) st));
     reflexivity |].
  apply delivered_push.
Qed.

Lemma delivered_event replyId event st : delivered st (handleAgentEvent replyId event st).
Proof.
  destruct event; cbn [handleAgentEvent].
  - eapply delivered_trans;
      [apply (delivered_same st (update_reply replyId (append_text content) st)); reflexivity |].
    eapply delivered_trans; [apply (delivered_push replyId (Some (SseChunk content))) |].
    apply extract_callbacks.
  - apply delivered_push.
  - destruct (isToolHidden name); [apply delivered_same; reflexivity | apply delivered_push].
  - destruct (isToolHidden name || bool_decide (id ∈ hiddenToolCallIds st));
      [apply delivered_same; reflexivity | apply delivered_push].
  - eapply delivered_trans; [| apply delivered_push].
    apply delivered_same; [apply coordinator_callbacks | apply coordinator_trace].
  - apply delivered_same; reflexivity.
Qed.

Lemma delivered_events replyId events st : delivered st (handleAgentEvents replyId events st).
Proof.
  unfold handleAgentEvents.
  destruct (pendingReplies st !! replyId); [| apply delivered_same; reflexivity].
  revert st. induction events as [| e events IH]; intros st; cbn [fold_left].
  - apply delivered_same; reflexivity.
  - eapply delivered_trans; [apply (delivered_event replyId e) | apply IH].
Qed.

Lemma delivered_message replyId msg st : delivered st (handleAgentMessage replyId msg st).
Proof.
  unfold handleAgentMessage.
  destruct (pendingReplies st !! replyId) as [reply |]; [| apply delivered_same; reflexivity].
  destruct (parse_content (msg_content msg)) as [textContent thinkingContent].
  eapply delivered_trans; [| apply extract_callbacks].
  eapply delivered_trans;
    [| destruct (str_truthy textContent);
       [apply delivered_push | apply delivered_same; reflexivity]].
  eapply delivered_trans;
    [| destruct (str_truthy thinkingContent);
       [apply delivered_push | apply delivered_same; reflexivity]].
  apply delivered_same; reflexivity.
Qed.

Lemma handleAgentFinished_callbacks replyId st :
  messageCallbacks (handleAgentFinished replyId st)
  = messageCallbacks (pushToSSEQueue replyId None st).
Proof.
  unfold handleAgentFinished.
  match goal with
  | |- context [match processes ?s !! replyId with _ => _ end] =>
      destruct (processes s !! replyId)
  end; cbn [messageCallbacks set_processes set_os_log];
    rewrite status_callbacks; apply push_callbacks_ext;
    destruct (pendingReplies st !! replyId); reflexivity.
Qed.

Lemma delivered_finished replyId st : delivered st (handleAgentFinished replyId st).
Proof.
  apply (delivered_ext st st (pushToSSEQueue replyId None st));
    [reflexivity | reflexivity | apply handleAgentFinished_callbacks | | apply delivered_push].
  rewrite handleAgentFinished_trace, push_trace. reflexivity.
Qed.

Lemma terminateAgent_callbacks replyId st :
  is_Some (pendingReplies st !! replyId) ->
  messageCallbacks (snd (terminateAgent replyId st))
  = messageCallbacks (pushToSSEQueue replyId None (pushToSSEQueue replyId cancel_message st)).
Proof.
  intros [reply E]. unfold terminateAgent. rewrite E. cbn [snd].
  rewrite status_callbacks. apply push_callbacks_ext, push_callbacks_ext.
  destruct (processes st !! replyId); reflexivity.
Qed.

Lemma delivered_terminate replyId st : delivered st (snd (terminateAgent replyId st)).
Proof.
  destruct (pendingReplies st !! replyId) as [reply |] eqn:E.
  - apply (delivered_ext st st
             (pushToSSEQueue replyId None (pushToSSEQueue replyId cancel_message st)));
      [reflexivity | reflexivity | apply terminateAgent_callbacks; rewrite E; eauto | |].
    + destruct (terminateAgent_spec replyId reply st E) as (_ & _ & _ & _ & _ & _ & _ & Ht & _).
      rewrite Ht, !push_trace, <- app_assoc. reflexivity.
    + eapply delivered_trans; apply delivered_push.
  - rewrite terminateAgent_missing by assumption. apply delivered_same; reflexivity.
Qed.

Lemma delivered_terminateConversation conversationId st :
  delivered st (terminateConversation conversationId st).
Proof.
  unfold terminateConversation.
  destruct (conversationAgents st !! conversationId) as [l |];
    [| apply delivered_same; reflexivity].
  revert st. induction l as [| r l IH]; intros st; cbn [fold_left].
  - apply delivered_same; reflexivity.
  - eapply delivered_trans; [apply (delivered_terminate r) | apply IH].
Qed.

Lemma run_op_delivered op st : is_agent_op op = true -> delivered st (run_op op st).
Proof.
  intros Hop. destruct op; cbn [run_op]; try discriminate.
  - destruct (spawnAgent_frame params child_pid st) as (_ & _ & _ & Htr & Hcb).
    apply delivered_same; assumption.
  - destruct (onChildExit_frame replyId conversationId st)
      as (_ & _ & Hcb & _ & _ & _ & _ & Htr).
    apply delivered_same; assumption.
  - apply delivered_message.
  - apply delivered_events.
  - apply delivered_finished.
  - apply delivered_terminate.
  - apply delivered_terminateConversation.
  - destruct (spawnAgent_exited_frame params child_pid exit_code st)
      as (_ & _ & _ & Htr & Hcb).
    apply delivered_same; assumption.
  - apply delivered_same; reflexivity.
Qed.

Lemma run_ops_delivered ops st :
  forallb is_agent_op ops = true -> delivered st (run_ops ops st).
Proof.
  unfold run_ops. revert st.
  induction ops as [| op ops IH]; intros st Hops; cbn [fold_left].
  - apply delivered_same; reflexivity.
  - simpl in Hops. apply andb_true_iff in Hops. destruct Hops as [Hop Hops].
    eapply delivered_trans; [apply (run_op_delivered op st Hop) | apply IH; assumption].
Qed.

Lemma delivered_lookup st st' r :
  delivered st st' ->
  messageCallbacks st' !! r
  = map (fun q => q ++ pushed_since (length (sse_trace st)) r st') <$> messageCallbacks st !! r.
Proof.
  intros (pushed & Ht & Hc). rewrite Hc. unfold pushed_since.
  rewrite Ht, drop_app_length. reflexivity.
Qed.

(** X6. Over any sequence of calls made on behalf of the agent or the user
    (spawn, exit of a child, legacy messages, event batches, the finished
    signal, termination of a reply or of a conversation), every callback
    that is registered receives exactly the messages pushed for its reply,
    in push order, whatever is pushed for other replies; in particular the
    callbacks of one reply all receive the same messages. *)
Theorem pushes_are_delivered_in_order ops st :
  forallb is_agent_op ops = true ->
  let st' := run_ops ops st in
  forall r callbacks,
    messageCallbacks st !! r = Some callbacks ->
    messageCallbacks st' !! r
    = Some (map (fun q => q ++ pushed_since (length (sse_trace st)) r st') callbacks).
Proof.
  intros Hops st' r callbacks E. subst st'.
  rewrite (delivered_lookup st _ r (run_ops_delivered ops st Hops)), E. reflexivity.
Qed.

(** ** The stream of a reply *)

Lemma drain_spec conversationId queue :
  drain conversationId queue
  = (map FMessage (before_end queue) ++ (if has_end queue then [FDone conversationId] else []),
     has_end queue).
Proof.
  induction queue as [| [m |] queue IH]; cbn [drain before_end]; [reflexivity | | reflexivity].
  rewrite IH. reflexivity.
Qed.

(** X7. A stream that has subscribed to a reply nobody else listens to
    yields, at its next turn, exactly the messages pushed for the reply
    since it subscribed, in push order and up to the first end signal.  It
    then ends with [done] when an end signal was pushed or the reply has no
    running process, and with a [heartbeat] otherwise.  A stream that ended
    has removed its callback, and whatever the agent or the user does later
    reaches no queue; a stream that goes on has emptied its queue. *)
Theorem stream_yields_pushes_in_order s ops st0 :
  stream_returned s = false ->
  messageCallbacks st0 !! stream_replyId s = None ->
  forallb is_agent_op ops = true ->
  let r := stream_replyId s in
  let st := sendMessageStreaming_subscribe s st0 in
  let st' := run_ops ops st in
  let pushed := pushed_since (length (sse_trace st)) r st' in
  let s' := fst (sendMessageStreaming_poll s st') in
  let st'' := snd (sendMessageStreaming_poll s st') in
  stream_returned s' = has_end pushed || negb (isRunning r st') /\
  stream_frames s'
  = stream_frames s ++ map FMessage (before_end pushed)
      ++ [if stream_returned s' then FDone (stream_conversationId s) else FHeartbeat] /\
  messageCallbacks st'' !! r = (if stream_returned s' then None else Some [[]]) /\
  (stream_returned s' = true ->
   forall later, forallb is_agent_op later = true ->
                 messageCallbacks (run_ops later st'') !! r = None).
Proof.
  intros Hopen Hnone Hops r st st' pushed s' st''.
  assert (messageCallbacks st' !! r = Some [pushed]) as Hq.
  { subst st' pushed. rewrite (delivered_lookup st _ r (run_ops_delivered ops st Hops)).
    subst st r. unfold sendMessageStreaming_subscribe, registerSSECallback.
    cbn [messageCallbacks set_messageCallbacks]. rewrite lookup_insert_eq, Hnone. reflexivity. }
  assert (stream_queue s st' = pushed) as Hsq.
  { unfold stream_queue. fold r. rewrite Hq. reflexivity. }
  assert (forall st1, messageCallbacks st1 !! r = None ->
            forall later, forallb is_agent_op later = true ->
                          messageCallbacks (run_ops later st1) !! r = None) as Hlater.
  { intros st1 E later Hl.
    rewrite (delivered_lookup st1 _ r (run_ops_delivered later st1 Hl)), E. reflexivity. }
  subst s' st''. unfold sendMessageStreaming_poll. rewrite Hopen, Hsq, drain_spec.
  clearbody pushed. fold r.
  destruct (has_end pushed) eqn:Hend; cbn [orb].
  - cbn [fst snd stream_returned stream_frames].
    assert (messageCallbacks (removeSSECallbacks r st') !! r = None) as Hrm
      by apply lookup_delete_eq.
    split; [reflexivity |]. split; [reflexivity |]. split; [exact Hrm |].
    intros _. apply Hlater. exact Hrm.
  - assert (isRunning r (clear_queue s st') = isRunning r st') as -> by reflexivity.
    destruct (isRunning r st'); cbn [negb fst snd stream_returned stream_frames].
    + split; [reflexivity |]. split; [rewrite app_nil_r, app_assoc; reflexivity |].
      split; [| discriminate].
      unfold clear_queue. cbn [messageCallbacks set_messageCallbacks]. fold r.
      rewrite Hq. apply lookup_insert_eq.
    + assert (messageCallbacks (removeSSECallbacks r (clear_queue s st')) !! r = None) as Hrm
        by apply lookup_delete_eq.
      split; [reflexivity |]. split; [rewrite app_nil_r, app_assoc; reflexivity |].
      split; [exact Hrm |]. intros _. apply Hlater. exact Hrm.
Qed.

(** ** Legacy messages *)

Lemma findIndex_Some {A} (test : A -> bool) (l : list A) (k : nat) :
  findIndex test l = Some k ->
  exists pre x post,
    l = pre ++ x :: post /\ length pre = k /\ test x = true /\
    Forall (fun y => test y = false) pre.
Proof.
  revert k. induction l as [| y l IH]; intros k E; simpl in E; [discriminate |].
  destruct (test y) eqn:Hy.
  - injection E as <-. exists [], y, l.
    split; [reflexivity |]. split; [reflexivity |]. split; [assumption | constructor].
  - destruct (findIndex test l) as [k' |]; [| discriminate]. simpl in E. injection E as <-.
    destruct (IH k' eq_refl) as (pre & x & post & -> & Hlen & Hx & Hpre).
    exists (y :: pre), x, post.
    split; [reflexivity |]. split; [simpl; rewrite Hlen; reflexivity |].
    split; [assumption | constructor; assumption].
Qed.

Lemma findIndex_None {A} (test : A -> bool) (l : list A) :
  findIndex test l = None -> Forall (fun y => test y = false) l.
Proof.
  induction l as [| y l IH]; intros E; simpl in E; [constructor |].
  destruct (test y) eqn:Hy; [discriminate |].
  destruct (findIndex test l); [discriminate |]. constructor; [assumption | apply IH; reflexivity].
Qed.

Lemma findIndex_never {A} (test : A -> bool) (l : list A) :
  (forall x, test x = false) -> findIndex test l = None.
Proof.
  intros Hf. induction l as [| y l IH]; simpl; [reflexivity |]. rewrite Hf, IH. reflexivity.
Qed.

Lemma filter_none {A} (P : A -> Prop) `{forall x, Decision (P x)} (l : list A) :
  Forall (fun x => ~ P x) l -> filter P l = [].
Proof.
  induction 1 as [| x l Hx _ IH]; [reflexivity |].
  rewrite filter_cons_False by assumption. assumption.
Qed.

(** The list [handleAgentMessage] leaves in [reply.messages], by id. *)
Lemma merge_step (msg : AgentMessageData) (stored : list AgentMessageData) :
  let messageId := default EmptyString (msg_id msg) in
  let msgs :=
    match findIndex (fun m => bool_decide (msg_id m = Some messageId) && str_truthy messageId)
                    stored with
    | Some existingIdx =>
        match stored !! existingIdx with
        | Some existing => <[existingIdx := accumulate existing (message_text msg)]> stored
        | None => stored
        end
    | None => stored ++ [stored_message msg]
    end in
  (forall i, i <> EmptyString ->
     filter (fun m => msg_id m = Some i) msgs
     = if decide (msg_id msg = Some i)
       then merge_message (filter (fun m => msg_id m = Some i) stored) msg
       else filter (fun m => msg_id m = Some i) stored) /\
  filter has_no_id msgs
  = if decide (has_no_id msg) then filter has_no_id stored ++ [stored_message msg]
    else filter has_no_id stored.
Proof.
  intros messageId msgs.
  destruct (str_truthy messageId) eqn:Hid.
  - (* an id to merge on *)
    assert (msg_id msg = Some messageId /\ messageId <> EmptyString) as [Hmsg Hne].
    { subst messageId. destruct (msg_id msg) as [j |]; [| discriminate]. simpl in *.
      split; [reflexivity |]. intros ->. discriminate. }
    assert (~ has_no_id msg) as Hhas.
    { unfold has_no_id. rewrite Hmsg. intros [E | E]; [discriminate | congruence]. }
    assert (forall m, msg_id m = Some messageId -> ~ has_no_id m) as Hhas'.
    { intros m E. unfold has_no_id. rewrite E. intros [E' | E']; [discriminate | congruence]. }
    subst msgs.
    destruct (findIndex _ stored) as [k |] eqn:Hfind.
    + apply findIndex_Some in Hfind.
      destruct Hfind as (pre & x & post & -> & Hlen & Hx & Hpre).
      rewrite andb_true_r in Hx. apply bool_decide_eq_true in Hx.
      assert (Forall (fun y => msg_id y <> Some messageId) pre) as Hpre'.
      { eapply Forall_impl; [exact Hpre |]. intros y Hy. simpl in Hy.
        rewrite andb_true_r in Hy. apply bool_decide_eq_false in Hy. exact Hy. }
      assert ((pre ++ x :: post) !! k = Some x) as ->
        by (subst k; apply list_lookup_middle; reflexivity).
      assert (<[k := accumulate x (message_text msg)]> (pre ++ x :: post)
              = pre ++ accumulate x (message_text msg) :: post) as ->.
      { subst k. replace (length pre) with (length pre + 0)%nat by lia.
        rewrite insert_app_r. reflexivity. }
      split.
      * intros i Hi. rewrite !filter_app.
        destruct (decide (msg_id msg = Some i)) as [E | E].
        -- assert (i = messageId) as -> by congruence.
           rewrite (filter_none _ pre) by exact Hpre'.
           rewrite !filter_cons_True by (cbn [accumulate msg_id]; assumption). reflexivity.
        -- assert (messageId <> i) by congruence.
           rewrite !filter_cons_False by (cbn [accumulate msg_id]; congruence). reflexivity.
      * rewrite decide_False by assumption. rewrite !filter_app.
        rewrite !filter_cons_False by (apply Hhas'; cbn [accumulate msg_id]; assumption).
        reflexivity.
    + apply findIndex_None in Hfind.
      assert (Forall (fun y => msg_id y <> Some messageId) stored) as Hnone.
      { eapply Forall_impl; [exact Hfind |]. intros y Hy. simpl in Hy.
        rewrite andb_true_r in Hy. apply bool_decide_eq_false in Hy. exact Hy. }
      split.
      * intros i Hi. rewrite filter_app.
        destruct (decide (msg_id msg = Some i)) as [E | E].
        -- assert (i = messageId) as -> by congruence.
           rewrite (filter_none _ stored) by exact Hnone.
           rewrite filter_cons_True by (cbn [stored_message msg_id]; assumption). reflexivity.
        -- rewrite filter_cons_False by (cbn [stored_message msg_id]; assumption).
           rewrite filter_nil, app_nil_r. reflexivity.
      * rewrite decide_False by assumption. rewrite filter_app.
        rewrite filter_cons_False by (apply Hhas'; cbn [stored_message msg_id]; assumption).
        rewrite filter_nil, app_nil_r. reflexivity.
  - (* no id: the message is added *)
    assert (has_no_id msg) as Hno.
    { unfold has_no_id. subst messageId. destruct (msg_id msg) as [j |]; [| left; reflexivity].
      simpl in Hid. right. f_equal. unfold str_truthy in Hid.
      apply negb_false_iff, String.eqb_eq in Hid. exact Hid. }
    subst msgs. rewrite findIndex_never by (intros x; apply andb_false_r).
    split.
    + intros i Hi. rewrite filter_app.
      assert (msg_id msg <> Some i) as E.
      { destruct Hno as [E | E]; rewrite E; [discriminate | congruence]. }
      rewrite decide_False by exact E.
      rewrite filter_cons_False by (cbn [stored_message msg_id]; exact E).
      rewrite filter_nil, app_nil_r. reflexivity.
    + rewrite decide_True by exact Hno. rewrite filter_app.
      rewrite filter_cons_True by (unfold has_no_id; cbn [stored_message msg_id]; exact Hno).
      reflexivity.
Qed.

Lemma handleAgentMessage_reply replyId msg st reply :
  pendingReplies st !! replyId = Some reply ->
  exists msgs,
    pendingReplies (handleAgentMessage replyId msg st) !! replyId
    = Some (with_messages msgs reply) /\
    (forall i, i <> EmptyString ->
       filter (fun m => msg_id m = Some i) msgs
       = if decide (msg_id msg = Some i)
         then merge_message (filter (fun m => msg_id m = Some i) (reply_messages reply)) msg
         else filter (fun m => msg_id m = Some i) (reply_messages reply)) /\
    filter has_no_id msgs
    = if decide (has_no_id msg)
      then filter has_no_id (reply_messages reply) ++ [stored_message msg]
      else filter has_no_id (reply_messages reply).
Proof.
  intros E. pose proof (merge_step msg (reply_messages reply)) as Hstep.
  cbv zeta in Hstep. unfold handleAgentMessage. rewrite E.
  assert (fst (parse_content (msg_content msg)) = message_text msg) as Htext by reflexivity.
  destruct (parse_content (msg_content msg)) as [textContent thinkingContent].
  cbn [fst] in Htext. subst textContent.
  eexists. split; [| exact Hstep].
  rewrite extract_pendingReplies.
  destruct (str_truthy (message_text msg)), (str_truthy thinkingContent);
    rewrite ?push_pendingReplies, update_reply_lookup, decide_True, E by reflexivity;
    reflexivity.
Qed.

Lemma merge_messages_from (existing : AgentMessageData) (t : string)
    (more : list AgentMessageData) :
  _accumulated_content existing = Some t ->
  exists m,
    fold_left merge_message more [existing] = [m] /\
    msg_id m = msg_id existing /\ msg_role m = msg_role existing /\
    _accumulated_content m = Some (t +:+ join (map message_text more)).
Proof.
  revert existing t. induction more as [| msg more IH]; intros existing t Ht; cbn [fold_left].
  - exists existing. simpl. rewrite append_nil_r. auto.
  - destruct (IH (accumulate existing (message_text msg)) (t +:+ message_text msg))
      as (m & Hm & Hid & Hrole & Hacc).
    { cbn [accumulate _accumulated_content]. rewrite Ht. reflexivity. }
    exists m. split; [exact Hm |]. split; [exact Hid |]. split; [exact Hrole |].
    rewrite Hacc. simpl. rewrite append_assoc. reflexivity.
Qed.

Lemma legacy_messages_fold replyId (legacy : list AgentMessageData) :
  forall st reply,
    pendingReplies st !! replyId = Some reply ->
    exists stored,
      pendingReplies (fold_left (fun acc msg => handleAgentMessage replyId msg acc) legacy st)
        !! replyId = Some (with_messages stored reply) /\
      (forall i, i <> EmptyString ->
         filter (fun m => msg_id m = Some i) stored
         = fold_left merge_message (filter (fun m => msg_id m = Some i) legacy)
                     (filter (fun m => msg_id m = Some i) (reply_messages reply))) /\
      filter has_no_id stored
      = filter has_no_id (reply_messages reply) ++ map stored_message (filter has_no_id legacy).
Proof.
  induction legacy as [| msg legacy IH]; intros st reply E; cbn [fold_left].
  - exists (reply_messages reply). split; [rewrite E; destruct reply; reflexivity |].
    split; [intros; reflexivity |]. rewrite filter_nil. simpl. rewrite app_nil_r. reflexivity.
  - destruct (handleAgentMessage_reply replyId msg st reply E) as (msgs & E1 & Hid & Hno).
    destruct (IH _ _ E1) as (stored & E2 & Hid2 & Hno2).
    exists stored. split; [exact E2 |]. split.
    + intros i Hi. rewrite (Hid2 i Hi). cbn [with_messages reply_messages].
      rewrite (Hid i Hi).
      destruct (decide (msg_id msg = Some i)) as [Ei | Ei].
      * rewrite filter_cons_True by exact Ei. reflexivity.
      * rewrite filter_cons_False by exact Ei. reflexivity.
    + rewrite Hno2. cbn [with_messages reply_messages]. rewrite Hno.
      destruct (decide (has_no_id msg)) as [Ei | Ei].
      * rewrite filter_cons_True by exact Ei. simpl. rewrite <- app_assoc. reflexivity.
      * rewrite filter_cons_False by exact Ei. reflexivity.
Qed.

(** X8. The legacy messages of a reply are merged by id.  After any number
    of them on a reply that held no message, the reply holds, for every id
    that is not empty, at most one message: none if no message carried the
    id, and otherwise one with the role of the first message that carried
    it and, as accumulated content, the texts of all the messages with that
    id one after the other.  The messages without an id (or with an empty
    one) are never merged: each is stored on its own, in arrival order. *)
Theorem legacy_messages_merge_by_id replyId reply (legacy : list AgentMessageData) st :
  pendingReplies st !! replyId = Some reply ->
  reply_messages reply = [] ->
  let st' := fold_left (fun acc msg => handleAgentMessage replyId msg acc) legacy st in
  exists stored,
    pendingReplies st' !! replyId = Some (with_messages stored reply) /\
    (forall i, i <> EmptyString ->
       match filter (fun msg => msg_id msg = Some i) legacy with
       | [] => filter (fun m => msg_id m = Some i) stored = []
       | first :: more =>
           exists m,
             filter (fun m => msg_id m = Some i) stored = [m] /\
             msg_id m = Some i /\ msg_role m = msg_role first /\
             _accumulated_content m = Some (join (map message_text (first :: more)))
       end) /\
    filter has_no_id stored = map stored_message (filter has_no_id legacy).
Proof.
  intros E Hempty st'.
  destruct (legacy_messages_fold replyId legacy st reply E) as (stored & E' & Hid & Hno).
  exists stored. split; [exact E' |]. split.
  - intros i Hi. rewrite (Hid i Hi), Hempty, filter_nil.
    destruct (filter (fun msg => msg_id msg = Some i) legacy) as [| first more] eqn:Hf;
      [reflexivity |].
    assert (msg_id first = Some i) as Hfirst.
    { assert (first ∈ filter (fun msg => msg_id msg = Some i) legacy) as Hin
        by (rewrite Hf; constructor).
      apply list_elem_of_filter in Hin. apply Hin. }
    cbn [fold_left merge_message].
    destruct (merge_messages_from (stored_message first) (message_text first) more eq_refl)
      as (m & Hm & Hmid & Hrole & Hacc).
    exists m. split; [exact Hm |]. split; [rewrite Hmid; exact Hfirst |].
    split; [exact Hrole | exact Hacc].
  - rewrite Hno, Hempty, filter_nil. reflexivity.
Qed.

Lemma legacy_push_step replyId msg st reply :
  pendingReplies st !! replyId = Some reply ->
  testcases_payload (message_text msg) = None ->
  sse_trace (handleAgentMessage replyId msg st) = sse_trace st ++ legacy_pushes replyId msg /\
  extractedTestcaseReplies (handleAgentMessage replyId msg st) = extractedTestcaseReplies st.
Proof.
  intros E Hp. unfold handleAgentMessage, legacy_pushes. rewrite E.
  unfold message_text in Hp.
  destruct (parse_content (msg_content msg)) as [textContent thinkingContent].
  cbn [fst] in Hp. rewrite extractAndPushTestcases_unfold, Hp.
  match goal with
  | |- context [if ?b then ?s else ?s] => replace (if b then s else s) with s by (destruct b; reflexivity)
  end.
  destruct (str_truthy textContent), (str_truthy thinkingContent);
    rewrite ?push_trace, ?push_extracted, ?app_nil_r, <- ?app_assoc; split; reflexivity.
Qed.

(** X9. On the legacy path the extractor is given the text of the message
    at hand, not what the reply has accumulated.  So when no single message
    carries a test-case document (each being shorter than 100 code units is
    enough), the manager pushes, for each message in turn, its thinking
    content and then its text, each if not empty, and nothing else: no
    [testcases] event, and the reply is not flagged as extracted, whatever
    the texts amount to together.  For a reply that is not pending nothing
    is done at all. *)
Theorem legacy_extraction_is_per_message replyId (legacy : list AgentMessageData) st :
  Forall (fun msg => testcases_payload (message_text msg) = None) legacy ->
  let st' := fold_left (fun acc msg => handleAgentMessage replyId msg acc) legacy st in
  (is_Some (pendingReplies st !! replyId) ->
   sse_trace st' = sse_trace st ++ flat_map (legacy_pushes replyId) legacy /\
   extractedTestcaseReplies st' = extractedTestcaseReplies st /\
   testcases_count replyId st' = testcases_count replyId st) /\
  (pendingReplies st !! replyId = None -> st' = st).
Proof.
  intros Hall st'. subst st'. split.
  - intros Hpending.
    assert (sse_trace
              (fold_left (fun acc msg => handleAgentMessage replyId msg acc) legacy st)
            = sse_trace st ++ flat_map (legacy_pushes replyId) legacy /\
            extractedTestcaseReplies
              (fold_left (fun acc msg => handleAgentMessage replyId msg acc) legacy st)
            = extractedTestcaseReplies st) as [Ht Hx].
    { revert st Hpending. induction Hall as [| msg legacy Hmsg _ IH]; intros st [reply E];
        cbn [fold_left flat_map].
      - rewrite app_nil_r. split; reflexivity.
      - destruct (legacy_push_step replyId msg st reply E Hmsg) as [Ht1 Hx1].
        destruct (handleAgentMessage_reply replyId msg st reply E) as (msgs & E1 & _).
        destruct (IH _ (ex_intro _ _ E1)) as [Ht2 Hx2].
        rewrite Ht2, Hx2, Ht1, Hx1, <- app_assoc. split; reflexivity. }
    split; [exact Ht |]. split; [exact Hx |].
    unfold testcases_count, pushed_since. rewrite Ht, !drop_0, filter_app, map_app.
    rewrite List.filter_app, length_app.
    assert (forall l : list AgentMessageData,
              List.filter is_testcases
                (map snd (filter (fun entry => fst entry = replyId)
                                 (flat_map (legacy_pushes replyId) l))) = []) as ->.
    { induction l as [| m l IHl]; [reflexivity |]. cbn [flat_map].
      rewrite filter_app, map_app, List.filter_app, IHl, app_nil_r.
      unfold legacy_pushes. destruct (parse_content (msg_content m)) as [t th].
      destruct (str_truthy t), (str_truthy th); cbn [app];
        rewrite ?filter_cons_True, ?filter_nil by reflexivity; reflexivity. }
    simpl. lia.
  - intros E. induction legacy as [| msg legacy IH]; cbn [fold_left]; [reflexivity |].
    assert (handleAgentMessage replyId msg st = st) as ->
      by (unfold handleAgentMessage; rewrite E; reflexivity).
    apply IH. inversion Hall; assumption.
Qed.

(** ** The plan of a conversation *)

Lemma updatePhaseCompleted_found conversationId p phaseOutput d existing :
  coordinatorPlans d !! conversationId = Some existing ->
  updatePhaseCompleted conversationId p phaseOutput d
  = mkDb (messages d) (agentSessions d)
         (<[conversationId :=
              mkPlan (objective existing) (plan existing)
                (if bool_decide (activePhase existing = Some p) then None
                 else activePhase existing)
                (if bool_decide (p ∈ completedPhases existing) then completedPhases existing
                 else completedPhases existing ++ [p])
                (Some match phaseOutput with
                      | Some out => if js_truthy out
                                    then <[phase_key p := out]> (default ∅ (phaseOutputs existing))
                                    else default ∅ (phaseOutputs existing)
                      | None => default ∅ (phaseOutputs existing)
                      end)
                (status existing)]> (coordinatorPlans d)).
Proof.
  intros E. unfold updatePhaseCompleted, coordinatorPlan_findUnique, coordinatorPlan_update.
  rewrite E. reflexivity.
Qed.

(** X10. Completing a phase is idempotent: a [phase_completed] update that
    is applied a second time, with the same output, leaves the store as the
    first one left it. *)
Theorem phase_completed_is_idempotent conversationId phaseIndex phaseOutput d :
  updatePhaseCompleted conversationId phaseIndex phaseOutput
    (updatePhaseCompleted conversationId phaseIndex phaseOutput d)
  = updatePhaseCompleted conversationId phaseIndex phaseOutput d.
Proof.
  destruct (coordinatorPlans d !! conversationId) as [existing |] eqn:E.
  - rewrite (updatePhaseCompleted_found _ _ _ d existing E).
    erewrite updatePhaseCompleted_found
      by (cbn [coordinatorPlans]; apply lookup_insert_eq).
    cbn [coordinatorPlans messages agentSessions
         completedPhases phaseOutputs activePhase objective plan status default].
    rewrite insert_insert_eq. f_equal. f_equal. f_equal.
    + destruct (bool_decide (activePhase existing = Some phaseIndex)) eqn:Ha;
        [reflexivity | rewrite Ha; reflexivity].
    + destruct (bool_decide (phaseIndex ∈ completedPhases existing)) eqn:Hc.
      * rewrite Hc. reflexivity.
      * rewrite bool_decide_eq_true_2; [reflexivity |].
        apply elem_of_app. right. constructor.
    + f_equal. destruct phaseOutput as [out |]; [| reflexivity].
      destruct (js_truthy out); [apply insert_insert_eq | reflexivity].
  - assert (updatePhaseCompleted conversationId phaseIndex phaseOutput d = d) as Hsame
      by (unfold updatePhaseCompleted, coordinatorPlan_findUnique; rewrite E; reflexivity).
    rewrite !Hsame. reflexivity.
Qed.

Lemma plan_update_missing conversationId f d :
  coordinatorPlans d !! conversationId = None ->
  match coordinatorPlan_update conversationId f d with
  | Some d' => d'
  | None => d
  end = d.
Proof. intros E. unfold coordinatorPlan_update. rewrite E. reflexivity. Qed.

Lemma run_update_missing conversationId u d :
  coordinatorPlans d !! conversationId = None -> run_update conversationId d u = d.
Proof.
  intros E. destruct u; cbn [run_update].
  - apply plan_update_missing. exact E.
  - unfold updatePhaseCompleted, coordinatorPlan_findUnique. rewrite E. reflexivity.
  - apply plan_update_missing. exact E.
Qed.

Lemma coordinator_no_plan replyId reply eventType data st :
  pendingReplies st !! replyId = Some reply ->
  coordinatorPlans (db st) !! reply_conversationId reply = None ->
  eventType <> "plan_created" ->
  db (handleCoordinatorEvent replyId eventType data st) = db st.
Proof.
  intros E Hnone Hty. unfold handleCoordinatorEvent. rewrite E.
  destruct (String.eqb eventType "plan_created") eqn:Ec;
    [apply String.eqb_eq in Ec; contradiction |].
  destruct (String.eqb eventType "phase_started").
  { destruct (phase_of data); [| reflexivity]. cbn [db set_db].
    apply (run_update_missing _ (PhaseStarted _)). exact Hnone. }
  destruct (String.eqb eventType "phase_completed").
  { destruct (phase_of data); [| reflexivity]. cbn [db set_db].
    apply (run_update_missing _ (PhaseCompleted _ _)). exact Hnone. }
  destruct (String.eqb eventType "task_completed").
  { cbn [db set_db]. apply (run_update_missing _ (PlanStatus _)). exact Hnone. }
  destruct (String.eqb eventType "execution_failed" || String.eqb eventType "task_failed");
    [| reflexivity].
  cbn [db set_db]. apply (run_update_missing _ (PlanStatus _)). exact Hnone.
Qed.

(** X11. The updates of a plan need a plan.  While the conversation of a
    pending reply has no plan, the coordinator events other than
    [plan_created] (a phase that starts or completes, a task that completes
    or fails) are forwarded to the stream, each as it came and in order, but
    leave the store as it was; and so do the updates of the plan service and
    [deletePlan] on a conversation without a plan. *)
Theorem plan_events_need_a_plan replyId reply (events : list (string * JSON)) st :
  pendingReplies st !! replyId = Some reply ->
  getPlan (reply_conversationId reply) (db st) = None ->
  Forall (fun ev => fst ev <> "plan_created") events ->
  let st' := handleAgentEvents replyId (map (fun ev => ECoordinator (fst ev) (snd ev)) events) st in
  db st' = db st /\
  sse_trace st'
  = sse_trace st ++ map (fun ev => (replyId, Some (SseCoordinator (fst ev) (snd ev)))) events /\
  (forall updates,
     fold_left (run_update (reply_conversationId reply)) updates (db st) = db st) /\
  deletePlan (reply_conversationId reply) (db st) = db st.
Proof.
  intros E Hnone Hall st'. unfold getPlan, coordinatorPlan_findUnique in Hnone.
  assert (db st' = db st /\
          sse_trace st'
          = sse_trace st
              ++ map (fun ev => (replyId, Some (SseCoordinator (fst ev) (snd ev)))) events)
    as [Hdb Htr].
  { subst st'. rewrite handleAgentEvents_fold by (rewrite E; eauto).
    revert st E Hnone. induction Hall as [| [ty data] events Hty _ IH]; intros st E Hnone;
      cbn [map fold_left].
    - rewrite app_nil_r. split; reflexivity.
    - cbn [fst snd] in *. cbn [handleAgentEvent].
      assert (db (pushToSSEQueue replyId (Some (SseCoordinator ty data))
                    (handleCoordinatorEvent replyId ty data st)) = db st) as Hdb1
        by (rewrite push_db; apply (coordinator_no_plan replyId reply); assumption).
      destruct (IH (pushToSSEQueue replyId (Some (SseCoordinator ty data))
                      (handleCoordinatorEvent replyId ty data st))) as [Hdb2 Htr2].
      + rewrite push_pendingReplies, coordinator_pendingReplies. exact E.
      + rewrite Hdb1. exact Hnone.
      + rewrite Hdb2, Htr2, Hdb1, push_trace, coordinator_trace, <- app_assoc.
        split; reflexivity. }
  split; [exact Hdb |]. split; [exact Htr |]. split.
  - intros updates. induction updates as [| u updates IH]; cbn [fold_left]; [reflexivity |].
    rewrite run_update_missing by exact Hnone. exact IH.
  - unfold deletePlan, coordinatorPlan_delete. rewrite Hnone. reflexivity.
Qed.

Lemma run_update_lookup conversationId u d existing :
  coordinatorPlans d !! conversationId = Some existing ->
  exists row,
    coordinatorPlans (run_update conversationId d u) !! conversationId = Some row /\
    objective row = objective existing /\ plan row = plan existing /\
    completedPhases row
    = match u with
      | PhaseCompleted p _ =>
          if bool_decide (p ∈ completedPhases existing) then completedPhases existing
          else completedPhases existing ++ [p]
      | _ => completedPhases existing
      end.
Proof.
  intros E. destruct u; cbn [run_update].
  - unfold updatePhaseStarted. rewrite plan_update_lookup, decide_True, E by reflexivity.
    eexists. split; [reflexivity |]. auto.
  - rewrite (updatePhaseCompleted_lookup _ _ _ _ _ E).
    eexists. split; [reflexivity |]. auto.
  - unfold updatePlanStatus. rewrite plan_update_lookup, decide_True, E by reflexivity.
    eexists. split; [reflexivity |]. auto.
Qed.

Lemma run_updates_completed conversationId (updates : list PlanUpdate) :
  forall d existing,
    coordinatorPlans d !! conversationId = Some existing ->
    NoDup (completedPhases existing) ->
    exists row,
      coordinatorPlans (fold_left (run_update conversationId) updates d) !! conversationId
      = Some row /\
      objective row = objective existing /\ plan row = plan existing /\
      NoDup (completedPhases row) /\
      (forall q, q ∈ completedPhases row
                 <-> q ∈ completedPhases existing \/ q ∈ completed_by updates).
Proof.
  induction updates as [| u updates IH]; intros d existing E Hnd; cbn [fold_left].
  - exists existing. split; [exact E |]. split; [reflexivity |]. split; [reflexivity |].
    split; [exact Hnd |]. intros q. unfold completed_by. simpl. rewrite elem_of_nil. tauto.
  - destruct (run_update_lookup conversationId u d existing E) as (row1 & E1 & Ho1 & Hp1 & Hc1).
    assert (NoDup (completedPhases row1) /\
            forall q, q ∈ completedPhases row1
                      <-> q ∈ completedPhases existing \/ q ∈ completed_by [u]) as [Hnd1 Hin1].
    { rewrite Hc1. unfold completed_by. destruct u as [p | p out | s]; simpl.
      - split; [exact Hnd |]. intros q. rewrite elem_of_nil. tauto.
      - case_bool_decide as Hp.
        + split; [exact Hnd |]. intros q. rewrite list_elem_of_singleton.
          split; [tauto |]. intros [Hq | ->]; assumption.
        + split.
          * apply NoDup_app. split; [exact Hnd |]. split; [| apply NoDup_singleton].
            intros x Hx Hx'. apply list_elem_of_singleton in Hx'. subst x. contradiction.
          * intros q. rewrite elem_of_app. reflexivity.
      - split; [exact Hnd |]. intros q. rewrite elem_of_nil. tauto. }
    destruct (IH _ row1 E1 Hnd1) as (row & E2 & Ho2 & Hp2 & Hnd2 & Hin2).
    exists row. split; [exact E2 |]. split; [congruence |]. split; [congruence |].
    split; [exact Hnd2 |]. intros q. rewrite Hin2, Hin1.
    change (u :: updates) with ([u] ++ updates). unfold completed_by.
    rewrite omap_app, elem_of_app. tauto.
Qed.

(** X12. From the creation of a plan on, whatever phases are started and
    completed and whatever status is set, in whatever order and however
    often, the plan stays that of the conversation, with the objective and
    the phases it was created with; the list of its completed phases holds
    exactly the phases that were completed since, each of them once. *)
Theorem completed_phases_are_distinct conversationId objective0 plan0 status0
    (updates : list PlanUpdate) d d0 :
  upsertPlan conversationId objective0 plan0 status0 d = Some d0 ->
  exists row,
    getPlan conversationId (fold_left (run_update conversationId) updates d0) = Some row /\
    objective row = objective0 /\ plan row = plan0 /\
    NoDup (completedPhases row) /\
    (forall q, q ∈ completedPhases row <-> q ∈ completed_by updates).
Proof.
  intros Hup. unfold upsertPlan, coordinatorPlan_upsert in Hup. injection Hup as <-.
  destruct (run_updates_completed conversationId updates
              (mkDb (messages d) (agentSessions d)
                    (<[conversationId := mkPlan objective0 plan0 None [] None status0]>
                       (coordinatorPlans d)))
              (mkPlan objective0 plan0 None [] None status0))
    as (row & E & Ho & Hp & Hnd & Hin).
  - cbn [coordinatorPlans]. apply lookup_insert_eq.
  - apply NoDup_nil_2.
  - exists row. split; [exact E |]. split; [exact Ho |]. split; [exact Hp |].
    split; [exact Hnd |]. intros q. rewrite Hin. cbn [completedPhases].
    rewrite elem_of_nil. tauto.
Qed.

(** X13. [deletePlan] removes the plan of the conversation and nothing
    else: [getPlan] then finds none, the plans of the other conversations,
    the messages and the agent sessions are as before; deleting the plan of
    a conversation that has none is no error and changes nothing; and
    deleting a plan that was created on a conversation without one restores
    the store. *)
Theorem deletePlan_removes_the_plan conversationId d :
  let d' := deletePlan conversationId d in
  getPlan conversationId d' = None /\
  (forall other, other <> conversationId -> getPlan other d' = getPlan other d) /\
  messages d' = messages d /\ agentSessions d' = agentSessions d /\
  (getPlan conversationId d = None -> d' = d) /\
  (forall objective0 plan0 status0 created,
     getPlan conversationId d = None ->
     upsertPlan conversationId objective0 plan0 status0 d = Some created ->
     deletePlan conversationId created = d).
Proof.
  intros d'. subst d'.
  unfold deletePlan, coordinatorPlan_delete, getPlan, coordinatorPlan_findUnique.
  destruct (coordinatorPlans d !! conversationId) as [row |] eqn:E; cbn [coordinatorPlans].
  - split; [apply lookup_delete_eq |].
    split; [intros other Hne; apply lookup_delete_ne; congruence |].
    split; [reflexivity |]. split; [reflexivity |]. split; discriminate.
  - split; [exact E |]. split; [reflexivity |]. split; [reflexivity |]. split; [reflexivity |].
    split; [reflexivity |].
    intros objective0 plan0 status0 created _ Hup.
    unfold upsertPlan, coordinatorPlan_upsert in Hup. injection Hup as <-.
    cbn [coordinatorPlans messages agentSessions]. rewrite lookup_insert_eq.
    rewrite delete_insert_id by exact E. destruct d; reflexivity.
Qed.

(** ** The hook of the agent *)

Lemma str_truthy_true (s : string) : str_truthy s = true <-> s <> EmptyString.
Proof.
  unfold str_truthy. rewrite negb_true_iff. split.
  - intros Hs ->. discriminate.
  - intros Hs. apply String.eqb_neq. exact Hs.
Qed.

Lemma handleAgentMessage_missing replyId msg st :
  pendingReplies st !! replyId = None -> handleAgentMessage replyId msg st = st.
Proof. intros E. unfold handleAgentMessage. rewrite E. reflexivity. Qed.

(** X14. The hook route answers for a reply the manager does not know as
    for any other.  A request with a body is answered with success exactly
    when the body names a reply and carries an array of events or a
    message; otherwise with a 400, [Missing replyId] when no reply is named
    and [Missing events or msg] when one is.  A request without a body is
    answered by the [catch] of the route, with status 200 and
    [success: false], and that is the only request so answered.  In every
    case nothing is stored, pushed to a stream or broadcast: the state of
    the manager is the one before the request. *)
Theorem hook_for_unknown_reply io request_body st :
  (forall body r, request_body = Some body -> hook_replyId body = Some r ->
                  pendingReplies st !! r = None) ->
  let result := pushMessageToChatAgent io request_body st in
  let names_reply body := exists r, hook_replyId body = Some r /\ r <> EmptyString in
  let carries body := is_Some (hook_events body) \/ is_Some (hook_msg body) in
  snd (fst result) = st /\ snd result = [] /\
  (fst (fst result) = HookSuccess
   <-> exists body, request_body = Some body /\ names_reply body /\ carries body) /\
  (fst (fst result) = HookError 400 "Missing events or msg"
   <-> exists body, request_body = Some body /\ names_reply body /\ ~ carries body) /\
  (fst (fst result) = HookError 400 "Missing replyId"
   <-> exists body, request_body = Some body /\ ~ names_reply body) /\
  (fst (fst result) = HookCaught <-> request_body = None).
Proof.
  intros Hunknown result names_reply carries. subst result. unfold pushMessageToChatAgent.
  destruct request_body as [body |]; cycle 1.
  { cbn [fst snd]. repeat split; try discriminate; try reflexivity;
      intros (body & Hb & _); discriminate. }
  assert (forall P : HookBody -> Prop, (exists body', Some body = Some body' /\ P body') <-> P body)
    as Hbody.
  { intros P. split; [intros (body' & [= <-] & HP); exact HP | intros HP; eauto]. }
  rewrite !Hbody. clear Hbody. subst names_reply carries. cbn beta.
  specialize (Hunknown body).
  destruct (hook_replyId body) as [r |] eqn:Er.
  - specialize (Hunknown r eq_refl eq_refl).
    destruct (str_truthy r) eqn:Hr.
    + apply str_truthy_true in Hr.
      assert (exists r', Some r = Some r' /\ r' <> EmptyString) as Hnames by eauto.
      destruct (hook_events body) as [events |] eqn:Ee.
      * unfold handlePushEvents, getPendingReply.
        rewrite handleAgentEvents_missing, Hunknown by exact Hunknown. cbn [fst snd].
        assert (is_Some (Some events) \/ is_Some (hook_msg body)) as Hcarries by (left; eauto).
        repeat split; try discriminate; try tauto.
      * destruct (hook_msg body) as [msg |] eqn:Em.
        -- unfold handlePushMessage, getPendingReply.
           rewrite handleAgentMessage_missing, Hunknown by exact Hunknown. cbn [fst snd].
           assert (is_Some (@None (list AgentEvent)) \/ is_Some (Some msg)) as Hcarries
             by (right; eauto).
           repeat split; try discriminate; try tauto.
        -- cbn [fst snd].
           assert (~ (is_Some (@None (list AgentEvent)) \/ is_Some (@None AgentMessageData)))
             as Hcarries by (intros [[x Hx] | [x Hx]]; discriminate).
           repeat split; try discriminate; try tauto.
    + assert (~ exists r', Some r = Some r' /\ r' <> EmptyString) as Hnames.
      { intros (r' & [= <-] & Hne). apply str_truthy_true in Hne. congruence. }
      cbn [fst snd]. repeat split; try discriminate; try tauto.
  - assert (~ exists r', @None string = Some r' /\ r' <> EmptyString) as Hnames
      by (intros (r' & Hr' & _); discriminate).
    cbn [fst snd]. repeat split; try discriminate; try tauto.
Qed.

Lemma hidden_events_silent replyId (events : list AgentEvent) :
  forallb is_hidden_tool_event events = true ->
  forall st,
    sse_trace (fold_left (fun s event => handleAgentEvent replyId event s) events st)
    = sse_trace st /\
    messageCallbacks (fold_left (fun s event => handleAgentEvent replyId event s) events st)
    = messageCallbacks st.
Proof.
  induction events as [| e events IH]; intros Hall st; cbn [fold_left]; [split; reflexivity |].
  simpl in Hall. apply andb_true_iff in Hall. destruct Hall as [He Hall].
  destruct (IH Hall (handleAgentEvent replyId e st)) as [Ht Hc]. rewrite Ht, Hc.
  destruct e; try discriminate; cbn [is_hidden_tool_event] in He; cbn [handleAgentEvent];
    rewrite He; split; reflexivity.
Qed.

(** X15. What the hook broadcasts over Socket.IO is not what it streams.
    For a pending reply a batch of events is broadcast whole, as it was
    posted, to the room of the conversation the reply belongs to (and not at
    all when Socket.IO is not initialised, which the hook survives); the
    display rules do not apply to it.  A batch that only holds calls and
    results of hidden tools thus adds nothing to the stream, and is
    broadcast all the same. *)
Theorem hook_broadcasts_whole_batch io replyId reply (events : list AgentEvent) st :
  pendingReplies st !! replyId = Some reply ->
  let result := handlePushEvents io replyId events st in
  fst result = handleAgentEvents replyId events st /\
  snd result
  = (if io
     then [PushReplies (chatRoom (reply_conversationId reply)) replyId (HookEvents events)]
     else []) /\
  (forallb is_hidden_tool_event events = true ->
   sse_trace (fst result) = sse_trace st /\
   messageCallbacks (fst result) = messageCallbacks st).
Proof.
  intros E result. subst result. unfold handlePushEvents, getPendingReply.
  destruct (keeps_index_events replyId events st) as (_ & Hconv & _).
  specialize (Hconv replyId). unfold reply_conversation in Hconv. rewrite E in Hconv.
  destruct (pendingReplies (handleAgentEvents replyId events st) !! replyId) as [reply' |];
    [| discriminate].
  simpl in Hconv. injection Hconv as Hconv. rewrite Hconv.
  assert (forallb is_hidden_tool_event events = true ->
          sse_trace (handleAgentEvents replyId events st) = sse_trace st /\
          messageCallbacks (handleAgentEvents replyId events st) = messageCallbacks st) as Hsilent.
  { intros Hall. rewrite handleAgentEvents_fold by (rewrite E; eauto).
    apply hidden_events_silent. exact Hall. }
  unfold broadcastMessage. destruct io; cbn [fst snd]; auto.
Qed.

(** X16. A finished signal for a reply the manager does not know (one that
    was cleaned up, or one of an earlier run of the server) is answered
    with success and is not broadcast, but it is not ignored: the end
    signal is pushed for the reply and its session, if the store has one,
    is marked as completed.  No message is saved and no reply becomes
    pending. *)
Theorem finished_signal_for_unknown_reply io replyId st :
  pendingReplies st !! replyId = None ->
  replyId <> EmptyString ->
  let result := pushFinishedSignalToChatAgent io (Some (mkFinishedBody (Some replyId))) st in
  let st' := snd (fst result) in
  fst (fst result) = HookSuccess /\ snd result = [] /\
  pendingReplies st' = pendingReplies st /\
  messages (db st') = messages (db st) /\
  sse_trace st' = sse_trace st ++ [(replyId, None)] /\
  agentSessions (db st') !! replyId
  = (fun row => mkSession (as_conversationId row) (as_userId row) COMPLETED (as_pid row)
                          (Some (clock st)))
      <$> agentSessions (db st) !! replyId /\
  isRunning replyId st' = false.
Proof.
  intros E Hne result st'. subst st' result.
  unfold pushFinishedSignalToChatAgent. cbn [finished_replyId].
  apply str_truthy_true in Hne. rewrite Hne.
  unfold handlePushFinished, getPendingReply. rewrite E. cbn [fst snd].
  split; [reflexivity |]. split; [reflexivity |].
  split; [rewrite handleAgentFinished_pending, E; reflexivity |].
  split.
  { unfold handleAgentFinished. rewrite E.
    match goal with
    | |- context [match processes ?s !! replyId with _ => _ end] =>
        destruct (processes s !! replyId)
    end; simpl; rewrite set_session_status_messages, push_db; reflexivity. }
  split; [apply handleAgentFinished_trace |].
  split; [apply handleAgentFinished_session |].
  unfold isRunning. rewrite handleAgentFinished_processes, lookup_delete_eq. reflexivity.
Qed.

(** ** The stream on the wire *)

Lemma split_blank_unfold c d rest :
  split_blank (String c (String d rest))
  = if is_newline c && is_newline d then EmptyString :: split_blank rest
    else cons_head c (split_blank (String d rest)).
Proof. reflexivity. Qed.

Lemma split_blank_nonempty s : split_blank s <> [].
Proof.
  destruct s as [| c [| d rest]]; [easy | easy |].
  rewrite split_blank_unfold.
  destruct (is_newline c && is_newline d); [easy |].
  unfold cons_head. destruct (split_blank (String d rest)); easy.
Qed.

Lemma split_blank_cons c rest :
  is_newline c = false -> split_blank (String c rest) = cons_head c (split_blank rest).
Proof.
  intros Hc. destruct rest as [| d rest']; [reflexivity |].
  rewrite split_blank_unfold, Hc. reflexivity.
Qed.

Lemma split_blank_single s : forall x, split_blank s = [x] -> x = s.
Proof.
  remember (String.length s) as n eqn:Hn. revert s Hn.
  induction n as [n IH] using lt_wf_ind. intros s Hn x Hx.
  destruct s as [| c [| d s']].
  - injection Hx as <-. reflexivity.
  - injection Hx as <-. reflexivity.
  - rewrite split_blank_unfold in Hx. destruct (is_newline c && is_newline d).
    + pose proof (split_blank_nonempty s') as Hne. injection Hx as _ Hx. contradiction.
    + destruct (split_blank (String d s')) as [| part [| part' parts]] eqn:Hs;
        cbn [cons_head] in Hx;
        [exfalso; exact (split_blank_nonempty _ Hs) | | discriminate].
      injection Hx as <-. f_equal.
      apply (IH (String.length (String d s'))); [subst n; simpl; lia | reflexivity | exact Hs].
Qed.

Lemma removelast_cons_head c parts :
  parts <> [] ->
  List.removelast (cons_head c parts)
  = match List.removelast parts with
    | [] => []
    | part :: rest => String c part :: rest
    end /\
  (List.removelast parts = [] -> parts = [List.last parts EmptyString]) /\
  List.last (cons_head c parts) EmptyString
  = match List.removelast parts with
    | [] => String c (List.last parts EmptyString)
    | _ => List.last parts EmptyString
    end.
Proof.
  intros Hne. destruct parts as [| part [| part' rest]]; [contradiction | |].
  - simpl. auto.
  - cbn [cons_head]. split; [reflexivity |]. split; [discriminate | reflexivity].
Qed.

(** Splitting a text in two pieces: the parts that are complete in the
    first piece are parts of the whole, and the rest is the split of what
    the first piece leaves with the second piece. *)
Lemma split_blank_app (a b : string) :
  split_blank (a +:+ b)
  = List.removelast (split_blank a) ++ split_blank (List.last (split_blank a) EmptyString +:+ b).
Proof.
  remember (String.length a) as n eqn:Hn. revert a Hn b.
  induction n as [n IH] using lt_wf_ind. intros a Hn b.
  destruct a as [| c [| d a']].
  - reflexivity.
  - reflexivity.
  - rewrite !append_cons, !split_blank_unfold.
    destruct (is_newline c && is_newline d) eqn:Hsep.
    + pose proof (split_blank_nonempty a') as Hne.
      rewrite (IH (String.length a') ltac:(subst n; simpl; lia) a' eq_refl b).
      destruct (split_blank a') as [| part parts] eqn:Hs; [contradiction |].
      reflexivity.
    + rewrite <- append_cons.
      rewrite (IH (String.length (String d a')) ltac:(subst n; simpl; lia) (String d a') eq_refl b).
      pose proof (split_blank_nonempty (String d a')) as Hne.
      destruct (removelast_cons_head c _ Hne) as (Hrl & Hsingle & Hlast).
      rewrite Hrl, Hlast.
      destruct (List.removelast (split_blank (String d a'))) as [| part parts] eqn:Hr.
      * specialize (Hsingle eq_refl). cbn [app].
        apply split_blank_single in Hsingle. rewrite Hsingle, !append_cons.
        rewrite split_blank_unfold, Hsep. rewrite <- append_cons. reflexivity.
      * cbn [app cons_head]. reflexivity.
Qed.

Lemma last_app_nonempty {A} (l1 l2 : list A) (d : A) :
  l2 <> [] -> List.last (l1 ++ l2) d = List.last l2 d.
Proof.
  intros Hne. induction l1 as [| x l1 IH]; [reflexivity |].
  cbn [app]. destruct (l1 ++ l2) eqn:E; [| exact IH].
  apply app_eq_nil in E. destruct E as [_ E]. contradiction.
Qed.

Lemma feed_feed (a b : string) (p : SSEParser) : feed b (feed a p) = feed (a +:+ b) p.
Proof.
  unfold feed. cbn [buffer onEvent].
  rewrite <- (append_assoc (buffer p) a b), (split_blank_app (buffer p +:+ a) b).
  pose proof (split_blank_nonempty
                (List.last (split_blank (buffer p +:+ a)) EmptyString +:+ b)) as Hne.
  rewrite last_app_nonempty, removelast_app by exact Hne.
  unfold dispatch. rewrite omap_app, app_assoc. reflexivity.
Qed.

Lemma feed_fold (rest : list string) :
  forall first p,
    fold_left (fun q chunk => feed chunk q) rest (feed first p) = feed (join (first :: rest)) p.
Proof.
  induction rest as [| chunk rest IH]; intros first p; cbn [fold_left].
  - simpl. rewrite append_nil_r. reflexivity.
  - rewrite feed_feed, IH. simpl. rewrite append_assoc. reflexivity.
Qed.

(** X17. The parser does not depend on where the chunks of the response
    are cut: feeding a text in any number of pieces leaves the parser with
    the buffer it has, and its handler with the events it has received,
    after the text is fed in one piece. *)
Theorem feed_is_chunking_independent (first : string) (rest : list string) (p : SSEParser) :
  fold_left (fun q chunk => feed chunk q) rest (feed first p) = feed (join (first :: rest)) p /\
  flush (fold_left (fun q chunk => feed chunk q) rest (feed first p))
  = flush (feed (join (first :: rest)) p).
Proof. rewrite feed_fold. split; reflexivity. Qed.

Lemma newline_free_cons c s :
  newline_free (String c s) = negb (is_newline c) && newline_free s.
Proof. reflexivity. Qed.

Lemma split_blank_prefix (x s : string) :
  newline_free x = true ->
  split_blank (x +:+ s)
  = match split_blank s with
    | part :: rest => (x +:+ part) :: rest
    | [] => [x]
    end.
Proof.
  intros Hx. pose proof (split_blank_nonempty s) as Hne.
  induction x as [| c x IH].
  - change (EmptyString +:+ s) with s. destruct (split_blank s); [contradiction | reflexivity].
  - rewrite newline_free_cons in Hx. apply andb_true_iff in Hx. destruct Hx as [Hc Hx].
    apply negb_true_iff in Hc.
    rewrite append_cons, split_blank_cons, (IH Hx) by exact Hc.
    destruct (split_blank s); [contradiction | reflexivity].
Qed.

Lemma split_newline_nonempty s : split_newline s <> [].
Proof.
  destruct s as [| c rest]; [easy |]. cbn [split_newline].
  destruct (is_newline c); [easy |]. unfold cons_head. destruct (split_newline rest); easy.
Qed.

Lemma split_newline_prefix (x s : string) :
  newline_free x = true ->
  split_newline (x +:+ s)
  = match split_newline s with
    | line :: rest => (x +:+ line) :: rest
    | [] => [x]
    end.
Proof.
  intros Hx. pose proof (split_newline_nonempty s) as Hne.
  induction x as [| c x IH].
  - change (EmptyString +:+ s) with s. destruct (split_newline s); [contradiction | reflexivity].
  - rewrite newline_free_cons in Hx. apply andb_true_iff in Hx. destruct Hx as [Hc Hx].
    apply negb_true_iff in Hc.
    rewrite append_cons. cbn [split_newline]. rewrite Hc, (IH Hx).
    destruct (split_newline s); [contradiction | reflexivity].
Qed.

Lemma split_newline_whole (x : string) : newline_free x = true -> split_newline x = [x].
Proof.
  intros Hx. rewrite <- (append_nil_r x) at 1.
  rewrite split_newline_prefix by exact Hx. cbn [split_newline].
  rewrite append_nil_r. reflexivity.
Qed.

Lemma split_blank_record (eventType json : string) :
  newline_free eventType = true -> newline_free json = true ->
  split_blank (writeSSEEvent eventType json)
  = ["event: " +:+ eventType +:+ newline +:+ "data: " +:+ json; EmptyString].
Proof.
  intros Ht Hj. unfold writeSSEEvent.
  rewrite (split_blank_prefix "event: ") by reflexivity.
  rewrite (split_blank_prefix eventType) by exact Ht.
  change (newline +:+ "data: " +:+ json +:+ newline +:+ newline)
    with (String (ascii_of_nat 10) (String "d" ("ata: " +:+ json +:+ newline +:+ newline))).
  rewrite split_blank_unfold.
  change (is_newline (ascii_of_nat 10) && is_newline "d") with false. cbv iota.
  change (String "d" ("ata: " +:+ json +:+ newline +:+ newline))
    with ("data: " +:+ json +:+ newline +:+ newline).
  rewrite (split_blank_prefix "data: ") by reflexivity.
  rewrite (split_blank_prefix json) by exact Hj.
  change (split_blank (newline +:+ newline)) with [EmptyString; EmptyString].
  cbn [cons_head]. rewrite append_nil_r. reflexivity.
Qed.

Lemma split_newline_record (eventType json : string) :
  newline_free eventType = true -> newline_free json = true ->
  split_newline ("event: " +:+ eventType +:+ newline +:+ "data: " +:+ json)
  = ["event: " +:+ eventType; "data: " +:+ json].
Proof.
  intros Ht Hj.
  rewrite (split_newline_prefix "event: ") by reflexivity.
  rewrite (split_newline_prefix eventType) by exact Ht.
  change (newline +:+ "data: " +:+ json) with (String (ascii_of_nat 10) ("data: " +:+ json)).
  cbn [split_newline]. change (is_newline (ascii_of_nat 10)) with true. cbv iota.
  rewrite (split_newline_prefix "data: ") by reflexivity.
  rewrite (split_newline_whole json) by exact Hj. rewrite append_nil_r. reflexivity.
Qed.

Lemma trim_nonempty c s :
  is_space1 (nat_of_ascii c) = false -> (nat_of_ascii c <? 194)%nat = true ->
  str_truthy (trim (String c s)) = true.
Proof.
  intros Hc Hlow.
  assert (trimStart (String c s) = String c s) as Hstart
    by (cbn [trimStart]; rewrite Hc, Hlow; reflexivity).
  unfold trim. rewrite Hstart. cbn [trimEnd]. unfold blank. rewrite Hstart. reflexivity.
Qed.

Lemma dispatch_one (part : string) :
  dispatch [part]
  = match (if str_truthy (trim part) then _parseEventBlock part else None) with
    | Some event => [event]
    | None => []
    end.
Proof. reflexivity. Qed.

Lemma parse_record (eventType json : string) :
  newline_free eventType = true -> newline_free json = true ->
  dispatch ["event: " +:+ eventType +:+ newline +:+ "data: " +:+ json]
  = [mkSSEEvent (trim eventType) (parse_data json)].
Proof.
  intros Ht Hj. rewrite dispatch_one.
  assert (str_truthy (trim ("event: " +:+ eventType +:+ newline +:+ "data: " +:+ json)) = true)
    as -> by exact (trim_nonempty "e" ("vent: " +:+ eventType +:+ newline +:+ "data: " +:+ json)
                                  eq_refl eq_refl).
  unfold _parseEventBlock. rewrite split_newline_record by assumption.
  cbn [fold_left]. unfold parse_line at 2.
  assert (String.prefix "event:" ("event: " +:+ eventType) = true) as -> by reflexivity.
  assert (slice 6 ("event: " +:+ eventType) = String " " eventType) as -> by reflexivity.
  assert (trim (String " " eventType) = trim eventType) as -> by reflexivity.
  unfold parse_line.
  assert (String.prefix "event:" ("data: " +:+ json) = false) as -> by reflexivity.
  assert (String.prefix "data:" ("data: " +:+ json) = true) as -> by reflexivity.
  assert (slice 5 ("data: " +:+ json) = String " " json) as -> by reflexivity.
  assert (String.prefix " " (String " " json) = true) as -> by (destruct json; reflexivity).
  reflexivity.
Qed.

Lemma feed_record (eventType json : string) (events : list SSEEvent) :
  newline_free eventType = true -> newline_free json = true ->
  feed (writeSSEEvent eventType json) (mkParser EmptyString events)
  = mkParser EmptyString (events ++ [mkSSEEvent (trim eventType) (parse_data json)]).
Proof.
  intros Ht Hj. unfold feed. cbn [buffer onEvent].
  change (EmptyString +:+ writeSSEEvent eventType json) with (writeSSEEvent eventType json).
  rewrite split_blank_record by assumption.
  cbn [List.last List.removelast]. rewrite parse_record by assumption. reflexivity.
Qed.

Lemma frame_type_plain (f : SSEFrame) :
  newline_free (frame_type f) = true /\ trim (frame_type f) = frame_type f.
Proof. destruct f as [| m | | |]; [| destruct m | | |]; split; reflexivity. Qed.

(** X18. Every frame the server streams reaches the handler of the
    frontend, once and in order, under its own type and with its data
    parsed, wherever the response is cut into chunks: the records
    [streamSSE] writes for the frames are the events the parser dispatches,
    and nothing is left in its buffer.  What is asked of [JSON.stringify]
    is that it writes no line break. *)
Theorem stream_survives_chunking (stringify : SSEFrame -> string)
    (frames : list SSEFrame) (chunks : list string) :
  (forall f, newline_free (stringify f) = true) ->
  join chunks = streamSSE stringify frames ->
  fold_left (fun p chunk => feed chunk p) chunks (mkParser EmptyString [])
  = mkParser EmptyString
             (map (fun f => mkSSEEvent (frame_type f) (parse_data (stringify f))) frames).
Proof.
  intros Hplain Hjoin.
  assert (forall events,
            feed (streamSSE stringify frames) (mkParser EmptyString events)
            = mkParser EmptyString
                (events ++ map (fun f => mkSSEEvent (frame_type f) (parse_data (stringify f)))
                               frames)) as Hfeed.
  { clear Hjoin. unfold streamSSE. induction frames as [| f frames IH]; intros events.
    - cbn [map]. reflexivity.
    - cbn [map join fold_right].
      destruct (frame_type_plain f) as [Hnf Htrim].
      rewrite <- feed_feed, feed_record by auto.
      rewrite Htrim. unfold join in IH. rewrite IH, <- app_assoc. reflexivity. }
  destruct chunks as [| first rest]; cbn [fold_left].
  - transitivity (feed (streamSSE stringify frames) (mkParser EmptyString []));
      [rewrite <- Hjoin; reflexivity | apply (Hfeed [])].
  - rewrite feed_fold, Hjoin. apply (Hfeed []).
Qed.

(** ** What a batch leaves to be saved *)

Lemma mixed_events_messages replyId (events : list AgentEvent) :
  forall (before : list string) st reply,
    pendingReplies st !! replyId = Some reply ->
    reply_messages reply = text_messages before ->
    exists reply',
      pendingReplies (fold_left (fun s event => handleAgentEvent replyId event s) events st)
        !! replyId = Some reply' /\
      reply_messages reply' = text_messages (before ++ text_contents events) /\
      reply_conversationId reply' = reply_conversationId reply.
Proof.
  induction events as [| e events IH]; intros before st reply E Hm; cbn [fold_left].
  - exists reply. unfold text_contents. simpl. rewrite app_nil_r. auto.
  - assert (text_contents (e :: events)
            = match e with EText content => [content] | _ => [] end ++ text_contents events)
      as -> by (destruct e; reflexivity).
    destruct e as [content | | | | |];
      try (apply IH; [| exact Hm]; cbn [handleAgentEvent];
           repeat match goal with
                  | |- context [if ?b then _ else _] => destruct b
                  end;
           rewrite ?push_pendingReplies, ?coordinator_pendingReplies; exact E).
    destruct (IH (before ++ [content]) (handleAgentEvent replyId (EText content) st)
                 (append_text content reply)) as (reply' & E' & Hm' & Hc').
    + rewrite text_event_reply, E. reflexivity.
    + apply append_text_messages. exact Hm.
    + exists reply'. rewrite <- app_assoc in Hm'. split; [exact E' |]. split; [exact Hm' |].
      rewrite Hc'. unfold append_text. destruct (reply_messages reply); reflexivity.
Qed.

(** X19. Of a batch of events only the text is kept for the store.  For a
    pending reply that holds no message yet, a batch of events of any kinds
    leaves as accumulated text the contents of its text events, one after
    the other; thinking, tool and coordinator events add nothing to it, and
    no event writes a message.  The finished signal then stores that text
    as one assistant message of the conversation, or nothing if it is
    empty. *)
Theorem only_text_is_saved replyId reply (events : list AgentEvent) st :
  pendingReplies st !! replyId = Some reply ->
  reply_messages reply = [] ->
  let st1 := handleAgentEvents replyId events st in
  accumulated_text replyId st1 = join (text_contents events) /\
  messages (db st1) = messages (db st) /\
  messages (db (handleAgentFinished replyId st1))
  = messages (db st) ++
    (if str_truthy (join (text_contents events))
     then [mkRow None (reply_conversationId reply) "assistant" (join (text_contents events))]
     else []).
Proof.
  intros E Hempty st1.
  destruct (mixed_events_messages replyId events [] st reply E Hempty)
    as (reply' & E' & Hm' & Hc').
  cbn [app] in Hm'.
  assert (pendingReplies st1 !! replyId = Some reply') as E1.
  { subst st1. rewrite handleAgentEvents_fold by (rewrite E; eauto). exact E'. }
  split; [| split].
  - unfold accumulated_text. rewrite E1, Hm'.
    destruct (text_contents events); reflexivity.
  - apply handleAgentEvents_messages.
  - rewrite (handleAgentFinished_messages replyId reply' st1 E1), Hm', Hc'.
    rewrite saveMessages_text. subst st1. rewrite handleAgentEvents_messages. reflexivity.
Qed.

End Further.

(** * Further scenarios

    The further properties at the data of the examples. *)

(** A child that ends with code 1 while [spawnAgent] is still awaiting keeps
    its entry in the process map and in the index, and is not running; the
    finished callback then removes the entry but not the index entry. *)
Example early_exit_keeps_its_entry :
  let st := @run_ops demo_platform
              [OpTick 1000; OpSpawnAgentExited demo_params (Some 4242) (Some 1)]
              initial_state in
  processes st !! "r1" = Some (mkChild (Some 4242) (Some 1) false) /\
  isRunning "r1" st = false /\
  getConversationAgents "c1" st = ["r1"] /\
  as_status <$> agentSessions (db st) !! "r1" = Some RUNNING /\
  processes (@run_ops demo_platform [OpHandleAgentFinished "r1"] st) !! "r1" = None /\
  getConversationAgents "c1" (@run_ops demo_platform [OpHandleAgentFinished "r1"] st)
  = ["r1"].
Proof. vm_compute. repeat split. Qed.

Lemma spawn_then_exit_restores_index_witness :
  manager_invariant initial_state /\
  conversationAgents (onChildExit "r1" "c1" (spawnAgent demo_params (Some 4242) initial_state))
  = conversationAgents initial_state.
Proof.
  assert (manager_invariant initial_state) as Hinv.
  { split; [intros c l Hl | intros r child Hl]; cbn in Hl; rewrite lookup_empty in Hl;
      discriminate. }
  split; [exact Hinv |].
  destruct (spawn_then_exit_restores_index demo_params (Some 4242) initial_state Hinv)
    as (Hc & _); [apply not_elem_of_nil | exact Hc].
Defined.

Lemma last_terminal_handler_wins_witness :
  pendingReplies demo_spawned !! "r1" = Some (mkReply "c1" "r1" "u1" [] false false) /\
  as_status <$> agentSessions
                  (db (handleAgentFinished "r1" (snd (terminateAgent "r1" demo_spawned))))
                  !! "r1"
  = Some COMPLETED.
Proof.
  split; [reflexivity |].
  destruct (last_terminal_handler_wins "r1" _ _ demo_spawned eq_refl eq_refl) as (Hc & _).
  exact Hc.
Defined.

Lemma pushes_are_delivered_in_order_witness :
  messageCallbacks demo_streaming !! "r1" = Some [[]] /\
  messageCallbacks (@run_ops demo_platform demo_ops demo_streaming) !! "r1"
  = Some (map (fun q => q ++ pushed_since (length (sse_trace demo_streaming)) "r1"
                               (@run_ops demo_platform demo_ops demo_streaming)) [[]]).
Proof.
  split; [reflexivity |].
  apply (@pushes_are_delivered_in_order demo_platform demo_ops demo_streaming eq_refl "r1" [[]]).
  reflexivity.
Defined.

Lemma stream_yields_pushes_in_order_witness :
  messageCallbacks demo_spawned !! "r1" = None /\
  stream_returned
    (fst (sendMessageStreaming_poll demo_stream
            (@run_ops demo_platform demo_ops
               (sendMessageStreaming_subscribe demo_stream demo_spawned))))
  = has_end (pushed_since
               (length (sse_trace (sendMessageStreaming_subscribe demo_stream demo_spawned)))
               "r1"
               (@run_ops demo_platform demo_ops
                  (sendMessageStreaming_subscribe demo_stream demo_spawned)))
    || negb (isRunning "r1"
               (@run_ops demo_platform demo_ops
                  (sendMessageStreaming_subscribe demo_stream demo_spawned))).
Proof.
  split; [reflexivity |].
  destruct (@stream_yields_pushes_in_order demo_platform demo_stream demo_ops demo_spawned
              eq_refl eq_refl eq_refl) as (Hr & _).
  exact Hr.
Defined.

Lemma legacy_messages_merge_by_id_witness :
  pendingReplies demo_spawned !! "r1" = Some (mkReply "c1" "r1" "u1" [] false false) /\
  exists stored,
    pendingReplies
      (fold_left (fun acc msg => @handleAgentMessage demo_platform "r1" msg acc)
                 demo_legacy demo_spawned) !! "r1"
    = Some (with_messages stored (mkReply "c1" "r1" "u1" [] false false)) /\
    filter has_no_id stored = map stored_message (filter has_no_id demo_legacy).
Proof.
  split; [reflexivity |].
  destruct (@legacy_messages_merge_by_id demo_platform "r1" _ demo_legacy demo_spawned
              eq_refl eq_refl) as (stored & E & _ & Hno).
  exists stored. split; [exact E | exact Hno].
Defined.

Lemma legacy_extraction_is_per_message_witness :
  Forall (fun msg => @testcases_payload demo_platform (message_text msg) = None) demo_legacy /\
  sse_trace (fold_left (fun acc msg => @handleAgentMessage demo_platform "r1" msg acc)
                       demo_legacy demo_spawned)
  = sse_trace demo_spawned ++ flat_map (legacy_pushes "r1") demo_legacy.
Proof.
  assert (Forall (fun msg => @testcases_payload demo_platform (message_text msg) = None)
                 demo_legacy) as Hall by (repeat constructor).
  split; [exact Hall |].
  destruct (@legacy_extraction_is_per_message demo_platform "r1" demo_legacy demo_spawned Hall)
    as (Hpending & _).
  destruct Hpending as (Ht & _); [eexists; reflexivity | exact Ht].
Defined.

Lemma plan_events_need_a_plan_witness :
  getPlan "c1" (db demo_spawned) = None /\
  db (@handleAgentEvents demo_platform "r1"
        (map (fun ev => ECoordinator (fst ev) (snd ev)) demo_plan_events) demo_spawned)
  = db demo_spawned.
Proof.
  split; [reflexivity |].
  destruct (@plan_events_need_a_plan demo_platform "r1" _ demo_plan_events demo_spawned
              eq_refl eq_refl) as (Hdb & _); [| exact Hdb].
  repeat constructor; simpl; discriminate.
Defined.

Lemma completed_phases_are_distinct_witness :
  upsertPlan "c1" "O" (JObj []) "running" empty_db
  = Some (mkDb [] ∅ {["c1" := mkPlan "O" (JObj []) None [] None "running"]}) /\
  exists row,
    getPlan "c1" (fold_left (run_update "c1") demo_updates
                    (mkDb [] ∅ {["c1" := mkPlan "O" (JObj []) None [] None "running"]}))
    = Some row /\
    NoDup (completedPhases row) /\
    (forall q, q ∈ completedPhases row <-> q ∈ completed_by demo_updates).
Proof.
  split; [reflexivity |].
  destruct (completed_phases_are_distinct "c1" "O" (JObj []) "running" demo_updates empty_db _
              eq_refl) as (row & E & _ & _ & Hnd & Hin).
  exists row. split; [exact E |]. split; [exact Hnd | exact Hin].
Defined.

Lemma hook_for_unknown_reply_witness :
  pendingReplies initial_state !! "ghost" = None /\
  @pushMessageToChatAgent demo_platform true (Some demo_hook_body) initial_state
  = (HookSuccess, initial_state, []) /\
  @pushMessageToChatAgent demo_platform true None initial_state
  = (HookCaught, initial_state, []).
Proof.
  split; [reflexivity |].
  destruct (@hook_for_unknown_reply demo_platform true (Some demo_hook_body) initial_state)
    as (Hst & Hemits & Hok & _).
  - intros body r [= <-] [= <-]. reflexivity.
  - split; [| reflexivity].
    destruct (@pushMessageToChatAgent demo_platform true (Some demo_hook_body) initial_state)
      as [[answer st'] emits].
    cbn [fst snd] in Hst, Hemits, Hok. rewrite Hst, Hemits.
    destruct Hok as [_ Hok]. rewrite Hok; [reflexivity |].
    exists demo_hook_body. split; [reflexivity |].
    split; [exists "ghost"; split; [reflexivity | discriminate] | left; eauto].
Defined.

Lemma hook_broadcasts_whole_batch_witness :
  pendingReplies demo_streaming !! "r1" = Some (mkReply "c1" "r1" "u1" [] false false) /\
  forallb (@is_hidden_tool_event demo_platform) demo_hidden_batch = true /\
  snd (@handlePushEvents demo_platform true "r1" demo_hidden_batch demo_streaming)
  = [PushReplies (chatRoom "c1") "r1" (HookEvents demo_hidden_batch)] /\
  sse_trace (fst (@handlePushEvents demo_platform true "r1" demo_hidden_batch demo_streaming))
  = sse_trace demo_streaming.
Proof.
  split; [reflexivity |]. split; [reflexivity |].
  destruct (@hook_broadcasts_whole_batch demo_platform true "r1" _ demo_hidden_batch
              demo_streaming eq_refl) as (_ & Hemits & Hsilent).
  split; [exact Hemits |]. destruct (Hsilent eq_refl) as (Ht & _). exact Ht.
Defined.

Lemma finished_signal_for_unknown_reply_witness :
  pendingReplies initial_state !! "ghost" = None /\
  sse_trace (snd (fst (pushFinishedSignalToChatAgent true
                         (Some (mkFinishedBody (Some "ghost"))) initial_state)))
  = sse_trace initial_state ++ [("ghost", None)].
Proof.
  split; [reflexivity |].
  destruct (finished_signal_for_unknown_reply true "ghost" initial_state eq_refl)
    as (_ & _ & _ & _ & Ht & _); [discriminate | exact Ht].
Defined.

Lemma stream_survives_chunking_witness :
  join demo_chunks = streamSSE demo_stringify demo_frames /\
  fold_left (fun p chunk => @feed demo_platform chunk p) demo_chunks (mkParser EmptyString [])
  = mkParser EmptyString
      (map (fun f => mkSSEEvent (frame_type f) (@parse_data demo_platform (demo_stringify f)))
           demo_frames).
Proof.
  split; [reflexivity |].
  apply (@stream_survives_chunking demo_platform demo_stringify demo_frames demo_chunks).
  - intros f. reflexivity.
  - reflexivity.
Defined.

Lemma only_text_is_saved_witness :
  pendingReplies demo_spawned !! "r1" = Some (mkReply "c1" "r1" "u1" [] false false) /\
  accumulated_text "r1"
    (@handleAgentEvents demo_platform "r1"
       (EText "Hello" :: demo_hidden_batch ++ [EThinking "hm"; EText " world"]) demo_spawned)
  = join (text_contents (EText "Hello" :: demo_hidden_batch ++ [EThinking "hm"; EText " world"])).
Proof.
  split; [reflexivity |].
  destruct (@only_text_is_saved demo_platform "r1" _
              (EText "Hello" :: demo_hidden_batch ++ [EThinking "hm"; EText " world"])
              demo_spawned eq_refl eq_refl) as (Hacc & _).
  exact Hacc.
Defined.
